(** * Certificate composer and batch exporter: a shallow embedding

    The development follows the two JavaScript sources of the repository:

    - the certificate renderer ([renderCertificate], 547 lines), whose two
      name blocks (certificate name, ID-card name) fit a name into a fixed
      width by shrinking the font and by greedy word wrapping;
    - [assets/js/admin-bulk.js], whose [generateBatchPDF] renders a slice of
      CSV rows into one PDF, with a cancel flag and an in-flight flag.

    A second part of definitions adds [roundRect] of the renderer,
    [loadPhotoAsBase64] of the bulk exporter with its candidate file names,
    and the name of the file downloaded by the single-certificate page
    ([docs/bootcamp/kiet/assets/js/main.js]).

    Conventions.  A JavaScript string is a [string]: one character per code
    unit, so [String.length] is [.length]; the names the model ranges over
    are those whose code units are below 256.  Font sizes are the integers
    the source uses ([Z]); measured widths and coordinates are rationals
    ([Q]).  A JavaScript number is a double.  The baselines, the sizes and
    the geometry of the card are integers and halves, on which the
    arithmetic of the source is exact.  The scaling and the placing of the
    signature image divide and multiply: there every operation is followed
    by [double], the rounding to the nearest double (finite doubles only:
    the dimensions of an image are far from the overflow threshold).  The
    ends of the underlines and the place of the id label, which add
    measured widths, are written without rounding; no statement below
    depends on their values.  What the browser decides is a parameter: the text measurement
    of the canvas ([ctx.measureText]), [toUpperCase], the outcome of every
    image load, the DOM left by [QRCode], the parsed CSV, the outcome of
    every photo look-up, and the moments at which the user clicks Cancel.
    An asynchronous function is a function of these parameters: it is
    suspended at its [await]s only, and clicks are handled there.

    Left out: colours, gradients, line widths and shadows of the canvas;
    the buttons and the progress bar of the bulk page; the closing
    roll-number summary, which repeats [generatedRollNumbers] and
    [skippedRollNumbers]; exceptions raised inside the [QRCode] and [jsPDF]
    libraries. *)

From Stdlib Require Import ZArith QArith Qround Qabs Qpower String Ascii List Lia Lqa Bool.
From stdpp Require Import gmap strings.
Import ListNotations.

(** ** JavaScript values shared by both files *)

Inductive JsError : Type :=
| TypeError (message : string)   (* raised by the engine itself *)
| Error (message : string)       (* [throw new Error(...)] *)
| LoadError.                     (* an [img.onerror] rejection of [loadImage] *)

Inductive Result (A : Type) : Type :=
| Ok (a : A)
| Threw (e : JsError).
Arguments Ok {A} a.
Arguments Threw {A} e.

(** ** Text measurement *)

(** [ctx.font = `${weight} ${px}px "${family}"`]. *)
Record Font : Type := mkFont { weight : string; px : Z; family : string }.

(** [ctx.measureText(text).width] under a given [ctx.font]. *)
Definition Metrics : Type := Font -> string -> Q.

(** Widths do not grow when only the pixel size of a font shrinks. *)
Definition metrics_monotone (m : Metrics) : Prop :=
  forall (w f text : string) (a b : Z),
    (a <= b)%Z -> (m (mkFont w a f) text <= m (mkFont w b f) text)%Q.

(** ** Numbers: rounding to a double

    The result of an arithmetic operation of JavaScript is the double
    nearest to the exact result, the one with an even significand on a
    tie (IEEE 754 binary64: 53 bits of significand, least exponent
    [-1074]).  Results of magnitude [2^1024] or more, which JavaScript
    turns into [Infinity], are left out. *)

Definition pow2 (e : Z) : Q := Qpower 2 e.

(** The integer nearest to [x], the even one of the two on a tie. *)
Definition nearestEven (x : Q) : Z :=
  let f := Qfloor x in
  match Qcompare (x - inject_Z f) (1 # 2) with
  | Lt => f
  | Gt => (f + 1)%Z
  | Eq => if Z.even f then f else (f + 1)%Z
  end.

(** The integer part of the binary logarithm of a positive [a]. *)
Definition binade (a : Q) : Z :=
  let e0 := (Z.log2 (Qnum a) - Z.log2 (QDen a))%Z in
  if Qle_bool (pow2 e0) a then e0 else (e0 - 1)%Z.

Definition double (q : Q) : Q :=
  if Qeq_bool q 0 then 0%Q
  else
    let s := Z.max (binade (Qabs q) - 52) (-1074) in
    (inject_Z (nearestEven (q / pow2 s)) * pow2 s)%Q.

(** ** Strings: [split(' ')] and [join(' ')] *)

Definition isSpace (c : ascii) : bool := Ascii.eqb c " "%char.

(** [s.split(' ')]: cut at every space; the pieces may be empty and there
    is always at least one piece. *)
Fixpoint split (s : string) : list string :=
  match s with
  | EmptyString => [EmptyString]
  | String c rest =>
      if isSpace c then EmptyString :: split rest
      else match split rest with
           | [] => [String c EmptyString]
           | w :: ws => String c w :: ws
           end
  end.

(** [lines.join(' ')]. *)
Definition join (pieces : list string) : string := String.concat " " pieces.

(** [a + ' ' + b]. *)
Definition spaced (a b : string) : string := a +:+ " " +:+ b.

(** The string contains a space. *)
Fixpoint hasSpace (s : string) : bool :=
  match s with
  | EmptyString => false
  | String c rest => isSpace c || hasSpace rest
  end.

(** ** The two loops of the fitting engine *)

Section Loops.

(** [while (!fits(size) && size > floor) size -= step;]
    The loop runs at most [size - floor] times when [step >= 1]; the fuel
    is that bound, and [shrinkWhile_unfold] shows it is never exhausted. *)
Fixpoint shrinkLoop (fuel : nat) (fits : Z -> bool) (floor step size : Z) : Z :=
  match fuel with
  | O => size
  | S fuel' =>
      if negb (fits size) && (floor <? size)%Z
      then shrinkLoop fuel' fits floor step (size - step)
      else size
  end.

Definition shrinkWhile (fits : Z -> bool) (floor step size : Z) : Z :=
  shrinkLoop (Z.to_nat (size - floor)) fits floor step size.

(** [for (i = 1; i < words.length; i++) { testLine = currentLine + ' ' +
    words[i]; if (fits(testLine)) currentLine = testLine; else {
    lines.push(currentLine); currentLine = words[i]; } }]
    over the words from index 1 on; the state is [(lines, currentLine)]. *)
Fixpoint wrapLoop (fits : string -> bool) (rest : list string)
         (lines : list string) (currentLine : string) : list string * string :=
  match rest with
  | [] => (lines, currentLine)
  | word :: rest' =>
      let testLine := spaced currentLine word in
      if fits testLine
      then wrapLoop fits rest' lines testLine
      else wrapLoop fits rest' (lines ++ [currentLine]) word
  end.

(** [currentLine = words[0]; lines = []; <loop>; lines.push(currentLine)].
    [split] never returns an empty array, so [words[0]] is a string. *)
Definition greedyWrap (fits : string -> bool) (words : list string) : list string :=
  let currentLine := hd EmptyString words in
  let '(lines, lastLine) := wrapLoop fits (tl words) [] currentLine in
  lines ++ [lastLine].

End Loops.

(** ** Layout decisions of a name block *)

Record FitLine : Type := mkFitLine { lineText : string; lineSize : Z }.

Inductive NameLayout : Type :=
| SingleLine (text : string) (fontSize : Z)
| MultiLine (multiLineFontSize lineHeight : Z) (lines : list FitLine).

Definition layoutLines (l : NameLayout) : list FitLine :=
  match l with
  | SingleLine text fontSize => [mkFitLine text fontSize]
  | MultiLine _ _ lines => lines
  end.

(** *** Certificate name block (renderer lines 130-224) *)

Module CertName.

Definition maxNameWidth : Q := 2400 # 1.

Definition measureName (m : Metrics) (text : string) (size : Z) : Q :=
  m (mkFont "bold" size "Cormorant Garamond") text.

Definition nameFits (m : Metrics) (text : string) (size : Z) : bool :=
  Qle_bool (measureName m text size) maxNameWidth.

Definition forceMultiLineName (nameText : string) : bool :=
  (19 <? String.length nameText)%nat.

Definition multiLineFontSize (nameText : string) : Z :=
  if (25 <? String.length nameText)%nat then 120%Z else 150%Z.

Definition lineHeight (nameText : string) : Z :=
  if (25 <? String.length nameText)%nat then 130%Z else 160%Z.

(** Lines 168-184. *)
Definition wrapped (m : Metrics) (nameText : string) : list string :=
  greedyWrap (fun testLine => nameFits m testLine (multiLineFontSize nameText))
             (split nameText).

(** Lines 194-198: each line starts at the block's size and is shrunk on
    its own, in steps of 5, not below 80. *)
Definition fitLine (m : Metrics) (nameText line : string) : FitLine :=
  mkFitLine line
    (shrinkWhile (nameFits m line) 80 5 (multiLineFontSize nameText)).

Definition multiLine (m : Metrics) (nameText : string) : NameLayout :=
  MultiLine (multiLineFontSize nameText) (lineHeight nameText)
            (map (fitLine m nameText) (wrapped m nameText)).

(** Lines 145-164 and the test of line 166.  [forceMultiLineName] is
    declared [const] (line 145); the assignment of line 162 therefore
    raises a [TypeError] when it is executed. *)
Definition layout (m : Metrics) (nameText : string) : Result NameLayout :=
  if negb (forceMultiLineName nameText) then
    let fontSize := shrinkWhile (nameFits m nameText) 120 5 200 in
    if nameFits m nameText fontSize
    then Ok (SingleLine nameText fontSize)
    else Threw (TypeError "Assignment to constant variable.")
  else Ok (multiLine m nameText).

End CertName.

(** *** ID-card name block (renderer lines 415-493) *)

(** The geometry of the card (lines 358-361). *)
Definition cardX : Q := 250%Q.
Definition cardY : Q := 1300%Q.
Definition cardW : Q := 500%Q.
Definition cardH : Q := 800%Q.

Module CardName.

Definition maxCardNameWidth : Q := (cardW - 60)%Q.
Definition startFontSize : Z := 55.

Definition fits (m : Metrics) (text : string) (size : Z) : bool :=
  Qle_bool (m (mkFont "bold" size "Montserrat") text) maxCardNameWidth.

Definition forceMultiLine (fullname : string) : bool :=
  (15 <? String.length fullname)%nat.

Definition multiLineFontSize (fullname : string) : Z :=
  if (25 <? String.length fullname)%nat then 26%Z else 30%Z.

Definition lineHeight (fullname : string) : Z :=
  if (25 <? String.length fullname)%nat then 32%Z else 36%Z.

(** Lines 436-441. *)
Definition bestSingleLineSize (m : Metrics) (fullname : string) : Z :=
  if negb (forceMultiLine fullname)
  then shrinkWhile (fits m fullname) 30 2 startFontSize
  else startFontSize.

(** Lines 448-464. *)
Definition wrapped (m : Metrics) (fullname : string) : list string :=
  greedyWrap (fun testLine => fits m testLine (multiLineFontSize fullname))
             (split fullname).

(** Lines 485-488. *)
Definition fitLine (m : Metrics) (fullname line : string) : FitLine :=
  mkFitLine line (shrinkWhile (fits m line) 16 2 (multiLineFontSize fullname)).

Definition multiLine (m : Metrics) (fullname : string) : NameLayout :=
  MultiLine (multiLineFontSize fullname) (lineHeight fullname)
            (map (fitLine m fullname) (wrapped m fullname)).

(** Lines 443-446. *)
Definition layout (m : Metrics) (fullname : string) : NameLayout :=
  if negb (forceMultiLine fullname) && fits m fullname (bestSingleLineSize m fullname)
  then SingleLine fullname (bestSingleLineSize m fullname)
  else multiLine m fullname.

End CardName.

(** ** The drawing surface *)

(** What the host gives one call of [renderCertificate]. *)
Record Image : Type := mkImage { src : string; width : Q; height : Q }.

(** The children of the [div] handed to [new QRCode(div, ...)]:
    [querySelector('img')] with its [src], and [querySelector('canvas')]. *)
Record QrDom : Type := mkQrDom { qrImgSrc : option string; qrHasCanvas : bool }.

Record Host : Type := mkHost {
  metrics : Metrics;
  toUpperCase : string -> string;        (* [String.prototype.toUpperCase] *)
  loadImage : string -> option Image;    (* [None]: the promise is rejected *)
  makeQR : string -> QrDom               (* the DOM left by [new QRCode] *)
}.

Inductive Lang : Type := en | te.

Inductive Align : Type := AlignLeft | AlignCenter | AlignRight.

Inductive Pixels : Type :=
| FromImage (img : Image)
| FromQrCanvas (text : string).

(** The surface records what is painted and where.  Colours, gradients,
    line widths and shadows are not part of it. *)
Inductive DrawOp : Type :=
| FillRect (x y w h : Q)
| StrokeRect (x y w h : Q)
| FillRoundRect (x y w h r : Q)
| FillText (text : string) (x y : Q) (font : Font) (align : Align)
| StrokeLine (x1 y1 x2 y2 : Q)
| DrawImage (pixels : Pixels) (x y w h : Q).

Record Canvas : Type := mkCanvas {
  painted : list DrawOp;       (* in painting order *)
  console : list string        (* [console.warn] / [console.error] *)
}.

Definition blank : Canvas := mkCanvas [] [].

(** A drawing computation: it ends normally with a value, or it raises; in
    both cases the canvas keeps what was painted so far. *)
Inductive Completion (A : Type) : Type :=
| Done (a : A) (c : Canvas)
| Raised (e : JsError) (c : Canvas).
Arguments Done {A} a c.
Arguments Raised {A} e c.

Definition Draw (A : Type) : Type := Canvas -> Completion A.

#[global] Instance draw_ret : MRet Draw := fun A (a : A) c => Done a c.

#[global] Instance draw_bind : MBind Draw :=
  fun A B (k : A -> Draw B) (d : Draw A) c =>
    match d c with
    | Done a c' => k a c'
    | Raised e c' => Raised e c'
    end.

#[global] Instance draw_throw : MThrow JsError Draw :=
  fun A (e : JsError) c => Raised e c.

(** [try { body } catch (e) { handler }]. *)
Definition tryCatch {A} (body : Draw A) (handler : JsError -> Draw A) : Draw A :=
  fun c => match body c with
           | Done a c' => Done a c'
           | Raised e c' => handler e c'
           end.

Definition paint (op : DrawOp) : Draw unit :=
  fun c => Done tt (mkCanvas (painted c ++ [op]) (console c)).

Definition consoleLog (line : string) : Draw unit :=
  fun c => Done tt (mkCanvas (painted c) (console c ++ [line])).

(** [await loadImage(src)]. *)
Definition awaitImage (h : Host) (source : string) : Draw Image :=
  match loadImage h source with
  | Some img => mret img
  | None => mthrow LoadError
  end.

Definition liftResult {A} (r : Result A) : Draw A :=
  match r with
  | Ok a => mret a
  | Threw e => mthrow e
  end.

(** A drawing computation that never raises. *)
Definition completes {A} (d : Draw A) : Prop :=
  forall c : Canvas, exists (a : A) (c' : Canvas), d c = Done a c'.

(** A drawing computation that always raises [e]. *)
Definition raises {A} (e : JsError) (d : Draw A) : Prop :=
  forall c : Canvas, exists c' : Canvas, d c = Raised e c'.

(** ** The composer: [renderCertificate] *)

(** The [user] object of the renderer; [parseStudent] of the bulk exporter
    builds the same object. *)
Record Student : Type := mkStudent {
  student_id : string;
  rollno : string;
  student_name : string;
  telugu_name : string;
  photo_filename : string
}.

Record LanguagePack : Type := mkPack {
  header : string; event : string; subtitle : string;
  body1 : string; body2 : string; body3 : string; college : string;
  datePrefix : string; role : string; idLabel : string
}.

(** The double-quote character, as a one-character string. *)
Definition quote : string := String (Ascii.ascii_of_nat 34) EmptyString.

(** The translation dictionary [t] (lines 12-37); the Telugu literals are
    the bytes of the source file. *)
Definition t (lang : Lang) : LanguagePack :=
  match lang with
  | en => mkPack "CERTIFICATE OF PARTICIPATION" "AI KARYASHALA"
            "This certificate is awarded to"
            "for actively participating in the"
            "AI Awareness & Hands-on Bootcamp on 7th & 8th February 2026"
            "conducted at" "KIET, KAKINADA." "Issue Date"
            "Founder of AI Karyashala" "Certificate ID:"
  | te => mkPack "ప్రశంసా పత్రం" "AI కార్యశాల"
            "AI అవగాహన & హ్యాండ్స్-ఆన్ బూట్‌క్యాంప్"
            ("వీరు " +:+ quote +:+ "AI కార్యశాల" +:+ quote +:+ "లో పాల్గొన్నారు")
            "AI అవగాహన & హ్యాండ్స్-ఆన్ బూట్‌క్యాంప్"
            EmptyString "KIET కళాశాల, కాకినాడ లో నిర్వహించబడింది." "జారీ తేదీ:"
            "సమన్వయకర్త / శిక్షకుడు" "సర్టిఫికేట్ ID:"
  end.

Definition headerFont (lang : Lang) : string :=
  match lang with te => "Tiro Telugu, serif" | en => "UnifrakturCook, serif" end.

Definition uiFont (lang : Lang) : string :=
  match lang with te => "Tiro Telugu, sans-serif" | en => "Montserrat, sans-serif" end.

Definition qrUrl (user : Student) : string :=
  "https://aikaryashala.com/certificates/bootcamp/kiet/" +:+ rollno user.

Section Composer.

Variable h : Host.
Let m : Metrics := metrics h.

Local Open Scope Q_scope.

Definition WIDTH : Q := 3508.
Definition HEIGHT : Q := 2480.
Definition textCenterX : Q := 2100.

(** Lines 63-69: paints the text and returns its measured width. *)
Definition drawText (text : string) (x y : Q) (fontSize : Z) (font : string)
           (align : Align) (weight : string) : Draw Q :=
  paint (FillText text x y (mkFont weight fontSize font) align) ;;
  mret (m (mkFont weight fontSize font) text).

(** Lines 71-87. *)
Definition drawFrame : Draw unit :=
  paint (FillRect 0 0 WIDTH HEIGHT) ;;
  paint (StrokeRect 40 40 (WIDTH - 80) (HEIGHT - 80)) ;;
  paint (StrokeRect 60 60 (WIDTH - 120) (HEIGHT - 120)).

(** Lines 94-111. *)
Definition drawStudentId (user : Student) (lang : Lang) : Draw unit :=
  let idY := 200 in
  let idValueWidth := m (mkFont "normal" 40 (uiFont lang)) (student_id user) in
  let idRightEdge := WIDTH - 200 in
  let idValueX := idRightEdge in
  let idLabelX := idValueX - idValueWidth - 15 in
  drawText (idLabel (t lang)) idLabelX idY 40 (uiFont lang) AlignRight "normal" ;;
  drawText (student_id user) idValueX idY 40 (uiFont lang) AlignRight "normal" ;;
  mret tt.

(** Lines 114-128. *)
Definition drawTitle (lang : Lang) : Draw unit :=
  let titleY := 500 in
  titleWidth ← drawText (header (t lang)) textCenterX titleY 100 (headerFont lang)
                        AlignCenter "bold";
  paint (StrokeLine (textCenterX - titleWidth / 2 - 20) (titleY + 40)
                    (textCenterX + titleWidth / 2 + 20) (titleY + 40)) ;;
  drawText (event (t lang)) textCenterX 720 90 (uiFont lang) AlignCenter "bold" ;;
  drawText (subtitle (t lang)) textCenterX 880 60 (uiFont lang) AlignCenter "normal" ;;
  mret tt.

Definition nameY : Q := 1100.

(** Lines 193-214: one wrapped line, underlined, then [currentY] moves on. *)
Fixpoint drawNameLines (lines : list FitLine) (lineHeight : Z) (currentY : Q) : Draw unit :=
  match lines with
  | [] => mret tt
  | line :: lines' =>
      lineWidth ← drawText (lineText line) textCenterX currentY (lineSize line)
                           "Cormorant Garamond" AlignCenter "bold";
      paint (StrokeLine (textCenterX - lineWidth / 2) (currentY + 30)
                        (textCenterX + lineWidth / 2) (currentY + 30)) ;;
      drawNameLines lines' lineHeight (currentY + inject_Z lineHeight)
  end.

(** Lines 130-224.  The layout is decided first ([CertName.layout]); a
    [TypeError] of line 162 leaves [renderCertificate] at this point. *)
Definition drawRecipientName (user : Student) : Draw unit :=
  let nameText := toUpperCase h (student_name user) in
  layout ← liftResult (CertName.layout m nameText);
  match layout with
  | SingleLine text fontSize =>
      finalNameWidth ← drawText text textCenterX nameY fontSize
                                "Cormorant Garamond" AlignCenter "bold";
      paint (StrokeLine (textCenterX - finalNameWidth / 2) (nameY + 30)
                        (textCenterX + finalNameWidth / 2) (nameY + 30))
  | MultiLine _ lineHeight lines =>
      let totalHeight := (inject_Z (Z.of_nat (length lines)) - 1) * inject_Z lineHeight in
      drawNameLines lines lineHeight (nameY - totalHeight / 2)
  end.

(** Lines 226-256. *)
Definition drawBody (lang : Lang) : Draw unit :=
  match lang with
  | en =>
      paint (FillText (body1 (t en)) textCenterX 1300
               (mkFont "italic" 55 "Cormorant Garamond") AlignCenter) ;;
      paint (FillText (body2 (t en)) textCenterX 1380
               (mkFont "bold" 55 "Cormorant Garamond") AlignCenter) ;;
      paint (FillText (body3 (t en)) textCenterX 1460
               (mkFont "italic" 55 "Cormorant Garamond") AlignCenter) ;;
      paint (FillText (college (t en)) textCenterX 1540
               (mkFont "bold" 60 "Cormorant Garamond") AlignCenter)
  | te =>
      paint (FillText (body1 (t te)) textCenterX 1300
               (mkFont "normal" 55 "Tiro Telugu") AlignCenter) ;;
      paint (FillText (body2 (t te)) textCenterX 1380
               (mkFont "bold" 55 "Tiro Telugu") AlignCenter) ;;
      paint (FillText (college (t te)) textCenterX 1500
               (mkFont "bold" 60 "Tiro Telugu") AlignCenter)
  end.

Definition footerY : Q := 2100.
Definition footerLeftX : Q := 1100.
Definition footerRightX : Q := 3100.

(** Lines 266-296. *)
Definition drawDate (lang : Lang) : Draw unit :=
  let dateValue := "08-02-2026"%string in
  let dateWidth := m (mkFont EmptyString 45 "Outfit") dateValue in
  let dateLineWidth := dateWidth + 40 in
  let textBaselineY := footerY - 28 in
  let lineY := footerY - 20 in
  paint (FillText dateValue footerLeftX textBaselineY
           (mkFont EmptyString 45 "Outfit") AlignCenter) ;;
  paint (StrokeLine (footerLeftX - dateLineWidth / 2) lineY
                    (footerLeftX + dateLineWidth / 2) lineY) ;;
  paint (FillText (datePrefix (t lang)) footerLeftX (lineY + 45)
           (mkFont "bold" 40 "Times New Roman") AlignCenter).

(** Lines 314-335: the signature image, scaled down to 450 px of width.
    A rejected load is caught and only warned about.  The operations of
    lines 323-332 are those of doubles: each is followed by [double]. *)
Definition drawSignatureImage (blockCenterX lineY_pos : Q) : Draw unit :=
  tryCatch
    (sigImg ← awaitImage h "assets/signature.png";
     let maxSigW := 450 in
     let shrink := negb (Qle_bool (width sigImg) maxSigW) in
     let ratio := double (maxSigW / width sigImg) in
     let finalSigW := if shrink then maxSigW else width sigImg in
     let finalSigH := if shrink then double (height sigImg * ratio)
                      else height sigImg in
     let sigX := double (blockCenterX - double (finalSigW / 2)) in
     let sigY := double (double (lineY_pos - 8) - finalSigH) in
     paint (DrawImage (FromImage sigImg) sigX (double (sigY + 15)) finalSigW finalSigH))
    (fun _ => consoleLog "Signature image failed to load").

(** Lines 298-353. *)
Definition drawSignatureBlock (lang : Lang) : Draw unit :=
  let roleWidth := m (mkFont "bold" 45 (uiFont lang)) (role (t lang)) in
  let blockCenterX := footerRightX - roleWidth / 2 in
  let lineY_pos := footerY - 20 in
  let nameY_pos := lineY_pos + 50 in
  let roleY_pos := nameY_pos + 50 in
  drawSignatureImage blockCenterX lineY_pos ;;
  paint (StrokeLine (blockCenterX - roleWidth / 2) lineY_pos
                    (blockCenterX + roleWidth / 2) lineY_pos) ;;
  paint (FillText "Rohini Kumar Barla" blockCenterX nameY_pos
           (mkFont "bold" 50 "Times New Roman") AlignCenter) ;;
  drawText (role (t lang)) blockCenterX roleY_pos 45 (uiFont lang) AlignCenter "bold" ;;
  mret tt.

(** Lines 357-397: lanyard, clip, card body and card header. *)
Definition drawCardBody : Draw unit :=
  let lanyardW := 120 in
  let lanyardH := cardY + 50 in
  paint (FillRect (cardX + (cardW - lanyardW) / 2) 0 lanyardW lanyardH) ;;
  paint (FillRect (cardX + (cardW - 160) / 2) (lanyardH - 40) 160 60) ;;
  paint (FillRoundRect cardX cardY cardW cardH 30) ;;
  paint (FillRect cardX cardY cardW 120) ;;
  paint (FillText "AI Karyashala" (cardX + 40) (cardY + 80)
           (mkFont "bold" 50 "Outfit") AlignLeft).

Definition photoW : Q := 300.
Definition photoH : Q := 380.
Definition photoX : Q := cardX + (cardW - photoW) / 2.
Definition photoY : Q := cardY + 160.

(** Lines 399-413: the photo slot; a rejected load is caught and logged,
    the slot stays white. *)
Definition drawPhoto (photoBase64 : string) : Draw unit :=
  paint (FillRect (photoX - 10) (photoY - 10) (photoW + 20) (photoH + 20)) ;;
  tryCatch
    (userPhoto ← awaitImage h photoBase64;
     paint (DrawImage (FromImage userPhoto) photoX photoY photoW photoH))
    (fun _ => consoleLog "Failed to load user photo:").

Definition cardNameY : Q := photoY + photoH + 55.

(** Lines 484-492. *)
Fixpoint drawCardLines (lines : list FitLine) (lineHeight : Z) (currentY : Q) : Draw unit :=
  match lines with
  | [] => mret tt
  | line :: lines' =>
      paint (FillText (lineText line) (cardX + cardW / 2) currentY
               (mkFont "bold" (lineSize line) "Montserrat") AlignCenter) ;;
      drawCardLines lines' lineHeight (currentY + inject_Z lineHeight)
  end.

(** Lines 415-493. *)
Definition drawCardName (user : Student) : Draw unit :=
  match CardName.layout m (student_name user) with
  | SingleLine fullname bestSingleLineSize =>
      paint (FillText fullname (cardX + cardW / 2) cardNameY
               (mkFont "bold" bestSingleLineSize "Montserrat") AlignCenter)
  | MultiLine _ lineHeight lines =>
      let qrTopMargin := cardY + cardH - 140 - 30 in
      let maxNameBottomY := qrTopMargin in
      let extent := (inject_Z (Z.of_nat (length lines)) - 1) * inject_Z lineHeight in
      let projectedBottomY := cardNameY + extent in
      let startY := if Qle_bool projectedBottomY maxNameBottomY
                    then cardNameY else maxNameBottomY - extent in
      drawCardLines lines lineHeight startY
  end.

(** Lines 495-520.  The load of the code image is awaited outside of any
    [try]: when it is rejected, the rejection leaves [renderCertificate]. *)
Definition drawQr (user : Student) : Draw unit :=
  let qrSize := 140 in
  let qrX := cardX + cardW - qrSize - 20 in
  let qrY := cardY + cardH - qrSize - 20 in
  let qr := makeQR h (qrUrl user) in
  paint (FillRect (qrX - 10) (qrY - 10) (qrSize + 20) (qrSize + 20)) ;;
  match qrImgSrc qr with
  | Some (String c s) =>
      qrImageObj ← awaitImage h (String c s);
      paint (DrawImage (FromImage qrImageObj) qrX qrY qrSize qrSize)
  | _ =>
      if qrHasCanvas qr
      then paint (DrawImage (FromQrCanvas (qrUrl user)) qrX qrY qrSize qrSize)
      else mret tt
  end.

(** [renderCertificate(user, photoBase64, lang)], in the order of the
    source.  Setting [canvas.width] (line 50) clears the canvas, so every
    call starts from [blank]. *)
Definition compose (user : Student) (photoBase64 : string) (lang : Lang) : Draw unit :=
  drawFrame ;;
  drawStudentId user lang ;;
  drawTitle lang ;;
  drawRecipientName user ;;
  drawBody lang ;;
  drawDate lang ;;
  drawSignatureBlock lang ;;
  drawCardBody ;;
  drawPhoto photoBase64 ;;
  drawCardName user ;;
  drawQr user.

Definition renderCertificate (user : Student) (photoBase64 : string) (lang : Lang)
  : Completion unit :=
  compose user photoBase64 lang blank.

(** [QRCode] left an [img] with a source, and the load of that source is
    rejected. *)
Definition qrImageRejected (user : Student) : Prop :=
  exists (c : ascii) (s : string),
    qrImgSrc (makeQR h (qrUrl user)) = Some (String c s)
    /\ loadImage h (String c s) = None.

End Composer.

(** ** The bulk exporter: [assets/js/admin-bulk.js] *)

(** *** CSV rows and [parseStudent] (lines 29-111) *)

(** A parsed CSV row: an object from column names to cell texts. *)
Abbreviation Row := (gmap string string).

Inductive ColumnType : Type :=
| col_student_id | col_english_first | col_english_second
| col_telugu_first | col_telugu_second | col_photo | col_student_name.

Definition COLUMN_MAPS (columnType : ColumnType) : list string :=
  match columnType with
  | col_student_id =>
      ["CRollNumber"; "ID"; "id"; "student_id"; "StudentID"; "Student ID"; "rollno"; "RollNo"]
  | col_english_first =>
      ["English 1st Line"; "English 1st line"; "english_first"; "First Name"; "FirstName"]
  | col_english_second =>
      ["English 2nd Line"; "English 2nd line"; "english_second"; "Last Name"; "LastName";
       "Surname"]
  | col_telugu_first => ["Telugu 1st Line"; "Telugu 1st line"; "telugu_first"]
  | col_telugu_second => ["Telugu 2nd Line"; "Telugu 2nd line"; "telugu_second"]
  | col_photo => ["Photos"; "Photo"; "photo"; "PhotoFile"; "Image"]
  | col_student_name =>
      ["CName"; "student_name"; "Student Name"; "Name"; "FullName"; "Full Name"]
  end.

(** The white space [trim] removes, among the code units below 256. *)
Definition isWhite (c : ascii) : bool :=
  match nat_of_ascii c with
  | 9 | 10 | 11 | 12 | 13 | 32 | 160 => true
  | _ => false
  end%nat.

Fixpoint trimStart (s : string) : string :=
  match s with
  | EmptyString => EmptyString
  | String c rest => if isWhite c then trimStart rest else s
  end.

Fixpoint trimEnd (s : string) : string :=
  match s with
  | EmptyString => EmptyString
  | String c rest =>
      match trimEnd rest with
      | EmptyString => if isWhite c then EmptyString else String c EmptyString
      | kept => String c kept
      end
  end.

Definition trim (s : string) : string := trimEnd (trimStart s).

(** A string is truthy when it is not empty; [null] and [undefined] are
    falsy. *)
Definition truthy (v : option string) : bool :=
  match v with
  | Some (String _ _) => true
  | _ => false
  end.

(** [v || ''] *)
Definition orEmpty (v : option string) : string :=
  if truthy v then default EmptyString v else EmptyString.

(** Lines 70-78: the first candidate column that is present and not empty,
    trimmed. *)
Fixpoint firstFilled (row : Row) (possibleNames : list string) : option string :=
  match possibleNames with
  | [] => None
  | name :: rest =>
      match row !! name with
      | Some (String c s) => Some (trim (String c s))
      | _ => firstFilled row rest
      end
  end.

Definition getColumnValue (row : Row) (columnType : ColumnType) : option string :=
  firstFilled row (COLUMN_MAPS columnType).

(** Lines 81-111. *)
Definition parseStudent (row : Row) : option Student :=
  let student_id := getColumnValue row col_student_id in
  if negb (truthy student_id) then None
  else
    let id := default EmptyString student_id in
    let named := getColumnValue row col_student_name in
    let student_name :=
      if negb (truthy named)
      then trim (spaced (orEmpty (getColumnValue row col_english_first))
                        (orEmpty (getColumnValue row col_english_second)))
      else default EmptyString named in
    let telugu_name :=
      trim (spaced (orEmpty (getColumnValue row col_telugu_first))
                   (orEmpty (getColumnValue row col_telugu_second))) in
    let photo := getColumnValue row col_photo in
    let photo_filename :=
      if negb (truthy photo) then id +:+ ".jpeg" else default EmptyString photo in
    Some (mkStudent id id student_name telugu_name photo_filename).

(** The test of line 271: [!student || !student.student_name]. *)
Definition invalidRow (row : Row) : bool :=
  match parseStudent row with
  | None => true
  | Some student => negb (truthy (Some (student_name student)))
  end.

(** *** Settings and [Array.prototype.slice] *)

Record Settings : Type := mkSettings {
  photosPath : string;
  startIndexInput : option Z;     (* [parseInt(...)]; [None] is [NaN] *)
  batchSizeInput : option Z;
  generateTelugu : bool;
  skipMissing : bool
}.

(** [parsed || fallback] on a number: [NaN] and [0] are falsy. *)
Definition orNumber (parsed : option Z) (fallback : Z) : Z :=
  match parsed with
  | None => fallback
  | Some z => if (z =? 0)%Z then fallback else z
  end.

Definition startIndex (cfg : Settings) : Z := orNumber (startIndexInput cfg) 0.
Definition batchSize (cfg : Settings) : Z := orNumber (batchSizeInput cfg) 50.

(** A relative index of [slice]: negative indices count from the end. *)
Definition sliceIndex (len idx : Z) : Z :=
  if (idx <? 0)%Z then Z.max (len + idx) 0 else Z.min idx len.

Definition slice {A} (l : list A) (start stop : Z) : list A :=
  let len := Z.of_nat (length l) in
  let k := sliceIndex len start in
  let final := sliceIndex len stop in
  firstn (Z.to_nat (final - k)) (skipn (Z.to_nat k) l).

(** *** The PDF under construction *)

(** What [canvas.toDataURL] captures: the painted canvas. *)
Abbreviation PageImage := (list DrawOp).

(** A [jsPDF] document: the pages before the current one and the images
    placed on the current page.  A new document has one empty page. *)
Record Pdf : Type := mkPdf {
  earlierPages : list (list PageImage);
  currentPage : list PageImage
}.

Definition newPdf : Pdf := mkPdf [] [].

Definition addPage (pdf : Pdf) : Pdf :=
  mkPdf (earlierPages pdf ++ [currentPage pdf]) [].

Definition addImage (imgData : PageImage) (pdf : Pdf) : Pdf :=
  mkPdf (earlierPages pdf) (currentPage pdf ++ [imgData]).

Definition pdfPages (pdf : Pdf) : list (list PageImage) :=
  earlierPages pdf ++ [currentPage pdf].

(** *** Module state, log and loop state *)

(** Lines 11-12. *)
Record Globals : Type := mkGlobals { cancelRequested : bool; isGenerating : bool }.

Inductive LogType : Type := LogInfo | LogSuccess | LogWarning | LogError.

(** The messages of [log], by their template. *)
Inductive Message : Type :=
| MsgLoadingCsv
| MsgLoadedRows (rows : nat)
| MsgBatch (first last : Z) (students : nat)
| MsgCancelled
| MsgCancellationRequested
| MsgInvalidRow (rowIndex : Z)
| MsgPhotoSkipped (id : string)
| MsgRenderingEnglish (id : string)
| MsgRenderingTelugu (id : string)
| MsgStudentDone (id name : string)
| MsgGeneratingPdf (first last : Z)
| MsgComplete (certificates : nat)
| MsgSkipped (students : nat)
| MsgSaved (first last : Z)
| MsgNoCertificates
| MsgError (e : JsError).

Inductive SkippedEntry : Type :=
| SkippedRow (rowIndex : Z)      (* [`Row ${startIndex + i} (Invalid data)`] *)
| SkippedId (id : string).

(** The module variables and the locals of [generateBatchPDF] (lines
    245-259). *)
Record RunState : Type := mkRun {
  globals : Globals;
  pdf : Pdf;
  firstPage : bool;
  successCount : nat;
  skipCount : nat;
  currentStep : nat;
  generatedRollNumbers : list string;
  skippedRollNumbers : list SkippedEntry;
  logs : list (LogType * Message)
}.

Definition initialRun (g : Globals) : RunState :=
  mkRun g newPdf true 0 0 0 [] [] [].

Definition setGlobals (g : Globals) (st : RunState) : RunState :=
  mkRun g (pdf st) (firstPage st) (successCount st) (skipCount st) (currentStep st)
        (generatedRollNumbers st) (skippedRollNumbers st) (logs st).

Definition log (message : Message) (type : LogType) (st : RunState) : RunState :=
  mkRun (globals st) (pdf st) (firstPage st) (successCount st) (skipCount st)
        (currentStep st) (generatedRollNumbers st) (skippedRollNumbers st)
        (logs st ++ [(type, message)]).

(** [currentStep++] *)
Definition stepDone (st : RunState) : RunState :=
  mkRun (globals st) (pdf st) (firstPage st) (successCount st) (skipCount st)
        (S (currentStep st)) (generatedRollNumbers st) (skippedRollNumbers st) (logs st).

(** [skippedRollNumbers.push(entry); skipCount++; currentStep++] *)
Definition skip (entry : SkippedEntry) (st : RunState) : RunState :=
  mkRun (globals st) (pdf st) (firstPage st) (successCount st) (S (skipCount st))
        (S (currentStep st)) (generatedRollNumbers st)
        (skippedRollNumbers st ++ [entry]) (logs st).

(** [successCount++; generatedRollNumbers.push(id)] *)
Definition succeeded (id : string) (st : RunState) : RunState :=
  mkRun (globals st) (pdf st) (firstPage st) (S (successCount st)) (skipCount st)
        (currentStep st) (generatedRollNumbers st ++ [id]) (skippedRollNumbers st)
        (logs st).

(** Lines 301-309: [if (!firstPage) pdf.addPage(); firstPage = false;
    pdf.addImage(canvas.toDataURL(...))]. *)
Definition addFirstLanguagePage (imgData : PageImage) (st : RunState) : RunState :=
  mkRun (globals st)
        (addImage imgData (if firstPage st then pdf st else addPage (pdf st)))
        false (successCount st) (skipCount st) (currentStep st)
        (generatedRollNumbers st) (skippedRollNumbers st) (logs st).

(** Lines 325-327: [pdf.addPage(); pdf.addImage(canvas.toDataURL(...))]. *)
Definition addSecondLanguagePage (imgData : PageImage) (st : RunState) : RunState :=
  mkRun (globals st) (addImage imgData (addPage (pdf st)))
        (firstPage st) (successCount st) (skipCount st) (currentStep st)
        (generatedRollNumbers st) (skippedRollNumbers st) (logs st).

(** Lines 392-397: the handler of the Cancel button. *)
Definition cancelGeneration (st : RunState) : RunState :=
  if isGenerating (globals st)
  then log MsgCancellationRequested LogWarning
           (setGlobals (mkGlobals true (isGenerating (globals st))) st)
  else st.

(** The handler runs when the user clicked while the run was suspended. *)
Definition clicks (clicked : bool) (st : RunState) : RunState :=
  if clicked then cancelGeneration st else st.

(** *** The host of one run *)

(** What happens around one iteration of the loop.  The run is suspended at
    every [await]; a click on Cancel is handled during a suspension.  The
    flag is read at three places only (lines 263, 316, 341), so the clicks
    are grouped by the check that sees them first. *)
Record StepHost : Type := mkStepHost {
  (** [loadPhotoAsBase64(photosPath, filename)]: the data URL, or [None]
      when no candidate file answers and it throws. *)
  loadPhotoAsBase64 : string -> string -> option string;
  hostEnglish : Host;          (* the host of the English render *)
  hostTelugu : Host;           (* the host of the Telugu render *)
  (** a click while the photo, the English render or its [sleep(50)] is
      awaited *)
  clickedEarly : bool;
  (** a click while the Telugu render, its [sleep(50)] or the closing
      [sleep(10)] is awaited *)
  clickedLate : bool
}.

Record BatchHost : Type := mkBatchHost {
  loadCSVData : Result (list Row);   (* [Threw]: the promise is rejected *)
  clickedDuringLoad : bool;          (* a click while the CSV is awaited *)
  stepHost : nat -> StepHost         (* by loop index [i] *)
}.

(** How one iteration ends. *)
Inductive StepExit : Type :=
| NextRow                 (* falls through or [continue] *)
| Break
| Throw (e : JsError).

(** *** The loop body (lines 262-339) *)

Section Loop.

Variable cfg : Settings.

(** Lines 314-338, after the English page has been added. *)
Definition secondLanguage (sh : StepHost) (student : Student) (photoBase64 : string)
           (st : RunState) : StepExit * RunState :=
  let finish (st : RunState) : StepExit * RunState :=
    (NextRow,
     clicks (clickedLate sh)
       (log (MsgStudentDone (student_id student) (student_name student)) LogSuccess
          (succeeded (student_id student) st))) in
  if generateTelugu cfg && truthy (Some (telugu_name student)) then
    if cancelRequested (globals st) then (Break, st)
    else
      let st := log (MsgRenderingTelugu (student_id student)) LogInfo st in
      match renderCertificate (hostTelugu sh) student photoBase64 te with
      | Raised e _ => (Throw e, clicks (clickedLate sh) st)
      | Done _ canvas =>
          finish (stepDone (addSecondLanguagePage (painted canvas) st))
      end
  else if generateTelugu cfg then finish (stepDone st)
  else finish st.

(** Lines 263-339: one iteration, for the row at loop index [i]. *)
Definition processRow (sh : StepHost) (i : nat) (row : Row) (st : RunState)
  : StepExit * RunState :=
  if cancelRequested (globals st) then (Break, log MsgCancelled LogWarning st)
  else
    let rowIndex := (startIndex cfg + Z.of_nat i)%Z in
    match parseStudent row with
    | Some student =>
        if negb (truthy (Some (student_name student))) then
          (NextRow, skip (SkippedRow rowIndex) (log (MsgInvalidRow rowIndex) LogWarning st))
        else
          (* [await loadPhotoAsBase64(...)]: the run is suspended *)
          let st := clicks (clickedEarly sh) st in
          match loadPhotoAsBase64 sh (photosPath cfg) (photo_filename student) with
          | None =>
              if skipMissing cfg then
                let st := skip (SkippedId (student_id student))
                            (log (MsgPhotoSkipped (student_id student)) LogWarning st) in
                (NextRow, if generateTelugu cfg then stepDone st else st)
              else
                (Throw (Error ("Photo not found for " +:+ student_id student +:+ ": "
                               +:+ photo_filename student)), st)
          | Some photoBase64 =>
              let st := log (MsgRenderingEnglish (student_id student)) LogInfo st in
              match renderCertificate (hostEnglish sh) student photoBase64 en with
              | Raised e _ => (Throw e, st)
              | Done _ canvas =>
                  secondLanguage sh student photoBase64
                    (stepDone (addFirstLanguagePage (painted canvas) st))
              end
          end
    | None =>
        (NextRow, skip (SkippedRow rowIndex) (log (MsgInvalidRow rowIndex) LogWarning st))
    end.

(** [for (let i = 0; i < batchData.length; i++) { ... }], from index [i]
    on; [NextRow] at the end means the loop ran off the end of the
    range. *)
Fixpoint processRows (host : nat -> StepHost) (i : nat) (rows : list Row)
         (st : RunState) : StepExit * RunState :=
  match rows with
  | [] => (NextRow, st)
  | row :: rows' =>
      match processRow (host i) i row st with
      | (NextRow, st') => processRows host (S i) rows' st'
      | stopped => stopped
      end
  end.

End Loop.

(** *** [generateBatchPDF] (lines 208-389) *)

(** The file handed to [pdf.save]: [AIK_Certificates_<first>-<last>.pdf]. *)
Record SavedFile : Type := mkSaved { firstRow : Z; lastRow : Z; document : Pdf }.

(** The states of a finished run, by the path taken through [try], [catch]
    and the test of line 341: [Failed] when the [catch] block ran,
    [Cancelled] when the [try] block ended with the cancel flag set,
    [Completed] otherwise. *)
Inductive Outcome : Type :=
| Completed
| Cancelled
| Failed (e : JsError).

Record Report : Type := mkReport {
  outcome : Outcome;
  producedDocument : option SavedFile;   (* what [pdf.save] wrote, if called *)
  final : RunState                       (* the locals when the run ended *)
}.

(** [finally { isGenerating = false; ... }] *)
Definition finally (st : RunState) : RunState :=
  setGlobals (mkGlobals (cancelRequested (globals st)) false) st.

(** [catch (error) { log(`Error: ${error.message}`, 'error'); }] *)
Definition caught (e : JsError) (st : RunState) : Report :=
  mkReport (Failed e) None (finally (log (MsgError e) LogError st)).

(** Lines 341-378, after the loop. *)
Definition conclude (cfg : Settings) (endIndex : Z) (st : RunState) : Report :=
  let ended := if cancelRequested (globals st) then Cancelled else Completed in
  if negb (cancelRequested (globals st)) && (0 <? successCount st)%nat then
    let first := startIndex cfg in
    let last := (endIndex - 1)%Z in
    let st := log (MsgGeneratingPdf first last) LogInfo st in
    let file := mkSaved first last (pdf st) in
    let st := log (MsgComplete (successCount st)) LogSuccess st in
    let st := if (0 <? skipCount st)%nat
              then log (MsgSkipped (skipCount st)) LogWarning st else st in
    let st := log (MsgSaved first last) LogSuccess st in
    mkReport ended (Some file) (finally st)
  else if (successCount st =? 0)%nat then
    mkReport ended None (finally (log MsgNoCertificates LogError st))
  else mkReport ended None (finally st).

(** Lines 235-236: the range of the batch. *)
Definition endIndex (cfg : Settings) (csvData : list Row) : Z :=
  Z.min (startIndex cfg + batchSize cfg) (Z.of_nat (length csvData)).

Definition batchData (cfg : Settings) (csvData : list Row) : list Row :=
  slice csvData (startIndex cfg) (endIndex cfg csvData).

(** The whole function.  [None]: the call returned at line 209 because a
    run was in flight; nothing was touched. *)
Definition generateBatchPDF (cfg : Settings) (host : BatchHost) (g : Globals)
  : Globals * option Report :=
  if isGenerating g then (g, None)
  else
    let st := initialRun (mkGlobals false true) in
    let st := log MsgLoadingCsv LogInfo st in
    (* [await loadCSVData()]: the run is suspended *)
    let st := clicks (clickedDuringLoad host) st in
    let report :=
      match loadCSVData host with
      | Threw e => caught e st
      | Ok csvData =>
          let st := log (MsgLoadedRows (length csvData)) LogSuccess st in
          let st := log (MsgBatch (startIndex cfg) (endIndex cfg csvData - 1)
                                  (length (batchData cfg csvData)))
                        LogInfo st in
          if (length (batchData cfg csvData) =? 0)%nat
          then caught (Error "No students in the specified range") st
          else
            match processRows cfg (stepHost host) 0 (batchData cfg csvData) st with
            | (Throw e, st') => caught e st'
            | (_, st') => conclude cfg (endIndex cfg csvData) st'
            end
      end in
    (globals (final report), Some report).

(** The images placed in a document, page by page. *)
Definition producedPages (st : RunState) : list PageImage :=
  concat (pdfPages (pdf st)).

(** The state in which the loop is entered (lines 211-259), when the CSV
    loads. *)
Definition loopEntry (cfg : Settings) (host : BatchHost) (csvData : list Row) : RunState :=
  log (MsgBatch (startIndex cfg) (endIndex cfg csvData - 1) (length (batchData cfg csvData)))
      LogInfo
      (log (MsgLoadedRows (length csvData)) LogSuccess
           (clicks (clickedDuringLoad host)
                   (log MsgLoadingCsv LogInfo (initialRun (mkGlobals false true))))).

(** The Cancel handler ran while the run was in flight: it left its
    message in the log. *)
Definition cancellationSignalled (st : RunState) : Prop :=
  In (LogWarning, MsgCancellationRequested) (logs st).

(** The flag is set whenever the handler left its message. *)
Definition flagFollowsLog (st : RunState) : Prop :=
  cancellationSignalled st -> cancelRequested (globals st) = true.

(** Images placed one per page, as lines 301-309 place them: the first
    image of a document goes on the page the document starts with. *)
Fixpoint placeImages (first : bool) (doc : Pdf) (images : list PageImage) : Pdf :=
  match images with
  | [] => doc
  | imgData :: images' =>
      placeImages false (addImage imgData (if first then doc else addPage doc)) images'
  end.

(** *** What a batch is expected to yield

    The definitions of this part follow the words of the specification;
    the theorems compare them with [generateBatchPDF]. *)

(** The photo of a record cannot be resolved. *)
Definition photoUnresolvable (cfg : Settings) (sh : StepHost) (row : Row) : bool :=
  match parseStudent row with
  | Some student =>
      match loadPhotoAsBase64 sh (photosPath cfg) (photo_filename student) with
      | Some _ => false
      | None => true
      end
  | None => false
  end.

(** The page of a record: its English composition over its photo. *)
Definition englishPage (cfg : Settings) (sh : StepHost) (row : Row) : option PageImage :=
  match parseStudent row with
  | Some student =>
      match loadPhotoAsBase64 sh (photosPath cfg) (photo_filename student) with
      | Some photoBase64 =>
          match renderCertificate (hostEnglish sh) student photoBase64 en with
          | Done _ canvas => Some (painted canvas)
          | Raised _ _ => None
          end
      | None => None
      end
  | None => None
  end.

Definition pageOf (cfg : Settings) (sh : StepHost) (row : Row) : list PageImage :=
  match englishPage cfg sh row with
  | Some page => [page]
  | None => []
  end.

(** The pages of the records from loop index [i] on, in record order. *)
Fixpoint pagesInOrder (cfg : Settings) (host : nat -> StepHost) (i : nat)
         (rows : list Row) : list PageImage :=
  match rows with
  | [] => []
  | row :: rows' =>
      match englishPage cfg (host i) row with
      | Some page => page :: pagesInOrder cfg host (S i) rows'
      | None => pagesInOrder cfg host (S i) rows'
      end
  end.

(** The number [k] of records with an unresolvable photo. *)
Fixpoint unresolvable (cfg : Settings) (host : nat -> StepHost) (i : nat)
         (rows : list Row) : nat :=
  match rows with
  | [] => 0
  | row :: rows' =>
      (if photoUnresolvable cfg (host i) row then 1 else 0)
      + unresolvable cfg host (S i) rows'
  end.

(** Nobody clicks Cancel during the first [n] iterations. *)
Definition noClicks (host : BatchHost) (n : nat) : Prop :=
  clickedDuringLoad host = false
  /\ forall i : nat, (i < n)%nat ->
       clickedEarly (stepHost host i) = false
       /\ clickedLate (stepHost host i) = false.

(** Every composition of a record with a photo returns. *)
Definition compositionsReturn (cfg : Settings) (host : nat -> StepHost)
           (rows : list Row) : Prop :=
  forall (i : nat) (row : Row),
    rows !! i = Some row ->
    photoUnresolvable cfg (host i) row = false ->
    is_Some (englishPage cfg (host i) row).

(** The record is skipped: its row is invalid, or its photo is missing
    and missing photos are skipped. *)
Definition rowSkipped (cfg : Settings) (sh : StepHost) (row : Row) : Prop :=
  invalidRow row = true
  \/ (skipMissing cfg = true /\ photoUnresolvable cfg sh row = true).


(** *** The two buttons (lines 400-401) as a transition system

    [generateBatchPDF] is asynchronous: between its first statement and its
    [finally] block the page keeps handling clicks.  [inFlight] counts the
    calls that passed the test of line 209 and have not yet run their
    [finally] block. *)
Record Page : Type := mkPage { flags : Globals; inFlight : nat }.

Definition idlePage : Page := mkPage (mkGlobals false false) 0.

Inductive transition : Page -> Page -> Prop :=
| GenerateRejected (p : Page) :               (* line 209 *)
    isGenerating (flags p) = true ->
    transition p p
| GenerateStarted (p : Page) :                (* lines 211-212 *)
    isGenerating (flags p) = false ->
    transition p (mkPage (mkGlobals false true) (S (inFlight p)))
| CancelClicked (p : Page) :                  (* lines 393-395 *)
    transition p
      (mkPage (if isGenerating (flags p)
               then mkGlobals true (isGenerating (flags p)) else flags p)
              (inFlight p))
| RunFinished (p : Page) :                    (* line 384 *)
    (0 < inFlight p)%nat ->
    transition p (mkPage (mkGlobals (cancelRequested (flags p)) false)
                         (Nat.pred (inFlight p))).

Inductive reachable : Page -> Prop :=
| reachable_idle : reachable idlePage
| reachable_step (p q : Page) : reachable p -> transition p q -> reachable q.

(** ** The fitting engine, by block

    The two name blocks are two instances of one engine
    [fit(text, maxWidth, startFontSize, minFontSize, threshold)]; the
    definitions below only select the block. *)

Inductive Block : Type := NameBlock | CardBlock.

Definition multilineThreshold (b : Block) : nat :=
  match b with NameBlock => 19 | CardBlock => 15 end.

Definition startSize (b : Block) : Z :=
  match b with NameBlock => 200 | CardBlock => CardName.startFontSize end.

Definition stepSize (b : Block) : Z :=
  match b with NameBlock => 5 | CardBlock => 2 end.

(** The floor of the single-line attempt. *)
Definition minFontSize (b : Block) : Z :=
  match b with NameBlock => 120 | CardBlock => 30 end.

(** The floor of the per-line shrink of the multi-line path. *)
Definition minLineSize (b : Block) : Z :=
  match b with NameBlock => 80 | CardBlock => 16 end.

Definition maxWidth (b : Block) : Q :=
  match b with
  | NameBlock => CertName.maxNameWidth
  | CardBlock => CardName.maxCardNameWidth
  end.

Definition measured (b : Block) (m : Metrics) (text : string) (size : Z) : Q :=
  match b with
  | NameBlock => CertName.measureName m text size
  | CardBlock => m (mkFont "bold" size "Montserrat") text
  end.

Definition wrapSize (b : Block) (name : string) : Z :=
  match b with
  | NameBlock => CertName.multiLineFontSize name
  | CardBlock => CardName.multiLineFontSize name
  end.

Definition wrappedLines (b : Block) (m : Metrics) (name : string) : list string :=
  match b with
  | NameBlock => CertName.wrapped m name
  | CardBlock => CardName.wrapped m name
  end.

Definition fit (b : Block) (m : Metrics) (name : string) : Result NameLayout :=
  match b with
  | NameBlock => CertName.layout m name
  | CardBlock => Ok (CardName.layout m name)
  end.

(** The number of lines of a fit; [None] when the engine raised. *)
Definition lineCount (r : Result NameLayout) : option nat :=
  match r with
  | Ok l => Some (length (layoutLines l))
  | Threw _ => None
  end.

(** A size the single-line loop visits, not below the floor. *)
Definition triedSize (b : Block) (size : Z) : Prop :=
  exists k : nat, size = (startSize b - stepSize b * Z.of_nat k)%Z
                  /\ (minFontSize b <= size)%Z.

(** The words of [words], in order, cut into non-empty groups, one group
    per line. *)
Definition partitionsInOrder (words lines : list string) : Prop :=
  exists groups : list (list string),
    concat groups = words
    /\ Forall (fun g => g <> []) groups
    /\ lines = map join groups.

(** ** Concrete hosts, names and batches *)

Module Examples.

(** Every character as wide as [perEm] times the pixel size. *)
Definition uniformMetrics (perEm : Q) : Metrics :=
  fun font text =>
    (perEm * inject_Z (px font) * inject_Z (Z.of_nat (String.length text)))%Q.

Definition plainMetrics : Metrics := uniformMetrics (6 # 10).
Definition wideMetrics : Metrics := uniformMetrics (11 # 10).

(** Upper case on the letters [a]-[z]. *)
Definition upperChar (c : ascii) : ascii :=
  let n := nat_of_ascii c in
  if (97 <=? n)%nat && (n <=? 122)%nat then ascii_of_nat (n - 32) else c.

Fixpoint asciiUpper (s : string) : string :=
  match s with
  | EmptyString => EmptyString
  | String c rest => String (upperChar c) (asciiUpper rest)
  end.

Definition qrSrc : string := "data:image/png;base64,qr".

(** Every image loads; [QRCode] leaves an [img] with a data URL. *)
Definition goodHost (m : Metrics) : Host :=
  mkHost m asciiUpper
         (fun source => Some (mkImage source 600 200))
         (fun _ => mkQrDom (Some qrSrc) true).

(** As [goodHost], but the image named [broken] is rejected. *)
Definition hostWithout (m : Metrics) (broken : string) : Host :=
  mkHost m asciiUpper
         (fun source => if String.eqb source broken then None
                        else Some (mkImage source 600 200))
         (fun _ => mkQrDom (Some qrSrc) true).

Definition suhitha : Student :=
  mkStudent "AIK24B21A42C7" "AIK24B21A42C7" "Kavuri Suhitha" EmptyString
            "AIK24B21A42C7.jpeg".

Definition photoUrl : string := "data:image/jpeg;base64,photo".

(** Nineteen capital letters. *)
Definition wideName : string := "WWWWWWWWWWWWWWWWWWW".

Definition wideStudent : Student :=
  mkStudent "AIK1" "AIK1" wideName EmptyString "AIK1.jpeg".

(** Twenty-two characters, three words. *)
Definition threeWords : string := "VENKATA SATYA NARAYANA".

(** Thirty characters, four words. *)
Definition fourWords : string := "VENKATA SATYA NARAYANA MURTHYS".

Definition row (id name : string) : Row :=
  <["ID" := id]> (<["Name" := name]> ∅).

Definition threeRows : list Row :=
  [row "AIK1" "Kavuri Suhitha"; row "AIK2" "Second Student"; row "AIK3" "Third Student"].

(** A record whose photo is missing, and a row without any column. *)
Definition skippedRows : list Row := [row "AIK2" "Second Student"; ∅].

Definition settings (telugu skip : bool) : Settings :=
  mkSettings "assets/photos/" None None telugu skip.

(** Every photo but the one of [missing] resolves; nobody clicks, unless
    [clickAt] is the loop index. *)
Definition stepWith (missing : string) (clickAt : option nat) (i : nat) : StepHost :=
  mkStepHost
    (fun _ filename => if String.eqb filename missing then None else Some photoUrl)
    (goodHost plainMetrics) (goodHost plainMetrics)
    (match clickAt with Some j => Nat.eqb i j | None => false end)
    false.

Definition batchHost (csv : list Row) (missing : string) (clickAt : option nat)
  : BatchHost :=
  mkBatchHost (Ok csv) false (stepWith missing clickAt).

Definition idle : Globals := mkGlobals false false.

End Examples.

(** * More of the two sources

    The definitions below cover what the first part leaves out:
    [roundRect] of the renderer, [loadPhotoAsBase64] of the bulk exporter,
    and the name of the file the single-certificate page downloads
    ([docs/bootcamp/kiet/assets/js/main.js], a caller of
    [renderCertificate]). *)

(** ** [roundRect] (renderer lines 523-547) *)

Module RoundRect.

Inductive PathOp : Type :=
| BeginPath
| MoveTo (x y : Q)
| LineTo (x y : Q)
| QuadraticCurveTo (cpx cpy x y : Q)
| ClosePath.

(** The [radius] argument: missing, a number, or an object whose corners
    may be missing. *)
Inductive RadiusArg : Type :=
| RadiusUndefined
| RadiusNumber (r : Q)
| RadiusObject (tl tr br bl : option Q).

Record Corners : Type := mkCorners { tl : Q; tr : Q; br : Q; bl : Q }.

(** [radius[side] || defaultRadius[side]], the default being 0. *)
Definition orDefault (v : option Q) : Q :=
  match v with
  | Some r => r
  | None => 0%Q
  end.

(** Lines 525-535. *)
Definition corners (radius : RadiusArg) : Corners :=
  match radius with
  | RadiusUndefined => mkCorners 5 5 5 5
  | RadiusNumber r => mkCorners r r r r
  | RadiusObject a b c d =>
      mkCorners (orDefault a) (orDefault b) (orDefault c) (orDefault d)
  end.

(** Lines 536-546. *)
Definition roundRect (x y width height : Q) (radius : RadiusArg) : list PathOp :=
  let r := corners radius in
  [ BeginPath;
    MoveTo (x + tl r) y;
    LineTo (x + width - tr r) y;
    QuadraticCurveTo (x + width) y (x + width) (y + tr r);
    LineTo (x + width) (y + height - br r);
    QuadraticCurveTo (x + width) (y + height) (x + width - br r) (y + height);
    LineTo (x + bl r) (y + height);
    QuadraticCurveTo x (y + height) x (y + height - bl r);
    LineTo x (y + tl r);
    QuadraticCurveTo x y (x + tl r) y;
    ClosePath ]%Q.

(** The points a path operation names: end points and control points. *)
Definition pointsOf (op : PathOp) : list (Q * Q) :=
  match op with
  | BeginPath | ClosePath => []
  | MoveTo x y | LineTo x y => [(x, y)]
  | QuadraticCurveTo cpx cpy x y => [(cpx, cpy); (x, y)]
  end.

(** Where the pen is after a path, starting from [pen]; [ClosePath] takes
    it back to the start of the sub-path. *)
Fixpoint penAfter (start pen : option (Q * Q)) (path : list PathOp) : option (Q * Q) :=
  match path with
  | [] => pen
  | BeginPath :: rest => penAfter None None rest
  | MoveTo x y :: rest => penAfter (Some (x, y)) (Some (x, y)) rest
  | LineTo x y :: rest => penAfter start (Some (x, y)) rest
  | QuadraticCurveTo _ _ x y :: rest => penAfter start (Some (x, y)) rest
  | ClosePath :: rest => penAfter start start rest
  end.

(** The point is inside the rectangle of corner [(x, y)] and of the given
    size, sides included. *)
Definition inBox (x y width height : Q) (p : Q * Q) : Prop :=
  (x <= fst p /\ fst p <= x + width /\ y <= snd p /\ snd p <= y + height)%Q.

End RoundRect.

(** ** [loadPhotoAsBase64] (bulk exporter lines 113-158) *)

Module PhotoFiles.

Definition lowerChar (c : ascii) : ascii :=
  let n := nat_of_ascii c in
  if (65 <=? n)%nat && (n <=? 90)%nat then ascii_of_nat (n + 32) else c.

Fixpoint lowerString (s : string) : string :=
  match s with
  | EmptyString => EmptyString
  | String c rest => String (lowerChar c) (lowerString rest)
  end.

(** The whole string is [.jpeg], [.jpg] or [.png], in any letter case: what
    [/\.(jpeg|jpg|png)$/i] matches from its first character on. *)
Definition isPhotoExtension (s : string) : bool :=
  let l := lowerString s in
  String.eqb l ".jpeg" || String.eqb l ".jpg" || String.eqb l ".png".

(** The text before the match of [/\.(jpeg|jpg|png)$/i], when there is
    one: the match starts at the leftmost position from which the rest of
    the string is an extension. *)
Fixpoint beforeExtension (s : string) : option string :=
  if isPhotoExtension s then Some EmptyString
  else match s with
       | EmptyString => None
       | String c rest => option_map (String c) (beforeExtension rest)
       end.

(** [filename.replace(/\.(jpeg|jpg|png)$/i, replacement)] *)
Definition replaceExtension (filename replacement : string) : string :=
  match beforeExtension filename with
  | Some base => base +:+ replacement
  | None => filename
  end.

Fixpoint endsWithSlash (s : string) : bool :=
  match s with
  | EmptyString => false
  | String c EmptyString => Ascii.eqb c "/"%char
  | String _ rest => endsWithSlash rest
  end.

(** Lines 116-117. *)
Definition basePath (photosPath : string) : string :=
  let trimmed := trim photosPath in
  if endsWithSlash trimmed then trimmed else trimmed +:+ "/".

(** Lines 120-135: the array [extensions], in the order it is built. *)
Definition extensions (filename : string) : list string :=
  let baseWithoutExt := replaceExtension filename EmptyString in
  [ filename;
    replaceExtension filename ".jpeg";
    replaceExtension filename ".jpg";
    replaceExtension filename ".JPEG";
    replaceExtension filename ".JPG";
    replaceExtension filename ".png";
    replaceExtension filename ".PNG";
    baseWithoutExt +:+ ".jpeg";
    baseWithoutExt +:+ ".jpg";
    baseWithoutExt +:+ ".png";
    baseWithoutExt +:+ ".PNG" ].

(** [[...new Set(array)]]: the first occurrence of every element, in
    order. *)
Fixpoint uniqueFrom (seen : list string) (array : list string) : list string :=
  match array with
  | [] => []
  | x :: rest =>
      if existsb (String.eqb x) seen then uniqueFrom seen rest
      else x :: uniqueFrom (x :: seen) rest
  end.

Definition uniqueExtensions (filename : string) : list string :=
  uniqueFrom [] (extensions filename).

(** What comes back for one URL.  [fetch] may throw; a response may not be
    [ok]; reading its body may throw ([response.blob()]), and the
    [FileReader] may fail or deliver the data URL. *)
Inductive Body : Type :=
| BlobThrows
| ReaderFails
| DataUrl (url : string).

Inductive Fetched : Type :=
| FetchThrows
| Response (ok : bool) (body : Body).

Inductive Outcome : Type :=
| Loaded (url : string)
| NotFound (filename : string)     (* [throw new Error(`Photo not found: ...`)] *)
| ReaderRejected.                  (* the returned promise is rejected by [reader.onerror] *)

(** Lines 140-157.  The promise of the reader is returned, not awaited:
    its rejection is not caught by the [catch] of the loop. *)
Fixpoint probe (fetch : string -> Fetched) (base : string) (names : list string)
         (filename : string) : Outcome :=
  match names with
  | [] => NotFound filename
  | ext :: rest =>
      match fetch (base +:+ ext) with
      | Response true (DataUrl url) => Loaded url
      | Response true ReaderFails => ReaderRejected
      | _ => probe fetch base rest filename
      end
  end.

Definition loadPhotoAsBase64 (fetch : string -> Fetched) (photosPath filename : string)
  : Outcome :=
  probe fetch (basePath photosPath) (uniqueExtensions filename) filename.

(** The candidate answers: the server says [ok] and the body can be read
    as a blob. *)
Definition answers (fetch : string -> Fetched) (url : string) : bool :=
  match fetch url with
  | Response true (DataUrl _) | Response true ReaderFails => true
  | _ => false
  end.

(** What the loop of [generateBatchPDF] sees (lines 281-294): every
    exception counts as a missing photo. *)
Definition forLoop (o : Outcome) : option string :=
  match o with
  | Loaded url => Some url
  | NotFound _ | ReaderRejected => None
  end.

End PhotoFiles.

(** ** The download of the single-certificate page ([main.js] lines 165-176) *)

Module Viewer.

(** [text.replace(/\s+/g, '_')]: every run of white space becomes one
    underscore; [inRun] says that the character before was white space. *)
Fixpoint underscored (inRun : bool) (text : string) : string :=
  match text with
  | EmptyString => EmptyString
  | String c rest =>
      if isWhite c
      then if inRun then underscored true rest
           else String "_"%char (underscored true rest)
      else String c (underscored false rest)
  end.

Definition langSuffix (currentLang : Lang) : string :=
  match currentLang with en => EmptyString | te => "_TE" end.

(** [`Certificate_${name.replace(/\s+/g, '_')}${langSuffix}.jpg`] *)
Definition downloadName (student_name : string) (currentLang : Lang) : string :=
  "Certificate_" +:+ underscored false student_name +:+ langSuffix currentLang +:+ ".jpg".

Fixpoint hasWhite (s : string) : bool :=
  match s with
  | EmptyString => false
  | String c rest => isWhite c || hasWhite rest
  end.

End Viewer.

(** ** More about the fitting engine and the canvas *)

(** The first word of every line but the first did not fit at the end of
    the line before it. *)
Fixpoint packedAfter (fits : string -> bool) (previous : list string)
         (groups : list (list string)) : Prop :=
  match groups with
  | [] => True
  | g :: rest =>
      fits (spaced (join previous) (hd EmptyString g)) = false
      /\ packedAfter fits g rest
  end.

Definition packed (fits : string -> bool) (groups : list (list string)) : Prop :=
  match groups with
  | [] => True
  | g :: rest => packedAfter fits g rest
  end.

(** The test of the wrap loop of a block, for a name. *)
Definition wrapFits (b : Block) (m : Metrics) (name : string) (testLine : string) : bool :=
  Qle_bool (measured b m testLine (wrapSize b name)) (maxWidth b).

(** What a drawing computation adds to the canvas it runs on, and how it
    ends, whatever that canvas is. *)
Definition appends {A} (d : Draw A) (r : Result A) (ops : list DrawOp)
           (lines : list string) : Prop :=
  forall c : Canvas,
    d c = match r with
          | Ok a => Done a (mkCanvas (painted c ++ ops) (console c ++ lines))
          | Threw e => Raised e (mkCanvas (painted c ++ ops) (console c ++ lines))
          end.

(** A drawing computation that only adds to the canvas, the same on every
    canvas. *)
Definition writes {A} (d : Draw A) : Prop :=
  exists (r : Result A) (ops : list DrawOp) (logs : list string), appends d r ops logs.

(** A drawing computation that only paints: it logs nothing. *)
Definition paints {A} (d : Draw A) : Prop :=
  exists (r : Result A) (ops : list DrawOp), appends d r ops [].

(** No white space in front. *)
Definition startsBlack (s : string) : Prop :=
  match s with
  | EmptyString => True
  | String c _ => isWhite c = false
  end.

(** The baselines of the texts painted, in painting order. *)
Definition baselines (ops : list DrawOp) : list Q :=
  flat_map (fun op => match op with
                      | FillText _ _ y _ _ => [y]
                      | _ => []
                      end) ops.

(** The baselines [first], [first + step], ... of [n] lines. *)
Fixpoint evenlySpaced (first step : Q) (n : nat) : list Q :=
  match n with
  | O => []
  | S n' => first :: evenlySpaced (first + step)%Q step n'
  end.

(** The host in which the load of one image is rejected, everything else
    being as in [h]. *)
Definition withoutImage (h : Host) (source : string) : Host :=
  mkHost (metrics h) (toUpperCase h)
         (fun s => if String.eqb s source then None else loadImage h s)
         (makeQR h).

(** ** More about a run *)

(** Line 254. *)
Definition totalSteps (cfg : Settings) (batch : list Row) : nat :=
  if generateTelugu cfg then length batch * 2 else length batch.

(** The pages of a record, in the order they are placed: the English
    composition, then the Telugu one when it is asked for and the record
    has a Telugu name. *)
Definition recordPages (cfg : Settings) (sh : StepHost) (row : Row) : list PageImage :=
  match parseStudent row with
  | Some student =>
      if negb (truthy (Some (student_name student))) then []
      else
        match loadPhotoAsBase64 sh (photosPath cfg) (photo_filename student) with
        | Some photoBase64 =>
            match renderCertificate (hostEnglish sh) student photoBase64 en with
            | Done _ canvas =>
                painted canvas
                :: (if generateTelugu cfg && truthy (Some (telugu_name student))
                    then match renderCertificate (hostTelugu sh) student photoBase64 te with
                         | Done _ canvasTe => [painted canvasTe]
                         | Raised _ _ => []
                         end
                    else [])
            | Raised _ _ => []
            end
        | None => []
        end
  | None => []
  end.

Fixpoint batchPages (cfg : Settings) (host : nat -> StepHost) (i : nat)
         (rows : list Row) : list PageImage :=
  match rows with
  | [] => []
  | row :: rows' => recordPages cfg (host i) row ++ batchPages cfg host (S i) rows'
  end.

(** The record has a valid row and a photo. *)
Definition rowComposable (cfg : Settings) (sh : StepHost) (row : Row) : bool :=
  negb (invalidRow row) && negb (photoUnresolvable cfg sh row).

(** Nothing in the record stops the run: its row is invalid (skipped), its
    photo is missing and missing photos are skipped, or every composition
    asked for returns. *)
Definition rowHandled (cfg : Settings) (sh : StepHost) (row : Row) : bool :=
  match parseStudent row with
  | Some student =>
      if negb (truthy (Some (student_name student))) then true
      else
        match loadPhotoAsBase64 sh (photosPath cfg) (photo_filename student) with
        | Some photoBase64 =>
            match renderCertificate (hostEnglish sh) student photoBase64 en with
            | Done _ _ =>
                if generateTelugu cfg && truthy (Some (telugu_name student))
                then match renderCertificate (hostTelugu sh) student photoBase64 te with
                     | Done _ _ => true
                     | Raised _ _ => false
                     end
                else true
            | Raised _ _ => false
            end
        | None => skipMissing cfg
        end
  | None => true
  end.

(** The numbers of records of each kind, from loop index [i] on. *)
Fixpoint countRows (f : StepHost -> Row -> bool) (host : nat -> StepHost) (i : nat)
         (rows : list Row) : nat :=
  match rows with
  | [] => 0
  | row :: rows' => (if f (host i) row then 1 else 0) + countRows f host (S i) rows'
  end.

(** ** More sample data *)

Module MoreExamples.
Import Examples.

(** Fifteen characters, which fit the card at 29 px only when every
    character is as wide as the font is high. *)
Definition fifteenLetters : string := "ABCDEFGHIJKLMNO".

Definition murthy : Student :=
  mkStudent "AIK9" "AIK9" fourWords EmptyString "AIK9.jpeg".

(** A row with a Telugu name. *)
Definition teluguRow (id name telugu : string) : Row :=
  <["Telugu 1st Line" := telugu]> (row id name).

(** A record in two languages, a record in one, and a row without any
    column. *)
Definition mixedRows : list Row :=
  [teluguRow "AIK1" "Kavuri Suhitha" "Suhitha"; row "AIK2" "Second Student"; ∅].

(** The first id column holds white space only; a later one holds an id. *)
Definition blankIdRow : Row :=
  <["CRollNumber" := "   "]> (row "AIK1" "Kavuri Suhitha").

(** Rows [first] to [first + size - 1], one language, missing photos
    skipped. *)
Definition rangeSettings (first size : Z) : Settings :=
  mkSettings "assets/photos/" (Some first) (Some size) false true.

(** Every image loads, with the given size. *)
Definition hostWithImages (imageWidth imageHeight : Q) : Host :=
  mkHost plainMetrics asciiUpper
         (fun source => Some (mkImage source imageWidth imageHeight))
         (fun _ => mkQrDom (Some qrSrc) true).

(** Twenty-six wide letters, too wide for the card even at 16 px, followed
    by two short words. *)
Definition longWord : string := "WWWWWWWWWWWWWWWWWWWWWWWWWW".
Definition unbreakable : string := longWord +:+ " AB CD".

(** Every request is answered by a readable file, except for the names in
    [absent]. *)
Definition server (absent : list string) (url : string) : PhotoFiles.Fetched :=
  if existsb (String.eqb url) absent
  then PhotoFiles.Response false PhotoFiles.BlobThrows
  else PhotoFiles.Response true (PhotoFiles.DataUrl ("data:" +:+ url)).

End MoreExamples.

(** * Properties *)

(** ** Strings *)

Lemma append_cons (c : ascii) (s u : string) : String c s +:+ u = String c (s +:+ u).
Proof. reflexivity. Qed.

Lemma append_assoc3 (s u v : string) : (s +:+ u) +:+ v = s +:+ (u +:+ v).
Proof. induction s as [|c s IH]; [reflexivity|]. rewrite !append_cons. by rewrite IH. Qed.

Lemma split_nonempty (s : string) : split s <> [].
Proof.
  destruct s as [|c s]; simpl; [discriminate|].
  destruct (isSpace c); [discriminate|]. destruct (split s); discriminate.
Qed.

Lemma join_cons (w : string) (ws : list string) :
  ws <> [] -> join (w :: ws) = w +:+ " " +:+ join ws.
Proof. destruct ws; [congruence|reflexivity]. Qed.

Lemma isSpace_true (c : ascii) : isSpace c = true -> c = " "%char.
Proof. unfold isSpace. apply Ascii.eqb_eq. Qed.

Lemma join_split (s : string) : join (split s) = s.
Proof.
  induction s as [|c s IH]; [reflexivity|].
  simpl. destruct (isSpace c) eqn:Hc.
  - apply isSpace_true in Hc. subst c.
    rewrite join_cons by apply split_nonempty. by rewrite IH.
  - pose proof (split_nonempty s) as Hne.
    destruct (split s) as [|w ws]; [congruence|].
    destruct ws as [|w' ws].
    + change (join [w]) with w in IH. change (join [String c w]) with (String c w).
      by rewrite IH.
    + rewrite join_cons in IH by discriminate.
      rewrite join_cons by discriminate.
      rewrite append_cons. by rewrite IH.
Qed.

Lemma join_app (g k : list string) :
  g <> [] -> k <> [] -> join (g ++ k) = join g +:+ " " +:+ join k.
Proof.
  induction g as [|w g IH]; [congruence|]. intros _ Hk.
  destruct g as [|w' g].
  - simpl app. by rewrite join_cons.
  - rewrite <- app_comm_cons. rewrite join_cons by discriminate.
    rewrite IH by (discriminate || assumption).
    rewrite (join_cons w) by discriminate.
    by rewrite !append_assoc3.
Qed.

Lemma join_snoc (g : list string) (w : string) :
  g <> [] -> join (g ++ [w]) = spaced (join g) w.
Proof. intros Hg. rewrite join_app by (assumption || discriminate). reflexivity. Qed.

Lemma join_groups (groups : list (list string)) :
  Forall (fun g => g <> []) groups ->
  join (map join groups) = join (concat groups).
Proof.
  induction 1 as [|g groups Hg Hall IH]; [reflexivity|].
  destruct groups as [|g' groups].
  - simpl. by rewrite app_nil_r.
  - cbn [map concat]. rewrite join_cons by discriminate.
    cbn [map] in IH. rewrite IH.
    rewrite join_app; [reflexivity|assumption|].
    inversion Hall; subst. cbn [concat]. destruct g'; [congruence|discriminate].
Qed.

(** ** The shrink loop *)

Section ShrinkFacts.
Variable fits : Z -> bool.
Variables floor step : Z.
Hypothesis step_pos : (0 < step)%Z.

Lemma shrinkLoop_fuel (fuel1 : nat) : forall (fuel2 : nat) (size : Z),
  (Z.to_nat (size - floor) <= fuel1)%nat ->
  (Z.to_nat (size - floor) <= fuel2)%nat ->
  shrinkLoop fuel1 fits floor step size = shrinkLoop fuel2 fits floor step size.
Proof.
  induction fuel1 as [|fuel1 IH]; intros fuel2 size H1 H2.
  - destruct fuel2 as [|fuel2]; [reflexivity|]. simpl.
    replace (floor <? size)%Z with false by lia.
    by rewrite andb_false_r.
  - destruct fuel2 as [|fuel2]; simpl.
    + replace (floor <? size)%Z with false by lia.
      by rewrite andb_false_r.
    + destruct (negb (fits size)); [|reflexivity]. simpl.
      destruct (floor <? size)%Z eqn:Hlt; [|reflexivity].
      apply IH; lia.
Qed.

(** The loop equation of [while]. *)
Lemma shrinkWhile_unfold (size : Z) :
  shrinkWhile fits floor step size
  = if negb (fits size) && (floor <? size)%Z
    then shrinkWhile fits floor step (size - step)
    else size.
Proof.
  unfold shrinkWhile.
  destruct (Z.to_nat (size - floor)) as [|k] eqn:Hk.
  - simpl. replace (floor <? size)%Z with false by lia.
    by rewrite andb_false_r.
  - simpl. destruct (negb (fits size) && (floor <? size)%Z); [|reflexivity].
    apply shrinkLoop_fuel; lia.
Qed.

Lemma shrinkWhile_ind (P : Z -> Z -> Prop) :
  (forall size, fits size = true \/ (size <= floor)%Z -> P size size) ->
  (forall size r, fits size = false -> (floor < size)%Z ->
                  P (size - step)%Z r -> P size r) ->
  forall size, P size (shrinkWhile fits floor step size).
Proof.
  intros Hstop Hstep size.
  remember (Z.to_nat (size - floor)) as n eqn:Hn.
  revert size Hn. induction n as [n IH] using lt_wf_ind. intros size Hn.
  rewrite shrinkWhile_unfold.
  destruct (fits size) eqn:Hf; simpl.
  - apply Hstop. by left.
  - destruct (floor <? size)%Z eqn:Hlt.
    + apply Hstep; [done|lia|]. apply (IH (Z.to_nat (size - step - floor))); lia.
    + apply Hstop. right. lia.
Qed.

(** On exit the text fits, or the floor has been reached. *)
Lemma shrinkWhile_exit (size : Z) :
  fits (shrinkWhile fits floor step size) = true
  \/ (shrinkWhile fits floor step size <= floor)%Z.
Proof.
  apply (shrinkWhile_ind (fun _ r => fits r = true \/ (r <= floor)%Z)); auto.
Qed.

(** The loop stops at the first size of its ladder that fits. *)
Lemma shrinkWhile_finds (k : nat) : forall size : Z,
  fits (size - step * Z.of_nat k)%Z = true ->
  (floor <= size - step * Z.of_nat k)%Z ->
  fits (shrinkWhile fits floor step size) = true.
Proof.
  induction k as [|k IH]; intros size Hfit Hfloor; rewrite shrinkWhile_unfold.
  - replace (size - step * Z.of_nat 0)%Z with size in Hfit by lia.
    by rewrite Hfit.
  - destruct (fits size) eqn:Hf; [done|]. simpl.
    replace (floor <? size)%Z with true by nia.
    apply IH.
    + replace (size - step - step * Z.of_nat k)%Z
        with (size - step * Z.of_nat (S k))%Z by lia. done.
    + nia.
Qed.

(** When the ladder passes through the floor, the loop never goes below. *)
Lemma shrinkWhile_floor (q : nat) : forall size : Z,
  size = (floor + step * Z.of_nat q)%Z ->
  (floor <= shrinkWhile fits floor step size)%Z.
Proof.
  induction q as [|q IH]; intros size Hsize; rewrite shrinkWhile_unfold.
  - replace (floor <? size)%Z with false by lia. rewrite andb_false_r. lia.
  - destruct (negb (fits size) && (floor <? size)%Z); [|nia].
    apply IH. lia.
Qed.

End ShrinkFacts.

(** ** The wrap loop *)

Section WrapFacts.
Variable fits : string -> bool.

Lemma wrapLoop_groups (rest : list string) : forall (gs : list (list string)) (g : list string),
  g <> [] -> Forall (fun g => g <> []) gs ->
  exists (gs' : list (list string)) (g' : list string),
    g' <> [] /\ Forall (fun g => g <> []) gs'
    /\ wrapLoop fits rest (map join gs) (join g) = (map join gs', join g')
    /\ concat (gs' ++ [g']) = concat (gs ++ [g]) ++ rest
    /\ (length gs <= length gs')%nat
    /\ (gs' = [] -> rest <> [] -> fits (join g') = true).
Proof.
  induction rest as [|word rest IH]; intros gs g Hg Hgs.
  - exists gs, g. rewrite app_nil_r. repeat split; auto; congruence.
  - cbn [wrapLoop]. rewrite <- join_snoc by assumption.
    destruct (fits (join (g ++ [word]))) eqn:Hfit.
    + destruct (IH gs (g ++ [word])) as (gs' & g' & Hg' & Hgs' & Heq & Hcat & Hlen & Hone);
        [by destruct g|assumption|].
      exists gs', g'. repeat split; auto.
      * rewrite Hcat. rewrite !concat_app. cbn [concat]. rewrite !app_nil_r.
        by rewrite <- !app_assoc.
      * intros Hnil _. destruct rest as [|w rest]; [|apply Hone; [done|discriminate]].
        cbn [wrapLoop] in Heq. injection Heq as Hmap Hjoin.
        by rewrite <- Hjoin.
    + destruct (IH (gs ++ [g]) [word]) as (gs' & g' & Hg' & Hgs' & Heq & Hcat & Hlen & Hone);
        [discriminate|apply Forall_app; split; [assumption|by constructor]|].
      exists gs', g'. rewrite map_app in Heq. repeat split; auto.
      * rewrite Hcat. rewrite !concat_app. cbn [concat]. rewrite !app_nil_r.
        by rewrite <- !app_assoc.
      * rewrite length_app in Hlen. simpl in Hlen. lia.
      * intros Hnil. subst gs'. rewrite length_app in Hlen. simpl in Hlen. lia.
Qed.

(** The wrap cuts the words, in order, into non-empty groups. *)
Lemma greedyWrap_partition (words : list string) :
  words <> [] -> partitionsInOrder words (greedyWrap fits words).
Proof.
  intros Hne. destruct words as [|w ws]; [congruence|].
  unfold greedyWrap. cbn [hd tl].
  destruct (wrapLoop_groups ws [] [w]) as (gs' & g' & Hg' & Hgs' & Heq & Hcat & _ & _);
    [discriminate|constructor|].
  change (wrapLoop fits ws [] w) with (wrapLoop fits ws (map join []) (join [w])).
  rewrite Heq. exists (gs' ++ [g']). split; [|split].
  - rewrite Hcat. reflexivity.
  - apply Forall_app. split; [assumption|by constructor].
  - by rewrite map_app.
Qed.

Lemma greedyWrap_join (words : list string) :
  words <> [] -> join (greedyWrap fits words) = join words.
Proof.
  intros Hne. destruct (greedyWrap_partition words Hne) as (groups & Hcat & Hall & Hlines).
  rewrite Hlines, join_groups by assumption. by rewrite Hcat.
Qed.

Lemma greedyWrap_at_least_one (words : list string) :
  (1 <= length (greedyWrap fits words))%nat.
Proof.
  unfold greedyWrap. destruct (wrapLoop fits (tl words) [] (hd EmptyString words)).
  rewrite length_app. simpl. lia.
Qed.

(** One line only: every test of the loop succeeded, the last one on the
    whole text. *)
Lemma greedyWrap_one_line (words : list string) :
  (2 <= length words)%nat ->
  length (greedyWrap fits words) = 1%nat ->
  fits (join words) = true.
Proof.
  intros Hlen Hone. destruct words as [|w ws]; [simpl in Hlen; lia|].
  unfold greedyWrap in Hone. cbn [hd tl] in Hone.
  destruct (wrapLoop_groups ws [] [w]) as (gs' & g' & Hg' & Hgs' & Heq & Hcat & _ & Hfit);
    [discriminate|constructor|].
  change (wrapLoop fits ws [] w) with (wrapLoop fits ws (map join []) (join [w])) in Hone.
  rewrite Heq in Hone. rewrite length_app, length_map in Hone. simpl in Hone.
  destruct gs' as [|? ?]; [|simpl in Hone; lia].
  simpl in Hcat. rewrite app_nil_r in Hcat. subst g'.
  apply Hfit; [reflexivity|]. destruct ws; [simpl in Hlen; lia|discriminate].
Qed.

(** A line of several words passed the test of the loop. *)
Lemma wrapLoop_lines (words rest : list string) : forall (lines : list string) (current : string),
  (forall w, In w rest -> In w words) ->
  (forall l, In l (lines ++ [current]) -> In l words \/ fits l = true) ->
  forall l, In l (let '(lines', last) := wrapLoop fits rest lines current in lines' ++ [last]) ->
            In l words \/ fits l = true.
Proof.
  induction rest as [|word rest IH]; intros lines current Hrest Hinv l; [apply Hinv|].
  cbn [wrapLoop]. destruct (fits (spaced current word)) eqn:Hfit.
  - apply IH.
    + intros w Hw. apply Hrest. by right.
    + intros l' Hl'. apply in_app_or in Hl'. destruct Hl' as [Hl'|[<-|[]]].
      * apply Hinv. apply in_or_app. by left.
      * by right.
  - apply IH.
    + intros w Hw. apply Hrest. by right.
    + intros l' Hl'. apply in_app_or in Hl'. destruct Hl' as [Hl'|[<-|[]]].
      * by apply Hinv.
      * left. apply Hrest. by left.
Qed.

Lemma greedyWrap_lines (words : list string) (l : string) :
  words <> [] -> In l (greedyWrap fits words) -> In l words \/ fits l = true.
Proof.
  intros Hne. destruct words as [|w ws]; [congruence|].
  unfold greedyWrap. cbn [hd tl]. apply wrapLoop_lines.
  - intros w' Hw'. by right.
  - intros l' [<-|[]]. left. by left.
Qed.

End WrapFacts.

(** ** The fitting engine *)

Lemma split_two (s : string) : hasSpace s = true -> (2 <= length (split s))%nat.
Proof.
  induction s as [|c s IH]; [discriminate|]. simpl.
  pose proof (split_nonempty s) as Hne.
  destruct (isSpace c); simpl.
  - intros _. destruct (split s); [congruence|simpl; lia].
  - intros Hs. specialize (IH Hs). destruct (split s); [congruence|exact IH].
Qed.

Lemma fits_measured (b : Block) (m : Metrics) (text : string) (size : Z) :
  Qle_bool (measured b m text size) (maxWidth b) = true
  <-> (measured b m text size <= maxWidth b)%Q.
Proof. apply Qle_bool_iff. Qed.

Lemma not_fits_measured (b : Block) (m : Metrics) (text : string) (size : Z) :
  Qle_bool (measured b m text size) (maxWidth b) = false
  <-> ~ (measured b m text size <= maxWidth b)%Q.
Proof.
  rewrite <- fits_measured. destruct (Qle_bool _ _); split; congruence.
Qed.

(** The multi-line path of a block, written once for both blocks. *)
Lemma wrappedLines_eq (b : Block) (m : Metrics) (name : string) :
  wrappedLines b m name
  = greedyWrap (fun testLine => Qle_bool (measured b m testLine (wrapSize b name)) (maxWidth b))
               (split name).
Proof. by destruct b. Qed.

Lemma fit_multiLine (b : Block) (m : Metrics) (name : string) (size lh : Z)
      (lines : list FitLine) :
  fit b m name = Ok (MultiLine size lh lines) ->
  size = wrapSize b name
  /\ lines = map (fun line =>
                    mkFitLine line
                      (shrinkWhile (fun s => Qle_bool (measured b m line s) (maxWidth b))
                                   (minLineSize b) (stepSize b) (wrapSize b name)))
                 (wrappedLines b m name).
Proof.
  destruct b; simpl.
  - unfold CertName.layout.
    destruct (negb (CertName.forceMultiLineName name)).
    + destruct (CertName.nameFits m name _); discriminate.
    + unfold CertName.multiLine. intros [= <- <- <-]. by split.
  - unfold CardName.layout.
    destruct (negb (CardName.forceMultiLine name) && _); [discriminate|].
    unfold CardName.multiLine. intros [= <- <- <-]. by split.
Qed.

Lemma fit_forced (b : Block) (m : Metrics) (name : string) :
  (multilineThreshold b < String.length name)%nat ->
  exists lh : Z,
    fit b m name
    = Ok (MultiLine (wrapSize b name) lh
            (map (fun line =>
                    mkFitLine line
                      (shrinkWhile (fun s => Qle_bool (measured b m line s) (maxWidth b))
                                   (minLineSize b) (stepSize b) (wrapSize b name)))
                 (wrappedLines b m name))).
Proof.
  intros Hlen. destruct b; simpl in *.
  - exists (CertName.lineHeight name). unfold CertName.layout, CertName.forceMultiLineName.
    replace (19 <? String.length name)%nat with true by (symmetry; apply Nat.ltb_lt; lia).
    reflexivity.
  - exists (CardName.lineHeight name). unfold CardName.layout, CardName.forceMultiLine.
    replace (15 <? String.length name)%nat with true by (symmetry; apply Nat.ltb_lt; lia).
    reflexivity.
Qed.

Lemma wrapSize_ladder (b : Block) (name : string) :
  exists q : nat, wrapSize b name = (minLineSize b + stepSize b * Z.of_nat q)%Z.
Proof.
  destruct b; simpl.
  - unfold CertName.multiLineFontSize. destruct (_ <? _)%nat; [by exists 8%nat|by exists 14%nat].
  - unfold CardName.multiLineFontSize. destruct (_ <? _)%nat; [by exists 5%nat|by exists 7%nat].
Qed.

Lemma stepSize_pos (b : Block) : (0 < stepSize b)%Z.
Proof. by destruct b. Qed.

(** C5 as amended.  A name longer than the threshold of its block (19, 15)
    skips the single-line attempt: it is word-wrapped at the reduced size
    and yields at least one line; it yields at least two lines whenever it
    contains a space and is wider than the block at that size. *)
Theorem C5_forced_wrap_line_count (b : Block) (m : Metrics) (name : string) :
  (multilineThreshold b < String.length name)%nat ->
  exists (lh : Z) (lines : list FitLine),
    fit b m name = Ok (MultiLine (wrapSize b name) lh lines)
    /\ map lineText lines = wrappedLines b m name
    /\ (1 <= length lines)%nat
    /\ (hasSpace name = true ->
        ~ (measured b m name (wrapSize b name) <= maxWidth b)%Q ->
        (2 <= length lines)%nat).
Proof.
  intros Hlen. destruct (fit_forced b m name Hlen) as [lh Hfit].
  eexists lh, _. split; [exact Hfit|]. rewrite map_map. cbn [lineText].
  rewrite map_id, length_map. split; [reflexivity|].
  rewrite wrappedLines_eq. split; [apply greedyWrap_at_least_one|].
  intros Hspace Hwide.
  pose proof (greedyWrap_at_least_one
                (fun testLine => Qle_bool (measured b m testLine (wrapSize b name)) (maxWidth b))
                (split name)) as Hone.
  destruct (decide (length (greedyWrap
                (fun testLine => Qle_bool (measured b m testLine (wrapSize b name)) (maxWidth b))
                (split name)) = 1%nat)) as [Heq|Hne]; [|lia].
  exfalso. apply Hwide. apply fits_measured.
  apply greedyWrap_one_line in Heq; [|by apply split_two].
  by rewrite join_split in Heq.
Qed.

(** A piece of [split] has no space in it. *)
Lemma split_words_no_space (s : string) : forall w : string,
  In w (split s) -> hasSpace w = false.
Proof.
  induction s as [|c s IH]; intros w; cbn [split].
  - intros [<-|[]]. reflexivity.
  - destruct (isSpace c) eqn:Hc.
    + intros [<-|Hin]; [reflexivity|by apply IH].
    + destruct (split s) as [|w0 ws].
      * intros [<-|[]]. cbn [hasSpace]. by rewrite Hc.
      * intros [<-|Hin].
        -- cbn [hasSpace]. rewrite Hc. apply IH. by left.
        -- apply IH. by right.
Qed.

(** C6.  In every multi-line fit, each line is at most as wide as the
    block at the size it is drawn at, unless the line is a single word of
    the name (it has no space in it), drawn at the floor of the per-line
    shrink (80, 16), that is wider than the block even at that floor. *)
Theorem C6_lines_within_width (b : Block) (m : Metrics) (name : string) (size lh : Z)
        (lines : list FitLine) (line : FitLine) :
  fit b m name = Ok (MultiLine size lh lines) ->
  In line lines ->
  (measured b m (lineText line) (lineSize line) <= maxWidth b)%Q
  \/ (hasSpace (lineText line) = false
      /\ In (lineText line) (split name)
      /\ lineSize line = minLineSize b
      /\ ~ (measured b m (lineText line) (minLineSize b) <= maxWidth b)%Q).
Proof.
  intros Hfit Hin. apply fit_multiLine in Hfit as [-> ->].
  apply in_map_iff in Hin as (text & <- & Htext). cbn [lineText lineSize].
  set (fitsAt := fun s => Qle_bool (measured b m text s) (maxWidth b)).
  rewrite wrappedLines_eq in Htext.
  apply greedyWrap_lines in Htext; [|apply split_nonempty].
  destruct Htext as [Hword|Hfits].
  - destruct (shrinkWhile_exit fitsAt (minLineSize b) (stepSize b) (stepSize_pos b)
                (wrapSize b name)) as [Hok|Hfloor].
    + left. by apply fits_measured.
    + destruct (wrapSize_ladder b name) as [q Hq].
      pose proof (shrinkWhile_floor fitsAt (minLineSize b) (stepSize b) (stepSize_pos b)
                    q (wrapSize b name) Hq) as Hge.
      assert (shrinkWhile fitsAt (minLineSize b) (stepSize b) (wrapSize b name)
              = minLineSize b) as -> by lia.
      destruct (fitsAt (minLineSize b)) eqn:Hmin.
      * left. by apply fits_measured.
      * right. split; [by apply (split_words_no_space name)|].
        repeat split; [assumption|]. by apply not_fits_measured.
  - left. rewrite (shrinkWhile_unfold fitsAt _ _ (stepSize_pos b)).
    unfold fitsAt at 1. rewrite Hfits. simpl. by apply fits_measured.
Qed.

Lemma monotone_measured (b : Block) (m : Metrics) (text : string) (small large : Z) :
  metrics_monotone m -> (small <= large)%Z ->
  (measured b m text small <= measured b m text large)%Q.
Proof. intros Hmono Hle. destruct b; apply Hmono; assumption. Qed.

(** The single-line attempt of a block, written once for both blocks. *)
Lemma fit_short (b : Block) (m : Metrics) (name : string) :
  (String.length name <= multilineThreshold b)%nat ->
  let size := shrinkWhile (fun s => Qle_bool (measured b m name s) (maxWidth b))
                          (minFontSize b) (stepSize b) (startSize b) in
  fit b m name
  = if Qle_bool (measured b m name size) (maxWidth b)
    then Ok (SingleLine name size)
    else match b with
         | NameBlock => Threw (TypeError "Assignment to constant variable.")
         | CardBlock => Ok (CardName.multiLine m name)
         end.
Proof.
  intros Hlen. destruct b; simpl in *.
  - unfold CertName.layout, CertName.forceMultiLineName.
    replace (19 <? String.length name)%nat with false by (symmetry; apply Nat.ltb_ge; lia).
    reflexivity.
  - unfold CardName.layout, CardName.bestSingleLineSize, CardName.forceMultiLine.
    replace (15 <? String.length name)%nat with false by (symmetry; apply Nat.ltb_ge; lia).
    simpl. unfold CardName.fits. by destruct (Qle_bool _ _).
Qed.

(** C7.  A name within the threshold of its block (19, 15) that fits the
    width at a size the shrink loop visits at or above the floor, or, for
    metrics that are monotone in the font size, at any size at or above the
    floor (120, 30), is laid out on exactly one line, at a size it fits. *)
Theorem C7_short_name_one_line (b : Block) (m : Metrics) (name : string) :
  (String.length name <= multilineThreshold b)%nat ->
  (exists size : Z, triedSize b size /\ (measured b m name size <= maxWidth b)%Q)
  \/ (metrics_monotone m
      /\ exists size : Z, (minFontSize b <= size)%Z
                          /\ (measured b m name size <= maxWidth b)%Q) ->
  exists size : Z,
    fit b m name = Ok (SingleLine name size)
    /\ (measured b m name size <= maxWidth b)%Q
    /\ lineCount (fit b m name) = Some 1%nat.
Proof.
  intros Hlen Hfits. rewrite (fit_short b m name Hlen). cbv zeta.
  set (fitsAt := fun s => Qle_bool (measured b m name s) (maxWidth b)).
  set (size := shrinkWhile fitsAt (minFontSize b) (stepSize b) (startSize b)).
  assert (fitsAt size = true) as Hsize.
  { destruct Hfits as [(tried & (k & -> & Hfloor) & Hle)|(Hmono & wide & Hfloor & Hle)].
    - apply (shrinkWhile_finds fitsAt _ _ (stepSize_pos b) k); [|assumption].
      by apply fits_measured.
    - destruct (shrinkWhile_exit fitsAt (minFontSize b) (stepSize b) (stepSize_pos b)
                  (startSize b)) as [Hok|Hlow]; [assumption|].
      apply fits_measured. eapply Qle_trans; [|exact Hle].
      apply monotone_measured; [assumption|]. fold size in Hlow. lia. }
  unfold fitsAt in Hsize. rewrite Hsize. exists size.
  repeat split. by apply fits_measured.
Qed.

(** C10.  The greedy wrap cuts the words of a name, in order, into
    non-empty groups, one per line; joining its lines with single spaces
    gives back the name, for every name (also with repeated spaces), and
    so does joining the lines of every multi-line fit. *)
Theorem C10_wrap_keeps_every_word (b : Block) (m : Metrics) (name : string) :
  partitionsInOrder (split name) (wrappedLines b m name)
  /\ join (wrappedLines b m name) = name
  /\ (forall (size lh : Z) (lines : list FitLine),
        fit b m name = Ok (MultiLine size lh lines) ->
        join (map lineText lines) = name).
Proof.
  rewrite wrappedLines_eq. split; [|split].
  - apply greedyWrap_partition, split_nonempty.
  - rewrite greedyWrap_join by apply split_nonempty. apply join_split.
  - intros size lh lines Hfit. apply fit_multiLine in Hfit as [_ ->].
    rewrite map_map. cbn [lineText]. rewrite map_id, wrappedLines_eq.
    rewrite greedyWrap_join by apply split_nonempty. apply join_split.
Qed.

(** The fallback of the certificate name block raises; the one of the card
    block wraps. *)
Lemma fallback_by_block (b : Block) (m : Metrics) (name : string) :
  (String.length name <= multilineThreshold b)%nat ->
  ~ (measured b m name
       (shrinkWhile (fun s => Qle_bool (measured b m name s) (maxWidth b))
                    (minFontSize b) (stepSize b) (startSize b)) <= maxWidth b)%Q ->
  fit b m name
  = match b with
    | NameBlock => Threw (TypeError "Assignment to constant variable.")
    | CardBlock => Ok (CardName.multiLine m name)
    end.
Proof.
  intros Hlen Hwide. rewrite (fit_short b m name Hlen). cbv zeta.
  apply not_fits_measured in Hwide. by rewrite Hwide.
Qed.


(** ** The composer *)

Create HintDb draw.

Lemma completes_ret {A} (a : A) : completes (mret a : Draw A).
Proof. intros c. by exists a, c. Qed.

Lemma completes_paint (op : DrawOp) : completes (paint op).
Proof. intros c. by eexists _, _. Qed.

Lemma completes_consoleLog (line : string) : completes (consoleLog line).
Proof. intros c. by eexists _, _. Qed.

Lemma completes_bind {A B} (d : Draw A) (k : A -> Draw B) :
  completes d -> (forall a, completes (k a)) -> completes (d ≫= k).
Proof.
  intros Hd Hk c. destruct (Hd c) as (a & c' & Hrun).
  destruct (Hk a c') as (b & c'' & Hrun'). exists b, c''.
  unfold mbind, draw_bind. by rewrite Hrun.
Qed.

Lemma completes_tryCatch {A} (body : Draw A) (handler : JsError -> Draw A) :
  (forall e, completes (handler e)) -> completes (tryCatch body handler).
Proof.
  intros Hh c. unfold tryCatch. destruct (body c) as [a c'|e c'].
  - by exists a, c'.
  - apply Hh.
Qed.

Lemma raises_after {A B} (e : JsError) (d : Draw A) (k : A -> Draw B) :
  completes d -> (forall a, raises e (k a)) -> raises e (d ≫= k).
Proof.
  intros Hd Hk c. destruct (Hd c) as (a & c' & Hrun).
  destruct (Hk a c') as (c'' & Hrun'). exists c''.
  unfold mbind, draw_bind. by rewrite Hrun.
Qed.

#[local] Hint Resolve completes_ret completes_paint completes_consoleLog
  completes_bind completes_tryCatch : draw.

(** One stage of [compose] that completes, in a proof that the whole
    completes ([stage]) or that a later stage raises ([early]). *)
Ltac stage lemma := apply completes_bind; [apply lemma | intros _].
Ltac early lemma := apply raises_after; [apply lemma | intros _].

Section ComposerFacts.
Variable h : Host.

Lemma completes_drawText text x y size font align weight :
  completes (drawText h text x y size font align weight).
Proof. unfold drawText. auto with draw. Qed.
Hint Resolve completes_drawText : draw.

Lemma completes_drawFrame : completes drawFrame.
Proof. unfold drawFrame. auto with draw. Qed.

Lemma completes_drawStudentId user lang : completes (drawStudentId h user lang).
Proof. unfold drawStudentId. auto 10 with draw. Qed.

Lemma completes_drawTitle lang : completes (drawTitle h lang).
Proof. unfold drawTitle. auto 10 with draw. Qed.

Lemma completes_drawNameLines lines lh : forall y, completes (drawNameLines h lines lh y).
Proof. induction lines as [|line lines IH]; intros y; simpl; auto 10 with draw. Qed.

Lemma completes_drawBody lang : completes (drawBody lang).
Proof. destruct lang; unfold drawBody; auto 10 with draw. Qed.

Lemma completes_drawDate lang : completes (drawDate h lang).
Proof. unfold drawDate. auto 10 with draw. Qed.

(** Whether the signature image loads or not. *)
Lemma completes_drawSignatureImage x y : completes (drawSignatureImage h x y).
Proof. unfold drawSignatureImage. auto with draw. Qed.
Hint Resolve completes_drawSignatureImage : draw.

Lemma completes_drawSignatureBlock lang : completes (drawSignatureBlock h lang).
Proof. unfold drawSignatureBlock. auto 10 with draw. Qed.

Lemma completes_drawCardBody : completes drawCardBody.
Proof. unfold drawCardBody. auto 10 with draw. Qed.

(** Whether the photo loads or not. *)
Lemma completes_drawPhoto photo : completes (drawPhoto h photo).
Proof. unfold drawPhoto. auto with draw. Qed.

Lemma completes_drawCardLines lines lh : forall y, completes (drawCardLines lines lh y).
Proof. induction lines as [|line lines IH]; intros y; simpl; auto with draw. Qed.

Lemma completes_drawCardName user : completes (drawCardName h user).
Proof.
  unfold drawCardName. destruct (CardName.layout _ _); auto using completes_drawCardLines with draw.
Qed.

Lemma completes_drawRecipientName user layout :
  CertName.layout (metrics h) (toUpperCase h (student_name user)) = Ok layout ->
  completes (drawRecipientName h user).
Proof.
  intros Hlayout. unfold drawRecipientName. rewrite Hlayout. simpl.
  apply completes_bind; [apply completes_ret|]. intros l.
  destruct l; auto using completes_drawNameLines with draw.
Qed.

Lemma raises_drawRecipientName user e :
  CertName.layout (metrics h) (toUpperCase h (student_name user)) = Threw e ->
  raises e (drawRecipientName h user).
Proof.
  intros Hlayout c. unfold drawRecipientName. rewrite Hlayout. by exists c.
Qed.

Lemma completes_drawQr user : ~ qrImageRejected h user -> completes (drawQr h user).
Proof.
  intros Hok. unfold drawQr. apply completes_bind; [auto with draw|]. intros _.
  destruct (qrImgSrc _) as [[|c s]|] eqn:Hsrc;
    try (destruct (qrHasCanvas _); auto with draw).
  unfold awaitImage. destruct (loadImage h (String c s)) eqn:Hload.
  - auto with draw.
  - exfalso. apply Hok. by exists c, s.
Qed.

Lemma raises_drawQr user : qrImageRejected h user -> raises LoadError (drawQr h user).
Proof.
  intros (c & s & Hsrc & Hload). unfold drawQr.
  apply raises_after; [auto with draw|]. intros _.
  rewrite Hsrc. unfold awaitImage. rewrite Hload. intros c0. by exists c0.
Qed.

(** The composition completes whenever the name block lays out and
    the code image is not rejected: the loads of the signature and of the
    photo play no part. *)
Lemma compose_completes user photo lang layout :
  CertName.layout (metrics h) (toUpperCase h (student_name user)) = Ok layout ->
  ~ qrImageRejected h user ->
  exists c : Canvas, renderCertificate h user photo lang = Done tt c.
Proof.
  intros Hlayout Hqr.
  assert (completes (compose h user photo lang)) as Hc.
  { unfold compose.
    stage completes_drawFrame. stage completes_drawStudentId.
    stage completes_drawTitle. stage (completes_drawRecipientName user layout Hlayout).
    stage completes_drawBody. stage completes_drawDate.
    stage completes_drawSignatureBlock. stage completes_drawCardBody.
    stage completes_drawPhoto. stage completes_drawCardName.
    by apply completes_drawQr. }
  destruct (Hc blank) as ([] & c & Hrun). by exists c.
Qed.

(** A rejected load of the code image leaves [renderCertificate]. *)
Lemma compose_raises_on_qr user photo lang layout :
  CertName.layout (metrics h) (toUpperCase h (student_name user)) = Ok layout ->
  qrImageRejected h user ->
  exists c : Canvas, renderCertificate h user photo lang = Raised LoadError c.
Proof.
  intros Hlayout Hqr.
  assert (raises LoadError (compose h user photo lang)) as Hr.
  { unfold compose.
    early completes_drawFrame. early completes_drawStudentId.
    early completes_drawTitle. early (completes_drawRecipientName user layout Hlayout).
    early completes_drawBody. early completes_drawDate.
    early completes_drawSignatureBlock. early completes_drawCardBody.
    early completes_drawPhoto. early completes_drawCardName.
    by apply raises_drawQr. }
  exact (Hr blank).
Qed.

End ComposerFacts.


(** ** The bulk exporter *)

Create HintDb run.

Section FlagFollowsLog.

Lemma follows_initial g : flagFollowsLog (initialRun g).
Proof. intros []. Qed.

Lemma follows_log message type st :
  message <> MsgCancellationRequested ->
  flagFollowsLog st -> flagFollowsLog (log message type st).
Proof.
  intros Hm Hst Hin. apply Hst. unfold cancellationSignalled in *. simpl in Hin.
  apply in_app_or in Hin as [Hin|[[= ? ?]|[]]]; [assumption|congruence].
Qed.

Lemma follows_stepDone st : flagFollowsLog st -> flagFollowsLog (stepDone st).
Proof. exact id. Qed.

Lemma follows_skip entry st : flagFollowsLog st -> flagFollowsLog (skip entry st).
Proof. exact id. Qed.

Lemma follows_succeeded roll st : flagFollowsLog st -> flagFollowsLog (succeeded roll st).
Proof. exact id. Qed.

Lemma follows_addFirst img st :
  flagFollowsLog st -> flagFollowsLog (addFirstLanguagePage img st).
Proof. exact id. Qed.

Lemma follows_addSecond img st :
  flagFollowsLog st -> flagFollowsLog (addSecondLanguagePage img st).
Proof. exact id. Qed.

Lemma follows_clicks clicked st : flagFollowsLog st -> flagFollowsLog (clicks clicked st).
Proof.
  intros Hst. unfold clicks, cancelGeneration.
  destruct clicked; [|assumption]. destruct (isGenerating (globals st)); [|assumption].
  intros _. reflexivity.
Qed.

Lemma follows_finally st : flagFollowsLog st -> flagFollowsLog (finally st).
Proof. exact id. Qed.

End FlagFollowsLog.

#[local] Hint Resolve follows_initial follows_log follows_stepDone follows_skip
  follows_succeeded follows_addFirst follows_addSecond follows_clicks follows_finally : run.
#[local] Hint Extern 1 (_ <> MsgCancellationRequested) => discriminate : run.

Lemma flagFollowsLog_processRow cfg sh i row st exit st' :
  flagFollowsLog st ->
  processRow cfg sh i row st = (exit, st') ->
  flagFollowsLog st'.
Proof.
  unfold processRow, secondLanguage. intros Hinv Hrun.
  repeat case_match; injection Hrun as <- <-; auto 20 with run.
Qed.

Lemma flagFollowsLog_processRows cfg host rows : forall i st exit st',
  flagFollowsLog st ->
  processRows cfg host i rows st = (exit, st') ->
  flagFollowsLog st'.
Proof.
  induction rows as [|row rows IH]; intros i st exit st' Hinv Hrun.
  - by injection Hrun as <- <-.
  - cbn [processRows] in Hrun.
    destruct (processRow cfg (host i) i row st) as [step st1] eqn:Hstep.
    apply flagFollowsLog_processRow in Hstep; [|assumption].
    destruct step; [by eapply IH|by injection Hrun as <- <-..].
Qed.

(** The closing block of the run keeps the handler's message out unless it
    was there. *)
Lemma conclude_signalled cfg last st :
  cancellationSignalled (final (conclude cfg last st)) -> cancellationSignalled st.
Proof.
  assert (forall message type st0,
            message <> MsgCancellationRequested ->
            cancellationSignalled (log message type st0) -> cancellationSignalled st0)
    as Hlog.
  { intros message type st0 Hm Hin. unfold cancellationSignalled in *. simpl in Hin.
    apply in_app_or in Hin as [Hin|[[= ? ?]|[]]]; [assumption|congruence]. }
  unfold conclude. destruct (negb _ && _).
  - cbn [final finally setGlobals]. intros Hin.
    apply Hlog in Hin; [|discriminate].
    destruct (0 <? skipCount _)%nat; [apply Hlog in Hin; [|discriminate]|];
      apply Hlog in Hin; try discriminate; apply Hlog in Hin; try discriminate;
      exact Hin.
  - destruct (successCount st =? 0)%nat; cbn [final finally setGlobals]; intros Hin.
    + apply Hlog in Hin; [exact Hin|discriminate].
    + exact Hin.
Qed.

Lemma conclude_cancelled cfg last st :
  cancelRequested (globals st) = true ->
  producedDocument (conclude cfg last st) = None
  /\ outcome (conclude cfg last st) = Cancelled.
Proof.
  intros Hflag. unfold conclude. rewrite Hflag. simpl. by destruct (_ =? _)%nat.
Qed.

(** C3.  Whenever the Cancel handler ran during a run, whatever the
    number of records composed and of pages produced by then, the run saves
    no document and does not end as completed. *)
Theorem C3_cancellation_discards_output cfg host g g' report :
  generateBatchPDF cfg host g = (g', Some report) ->
  cancellationSignalled (final report) ->
  producedDocument report = None /\ outcome report <> Completed.
Proof.
  unfold generateBatchPDF. destruct (isGenerating g); [discriminate|].
  intros [= _ <-].
  set (st0 := clicks (clickedDuringLoad host)
                (log MsgLoadingCsv LogInfo (initialRun (mkGlobals false true)))).
  assert (flagFollowsLog st0) as H0 by (unfold st0; auto with run).
  destruct (loadCSVData host) as [csvData|e]; [|by split].
  destruct (length (batchData cfg csvData) =? 0)%nat; [by split|].
  destruct (processRows _ _ _ _ _) as [exit st'] eqn:Hloop.
  apply flagFollowsLog_processRows in Hloop; [|auto 10 with run].
  destruct exit; [| |by split]; intros Hasked;
    apply conclude_signalled, Hloop in Hasked;
    destruct (conclude_cancelled cfg (endIndex cfg csvData) st' Hasked) as [-> ->];
    by split.
Qed.

(** ** One run in flight *)

Lemma caught_idle e st : isGenerating (globals (final (caught e st))) = false.
Proof. reflexivity. Qed.

Lemma conclude_idle cfg last st :
  isGenerating (globals (final (conclude cfg last st))) = false.
Proof. unfold conclude. by repeat case_match. Qed.

Lemma clicks_generating clicked st :
  isGenerating (globals (clicks clicked st)) = isGenerating (globals st).
Proof.
  unfold clicks, cancelGeneration. destruct clicked; [|reflexivity].
  by destruct (isGenerating (globals st)) eqn:Hg.
Qed.

Lemma processRow_generating cfg sh i row st exit st' :
  processRow cfg sh i row st = (exit, st') ->
  isGenerating (globals st') = isGenerating (globals st).
Proof.
  unfold processRow, secondLanguage. intros Hrun.
  repeat case_match; injection Hrun as <- <-; simpl;
    rewrite ?clicks_generating; simpl; rewrite ?clicks_generating; reflexivity.
Qed.

Lemma processRows_generating cfg host rows : forall i st exit st',
  processRows cfg host i rows st = (exit, st') ->
  isGenerating (globals st') = isGenerating (globals st).
Proof.
  induction rows as [|row rows IH]; intros i st exit st' Hrun.
  - by injection Hrun as <- <-.
  - cbn [processRows] in Hrun.
    destruct (processRow cfg (host i) i row st) as [step st1] eqn:Hstep.
    apply processRow_generating in Hstep. rewrite <- Hstep.
    destruct step; [by eapply IH|by injection Hrun as <- <-..].
Qed.

Lemma reachable_inFlight p :
  reachable p -> inFlight p = if isGenerating (flags p) then 1%nat else 0%nat.
Proof.
  induction 1 as [|p q Hp IH Hstep]; [reflexivity|].
  inversion Hstep as [p' Hgen|p' Hgen|p'|p' Hpos]; subst; simpl.
  - exact IH.
  - rewrite Hgen in IH. by rewrite IH.
  - rewrite IH. destruct (isGenerating (flags p)) eqn:Hg; simpl; by rewrite ?Hg.
  - rewrite IH in *. destruct (isGenerating (flags p)); [reflexivity|lia].
Qed.


(** ** Pages of a batch *)

Lemma pdfPages_placeImages_later images : forall doc,
  pdfPages (placeImages false doc images)
  = pdfPages doc ++ map (fun page => [page]) images.
Proof.
  induction images as [|img images IH]; intros doc; cbn [placeImages map].
  - by rewrite app_nil_r.
  - rewrite IH. unfold pdfPages, addImage, addPage. simpl.
    by rewrite <- !app_assoc.
Qed.

Lemma pdfPages_placeImages_first images :
  images <> [] ->
  pdfPages (placeImages true newPdf images) = map (fun page => [page]) images.
Proof.
  destruct images as [|img images]; [congruence|]. intros _.
  cbn [placeImages]. by rewrite pdfPages_placeImages_later.
Qed.

Lemma clicks_pdf clicked st :
  pdf (clicks clicked st) = pdf st
  /\ firstPage (clicks clicked st) = firstPage st
  /\ successCount (clicks clicked st) = successCount st.
Proof.
  unfold clicks, cancelGeneration. destruct clicked; [|by repeat split].
  by destruct (isGenerating (globals st)).
Qed.

Section PageCount.

Variable cfg : Settings.
Hypothesis skipping : skipMissing cfg = true.
Hypothesis english_only : generateTelugu cfg = false.

(** An iteration that goes on to the next row placed the page of its
    record, or skipped a record whose photo is missing. *)
Lemma processRow_page sh i row st st' :
  invalidRow row = false ->
  processRow cfg sh i row st = (NextRow, st') ->
  pdf st' = placeImages (firstPage st) (pdf st) (pageOf cfg sh row)
  /\ firstPage st' = (firstPage st && match pageOf cfg sh row with [] => true | _ => false end)
  /\ successCount st' = (successCount st + length (pageOf cfg sh row))%nat
  /\ (length (pageOf cfg sh row) + (if photoUnresolvable cfg sh row then 1 else 0) = 1)%nat.
Proof.
  unfold processRow, secondLanguage, pageOf, englishPage, photoUnresolvable, invalidRow.
  rewrite skipping, english_only. cbn [andb]. intros Hvalid Hrun.
  destruct (cancelRequested (globals st)); [discriminate|].
  destruct (parseStudent row) as [student|]; [|discriminate].
  rewrite Hvalid in Hrun.
  destruct (loadPhotoAsBase64 sh _ _) as [photo|].
  - destruct (renderCertificate _ _ _ _) as [[] canvas|e canvas]; [|discriminate].
    injection Hrun as <-.
    destruct (clicks_pdf (clickedLate sh)
                (log (MsgStudentDone (student_id student) (student_name student)) LogSuccess
                   (succeeded (student_id student)
                      (stepDone
                         (addFirstLanguagePage (painted canvas)
                            (log (MsgRenderingEnglish (student_id student)) LogInfo
                               (clicks (clickedEarly sh) st)))))))
      as (-> & -> & ->).
    destruct (clicks_pdf (clickedEarly sh) st) as (Hp & Hf & Hs).
    cbn [pdf firstPage successCount succeeded stepDone addFirstLanguagePage log
         placeImages length].
    rewrite Hp, Hf, Hs. rewrite andb_false_r. repeat split; lia.
  - injection Hrun as <-.
    destruct (clicks_pdf (clickedEarly sh) st) as (Hp & Hf & Hs).
    cbn [pdf firstPage successCount skip log placeImages length].
    rewrite Hp, Hf, Hs, andb_true_r. repeat split; lia.
Qed.

Lemma processRows_pages host rows : forall i st st',
  Forall (fun row => invalidRow row = false) rows ->
  processRows cfg host i rows st = (NextRow, st') ->
  pdf st' = placeImages (firstPage st) (pdf st) (pagesInOrder cfg host i rows)
  /\ successCount st' = (successCount st + length (pagesInOrder cfg host i rows))%nat
  /\ (length (pagesInOrder cfg host i rows) + unresolvable cfg host i rows
      = length rows)%nat.
Proof.
  induction rows as [|row rows IH]; intros i st st' Hvalid Hrun.
  - injection Hrun as <-. simpl. repeat split; lia.
  - inversion Hvalid as [|? ? Hrow Hrows]; subst.
    cbn [processRows] in Hrun.
    destruct (processRow cfg (host i) i row st) as [step st1] eqn:Hstep.
    destruct step; [|discriminate..].
    apply processRow_page in Hstep as (Hpdf & Hfirst & Hcount & Hone); [|assumption].
    apply IH in Hrun as (Hpdf' & Hcount' & Hlen); [|assumption].
    cbn [pagesInOrder unresolvable length]. unfold pageOf in *.
    destruct (englishPage cfg (host i) row) as [page|].
    + rewrite Hpdf', Hpdf, Hfirst, Hcount', Hcount. rewrite andb_false_r.
      cbn [placeImages length] in *. repeat split; lia.
    + rewrite Hpdf', Hpdf, Hfirst, Hcount', Hcount. rewrite andb_true_r.
      cbn [placeImages length] in *. repeat split; lia.
Qed.

(** Without clicks, an iteration over a valid row goes on to the next
    row as soon as its composition returns. *)
Lemma processRow_goes_on sh i row st :
  invalidRow row = false ->
  cancelRequested (globals st) = false ->
  clickedEarly sh = false -> clickedLate sh = false ->
  (photoUnresolvable cfg sh row = false -> is_Some (englishPage cfg sh row)) ->
  exists st', processRow cfg sh i row st = (NextRow, st')
              /\ cancelRequested (globals st') = false.
Proof.
  unfold processRow, secondLanguage, englishPage, photoUnresolvable, invalidRow.
  rewrite skipping, english_only. cbn [andb].
  intros Hvalid Hflag -> -> Hreturns. rewrite Hflag.
  destruct (parseStudent row) as [student|]; [|discriminate].
  rewrite Hvalid. cbn [clicks].
  destruct (loadPhotoAsBase64 sh _ _) as [photo|].
  - destruct (renderCertificate _ _ _ _) as [[] canvas|e canvas].
    + eexists. split; [reflexivity|exact Hflag].
    + destruct Hreturns as [? [=]]. reflexivity.
  - eexists. split; [reflexivity|exact Hflag].
Qed.

Lemma processRows_go_on host rows : forall i st,
  Forall (fun row => invalidRow row = false) rows ->
  cancelRequested (globals st) = false ->
  (forall j, (j < length rows)%nat ->
             clickedEarly (host (i + j)%nat) = false
             /\ clickedLate (host (i + j)%nat) = false) ->
  (forall j row, rows !! j = Some row ->
                 photoUnresolvable cfg (host (i + j)%nat) row = false ->
                 is_Some (englishPage cfg (host (i + j)%nat) row)) ->
  exists st', processRows cfg host i rows st = (NextRow, st')
              /\ cancelRequested (globals st') = false.
Proof.
  induction rows as [|row rows IH]; intros i st Hvalid Hflag Hquiet Hreturns.
  - by exists st.
  - inversion Hvalid as [|? ? Hrow Hrows]; subst.
    destruct (Hquiet 0%nat) as [Hearly Hlate]; [simpl; lia|].
    rewrite Nat.add_0_r in Hearly, Hlate.
    destruct (processRow_goes_on (host i) i row st Hrow Hflag Hearly Hlate)
      as (st1 & Hstep & Hflag1).
    { intros Hphoto. specialize (Hreturns 0%nat row eq_refl).
      rewrite Nat.add_0_r in Hreturns. auto. }
    cbn [processRows]. rewrite Hstep. apply IH; [assumption..| |].
    + intros j Hj. replace (S i + j)%nat with (i + S j)%nat by lia.
      apply Hquiet. simpl. lia.
    + intros j row' Hj. replace (S i + j)%nat with (i + S j)%nat by lia.
      by apply Hreturns.
Qed.

End PageCount.

Lemma processRow_break cfg sh i row st st' :
  processRow cfg sh i row st = (Break, st') ->
  cancelRequested (globals st') = true.
Proof.
  unfold processRow, secondLanguage. intros Hrun.
  repeat case_match; try discriminate; injection Hrun as <-; assumption.
Qed.

Lemma processRows_break cfg host rows : forall i st st',
  processRows cfg host i rows st = (Break, st') ->
  cancelRequested (globals st') = true.
Proof.
  induction rows as [|row rows IH]; intros i st st' Hrun; [discriminate|].
  cbn [processRows] in Hrun.
  destruct (processRow cfg (host i) i row st) as [step st1] eqn:Hstep.
  destruct step; [by eapply IH| |discriminate].
  injection Hrun as <-. by eapply processRow_break.
Qed.

(** What [pdf.save] receives, by the test of line 341. *)
Lemma conclude_document cfg last st :
  producedDocument (conclude cfg last st)
  = if negb (cancelRequested (globals st)) && (0 <? successCount st)%nat
    then Some (mkSaved (startIndex cfg) (last - 1) (pdf st))
    else None.
Proof.
  unfold conclude. destruct (negb _ && _); [|by destruct (_ =? _)%nat].
  by destruct (0 <? skipCount _)%nat.
Qed.

Lemma loopEntry_fresh cfg host csvData :
  pdf (loopEntry cfg host csvData) = newPdf
  /\ firstPage (loopEntry cfg host csvData) = true
  /\ successCount (loopEntry cfg host csvData) = 0%nat
  /\ (clickedDuringLoad host = false ->
      cancelRequested (globals (loopEntry cfg host csvData)) = false).
Proof.
  unfold loopEntry. cbn [pdf firstPage successCount globals log].
  destruct (clicks_pdf (clickedDuringLoad host)
              (log MsgLoadingCsv LogInfo (initialRun (mkGlobals false true))))
    as (-> & -> & ->).
  repeat split. by intros ->.
Qed.

(** A run that gets past the guard, over a batch that is not empty. *)
Lemma generateBatchPDF_loop cfg host g csvData :
  isGenerating g = false ->
  loadCSVData host = Ok csvData ->
  batchData cfg csvData <> [] ->
  generateBatchPDF cfg host g
  = let report :=
      match processRows cfg (stepHost host) 0 (batchData cfg csvData)
                        (loopEntry cfg host csvData) with
      | (Throw e, st') => caught e st'
      | (_, st') => conclude cfg (endIndex cfg csvData) st'
      end in
    (globals (final report), Some report).
Proof.
  intros Hgen Hcsv Hrows. unfold generateBatchPDF. rewrite Hgen, Hcsv.
  replace (length (batchData cfg csvData) =? 0)%nat with false; [reflexivity|].
  symmetry. apply Nat.eqb_neq. by destruct (batchData cfg csvData).
Qed.

(** C4.  For a batch of [N] valid records, with missing photos skipped and
    one language, of which [k] records have an unresolvable photo: the
    document the run saves holds exactly the pages of the other records,
    one per page, in record order, hence [N - k] pages; and the run does
    save a document when nobody cancels, every composition returns and
    [N - k] is positive. *)
Theorem C4_batch_page_count cfg host g g' report csvData :
  skipMissing cfg = true ->
  generateTelugu cfg = false ->
  loadCSVData host = Ok csvData ->
  Forall (fun row => invalidRow row = false) (batchData cfg csvData) ->
  generateBatchPDF cfg host g = (g', Some report) ->
  (forall file : SavedFile,
     producedDocument report = Some file ->
     pdfPages (document file)
     = map (fun page => [page])
           (pagesInOrder cfg (stepHost host) 0 (batchData cfg csvData))
     /\ length (pdfPages (document file))
        = (length (batchData cfg csvData)
           - unresolvable cfg (stepHost host) 0 (batchData cfg csvData))%nat)
  /\ (noClicks host (length (batchData cfg csvData)) ->
      compositionsReturn cfg (stepHost host) (batchData cfg csvData) ->
      (0 < length (batchData cfg csvData)
           - unresolvable cfg (stepHost host) 0 (batchData cfg csvData))%nat ->
      exists file : SavedFile, producedDocument report = Some file).
Proof.
  intros Hskip Henglish Hcsv Hvalid Hrun.
  destruct (isGenerating g) eqn:Hgen.
  { unfold generateBatchPDF in Hrun. rewrite Hgen in Hrun. discriminate. }
  destruct (decide (batchData cfg csvData = [])) as [Hempty|Hrows].
  { unfold generateBatchPDF in Hrun. rewrite Hgen, Hcsv, Hempty in Hrun.
    injection Hrun as _ <-. rewrite Hempty. split; [discriminate|simpl; lia]. }
  rewrite (generateBatchPDF_loop cfg host g csvData Hgen Hcsv Hrows) in Hrun.
  cbv zeta in Hrun. injection Hrun as _ <-.
  destruct (loopEntry_fresh cfg host csvData) as (Hpdf & Hfirst & Hcount & Hflag).
  destruct (processRows _ _ _ _ _) as [exit st'] eqn:Hloop.
  assert (exit = NextRow ->
          pdf st' = placeImages true newPdf
                      (pagesInOrder cfg (stepHost host) 0 (batchData cfg csvData))
          /\ successCount st'
             = length (pagesInOrder cfg (stepHost host) 0 (batchData cfg csvData))
          /\ (length (pagesInOrder cfg (stepHost host) 0 (batchData cfg csvData))
              + unresolvable cfg (stepHost host) 0 (batchData cfg csvData)
              = length (batchData cfg csvData))%nat) as Hpages.
  { intros ->. apply (processRows_pages cfg Hskip Henglish) in Hloop; [|assumption].
    by rewrite Hpdf, Hfirst, Hcount in Hloop. }
  split.
  - intros file Hfile. destruct exit as [| |e]; [|exfalso|discriminate].
    + destruct (Hpages eq_refl) as (Hdoc & Hsucc & Hlen).
      rewrite conclude_document in Hfile.
      destruct (negb _ && _) eqn:Htest; [|discriminate]. injection Hfile as <-.
      apply andb_true_iff in Htest as [_ Hpos]. apply Nat.ltb_lt in Hpos.
      cbn [document]. rewrite Hdoc, pdfPages_placeImages_first.
      * rewrite length_map. split; [reflexivity|lia].
      * intros Hnil. rewrite Hnil in Hsucc. simpl in Hsucc. lia.
    + apply processRows_break in Hloop. rewrite conclude_document, Hloop in Hfile.
      discriminate.
  - intros [Hload Hquiet] Hreturn Hpos.
    destruct (processRows_go_on cfg Hskip Henglish (stepHost host)
                (batchData cfg csvData) 0 (loopEntry cfg host csvData))
      as (st1 & Hloop1 & Hflag1); [assumption|by apply Hflag|exact Hquiet|exact Hreturn|].
    rewrite Hloop in Hloop1. injection Hloop1 as -> <-.
    destruct (Hpages eq_refl) as (Hdoc & Hsucc & Hlen).
    rewrite conclude_document, Hflag1. cbn [negb andb].
    replace (0 <? successCount st')%nat with true by (symmetry; apply Nat.ltb_lt; lia).
    by eexists.
Qed.

(** ** A batch whose records are all skipped *)

Lemma processRow_skips cfg sh i row st :
  rowSkipped cfg sh row ->
  cancelRequested (globals st) = false ->
  clickedEarly sh = false ->
  exists st', processRow cfg sh i row st = (NextRow, st')
              /\ cancelRequested (globals st') = false
              /\ successCount st' = successCount st
              /\ pdf st' = pdf st.
Proof.
  unfold rowSkipped, processRow, photoUnresolvable, invalidRow.
  intros Hskipped Hflag ->. rewrite Hflag. cbn [clicks].
  destruct (parseStudent row) as [student|]; [|by eexists].
  destruct (negb (truthy (Some (student_name student)))); [by eexists|].
  destruct Hskipped as [[=]|[-> Hphoto]].
  destruct (loadPhotoAsBase64 sh _ _); [discriminate|].
  eexists. split; [reflexivity|]. by destruct (generateTelugu cfg).
Qed.

Lemma processRows_skip cfg host rows : forall i st,
  cancelRequested (globals st) = false ->
  (forall j, (j < length rows)%nat -> clickedEarly (host (i + j)%nat) = false) ->
  (forall j row, rows !! j = Some row -> rowSkipped cfg (host (i + j)%nat) row) ->
  exists st', processRows cfg host i rows st = (NextRow, st')
              /\ cancelRequested (globals st') = false
              /\ successCount st' = successCount st
              /\ pdf st' = pdf st.
Proof.
  induction rows as [|row rows IH]; intros i st Hflag Hquiet Hskipped.
  - by exists st.
  - destruct (processRow_skips cfg (host i) i row st) as (st1 & Hstep & Hflag1 & Hsucc & Hpdf).
    + specialize (Hskipped 0%nat row eq_refl). by rewrite Nat.add_0_r in Hskipped.
    + assumption.
    + specialize (Hquiet 0%nat). rewrite Nat.add_0_r in Hquiet. apply Hquiet. simpl. lia.
    + cbn [processRows]. rewrite Hstep.
      destruct (IH (S i) st1) as (st' & Hloop & Hflag' & Hsucc' & Hpdf').
      * assumption.
      * intros j Hj. replace (S i + j)%nat with (i + S j)%nat by lia.
        apply Hquiet. simpl. lia.
      * intros j row' Hj. replace (S i + j)%nat with (i + S j)%nat by lia.
        by apply Hskipped.
      * exists st'. repeat split; congruence.
Qed.


(** ** Concrete names, compositions and runs *)

Import Examples.

(** C1 (the code departs from it).  A name of nineteen letters, within the
    threshold of the certificate name block, whose single line is wider
    than 2400 px at the 120 px floor: the fallback of line 162 assigns to a
    [const], so the name block raises a [TypeError] and [renderCertificate]
    is left without a name block.  On the same name the card block, whose
    fallback is an [else] branch, wraps. *)
Theorem C1_fallback_raises_in_name_block :
  (String.length wideName <= multilineThreshold NameBlock)%nat
  /\ ~ (measured NameBlock wideMetrics wideName (minFontSize NameBlock)
        <= maxWidth NameBlock)%Q
  /\ fit NameBlock wideMetrics wideName
     = Threw (TypeError "Assignment to constant variable.")
  /\ (exists lines : list FitLine,
        fit CardBlock wideMetrics wideName = Ok (MultiLine 30 36 lines))
  /\ exists c : Canvas,
       renderCertificate (goodHost wideMetrics) wideStudent photoUrl en
       = Raised (TypeError "Assignment to constant variable.") c.
Proof.
  split; [vm_compute; lia|]. split; [by vm_compute|].
  split; [by vm_compute|]. split; [by eexists; vm_compute|].
  by eexists; vm_compute.
Qed.

(** C5 as stated fails: a name of twenty-two characters and three words,
    above the threshold of 19, that fits the width at the reduced size, is
    laid out on one line. *)
Lemma C5_counterexample :
  (multilineThreshold NameBlock < String.length threeWords)%nat
  /\ hasSpace threeWords = true
  /\ ~ (exists n : nat, lineCount (fit NameBlock plainMetrics threeWords) = Some n
                        /\ (2 <= n)%nat).
Proof.
  split; [vm_compute; lia|]. split; [reflexivity|].
  intros (n & Hn & Hle). vm_compute in Hn. injection Hn as <-. lia.
Qed.

(** C2 (the code departs from it).  A rejected load of the signature or
    of the photo is caught and the composition completes; a rejected load
    of the code image is awaited outside of any [try] (line 513) and leaves
    [renderCertificate] with the rejection. *)
Theorem C2_rejected_code_image_aborts :
  (exists c, renderCertificate (hostWithout plainMetrics "assets/signature.png")
                               suhitha photoUrl en = Done tt c)
  /\ (exists c, renderCertificate (hostWithout plainMetrics photoUrl)
                                  suhitha photoUrl en = Done tt c)
  /\ (exists c, renderCertificate (hostWithout plainMetrics qrSrc)
                                  suhitha photoUrl en = Raised LoadError c).
Proof.
  split; [|split]; eexists; vm_compute; reflexivity.
Qed.

(** C3, on a run of three records in which Cancel is clicked while the
    second record is processed: two pages exist, no document is saved. *)
Lemma C3_witness :
  exists (g' : Globals) (report : Report),
    generateBatchPDF (settings false true) (batchHost threeRows EmptyString (Some 1%nat)) idle
    = (g', Some report)
    /\ length (producedPages (final report)) = 2%nat
    /\ producedDocument report = None
    /\ outcome report <> Completed.
Proof.
  destruct (generateBatchPDF (settings false true)
              (batchHost threeRows EmptyString (Some 1%nat)) idle)
    as [g' [report|]] eqn:Hrun; [|vm_compute in Hrun; discriminate Hrun].
  exists g', report. split; [reflexivity|].
  pose proof (C3_cancellation_discards_output _ _ _ _ _ Hrun) as Hnone.
  vm_compute in Hrun. injection Hrun as <- <-.
  split; [vm_compute; reflexivity|].
  apply Hnone. vm_compute. tauto.
Defined.

Lemma threeRows_batch : batchData (settings false true) threeRows = threeRows.
Proof. reflexivity. Qed.

(** C4, on three records of which the second has no photo: the document
    has two pages. *)
Lemma C4_witness :
  exists (g' : Globals) (report : Report) (file : SavedFile),
    generateBatchPDF (settings false true) (batchHost threeRows "AIK2.jpeg" None) idle
    = (g', Some report)
    /\ producedDocument report = Some file
    /\ length (pdfPages (document file)) = (3 - 1)%nat.
Proof.
  destruct (generateBatchPDF (settings false true)
              (batchHost threeRows "AIK2.jpeg" None) idle)
    as [g' [report|]] eqn:Hrun; [|vm_compute in Hrun; discriminate Hrun].
  assert (Forall (fun row => invalidRow row = false)
                 (batchData (settings false true) threeRows)) as Hvalid.
  { rewrite threeRows_batch.
    repeat (apply List.Forall_cons; [vm_compute; reflexivity|]). apply List.Forall_nil. }
  destruct (C4_batch_page_count (settings false true)
              (batchHost threeRows "AIK2.jpeg" None) idle g' report threeRows
              eq_refl eq_refl eq_refl Hvalid Hrun) as [Hpages Hfile].
  assert (noClicks (batchHost threeRows "AIK2.jpeg" None)
                   (length (batchData (settings false true) threeRows))) as Hquiet.
  { split; [reflexivity|]. intros i _. split; reflexivity. }
  assert (compositionsReturn (settings false true)
            (stepHost (batchHost threeRows "AIK2.jpeg" None))
            (batchData (settings false true) threeRows)) as Hret.
  { rewrite threeRows_batch. intros i r Hi Hphoto.
    destruct i as [|[|[|i]]]; try discriminate Hi; injection Hi as <-;
      vm_compute in Hphoto; try discriminate Hphoto; vm_compute; eauto. }
  destruct (Hfile Hquiet Hret) as [file Hdoc]; [vm_compute; lia|].
  exists g', report, file. split; [reflexivity|]. split; [exact Hdoc|].
  destruct (Hpages file Hdoc) as [_ ->]. vm_compute. reflexivity.
Defined.

(** C5 as amended, on a name of thirty characters in the card block: two
    lines. *)
Lemma C5_witness :
  exists (lh : Z) (lines : list FitLine),
    fit CardBlock plainMetrics fourWords = Ok (MultiLine 26 lh lines)
    /\ (2 <= length lines)%nat.
Proof.
  destruct (C5_forced_wrap_line_count CardBlock plainMetrics fourWords)
    as (lh & lines & Hfit & _ & _ & Htwo); [vm_compute; lia|].
  exists lh, lines. split; [exact Hfit|].
  apply Htwo; [reflexivity|]. intros Hle. vm_compute in Hle. by apply Hle.
Defined.

(** C6, on a card name of three words that wraps into two lines: a word
    of twenty-six wide letters, which overflows at the floor, and a line
    of two words, which fits. *)
Lemma C6_witness :
  (hasSpace MoreExamples.longWord = false
   /\ In MoreExamples.longWord (split MoreExamples.unbreakable)
   /\ 16%Z = minLineSize CardBlock
   /\ ~ (measured CardBlock wideMetrics MoreExamples.longWord (minLineSize CardBlock)
         <= maxWidth CardBlock)%Q)
  /\ (measured CardBlock wideMetrics "AB CD" 26 <= maxWidth CardBlock)%Q.
Proof.
  assert (fit CardBlock wideMetrics MoreExamples.unbreakable
          = Ok (MultiLine 26 32 [mkFitLine MoreExamples.longWord 16; mkFitLine "AB CD" 26]))
    as Hfit by (vm_compute; reflexivity).
  split.
  - destruct (C6_lines_within_width CardBlock wideMetrics MoreExamples.unbreakable 26 32
                [mkFitLine MoreExamples.longWord 16; mkFitLine "AB CD" 26]
                (mkFitLine MoreExamples.longWord 16) Hfit) as [Hfits|Hword].
    + simpl. by left.
    + exfalso. vm_compute in Hfits. by apply Hfits.
    + exact Hword.
  - destruct (C6_lines_within_width CardBlock wideMetrics MoreExamples.unbreakable 26 32
                [mkFitLine MoreExamples.longWord 16; mkFitLine "AB CD" 26]
                (mkFitLine "AB CD" 26) Hfit) as [Hfits|Hword].
    + simpl. right. by left.
    + exact Hfits.
    + destruct Hword as [Hspace _]. vm_compute in Hspace. discriminate Hspace.
Defined.

(** C7, on a name of fourteen characters in the certificate name block. *)
Lemma C7_witness :
  exists size : Z,
    fit NameBlock plainMetrics "KAVURI SUHITHA" = Ok (SingleLine "KAVURI SUHITHA" size)
    /\ (measured NameBlock plainMetrics "KAVURI SUHITHA" size <= maxWidth NameBlock)%Q
    /\ lineCount (fit NameBlock plainMetrics "KAVURI SUHITHA") = Some 1%nat.
Proof.
  apply C7_short_name_one_line.
  - vm_compute. lia.
  - left. exists 200%Z. split.
    + exists 0%nat. split; [reflexivity|vm_compute; discriminate].
    + vm_compute. discriminate.
Defined.

Lemma skippedRows_batch : batchData (settings false true) skippedRows = skippedRows.
Proof. reflexivity. Qed.




(** * More properties *)

(** ** The wrap is greedy *)

Section PackedFacts.
Variable fits : string -> bool.

Lemma packedAfter_grow_last (gs : list (list string)) : forall (previous g : list string) (w : string),
  g <> [] ->
  packedAfter fits previous (gs ++ [g]) ->
  packedAfter fits previous (gs ++ [g ++ [w]]).
Proof.
  induction gs as [|g0 gs IH]; intros previous g w Hg; cbn [app packedAfter].
  - destruct g as [|w0 g]; [congruence|]. exact id.
  - intros [Hfirst Hrest]. split; [exact Hfirst|]. by apply IH.
Qed.

Lemma packedAfter_push (gs : list (list string)) : forall (previous g : list string) (w : string),
  fits (spaced (join g) w) = false ->
  packedAfter fits previous (gs ++ [g]) ->
  packedAfter fits previous ((gs ++ [g]) ++ [[w]]).
Proof.
  induction gs as [|g0 gs IH]; intros previous g w Hw; cbn [app packedAfter].
  - intros [Hfirst _]. repeat split; assumption.
  - intros [Hfirst Hrest]. split; [exact Hfirst|]. by apply IH.
Qed.

Lemma packed_grow_last (gs : list (list string)) (g : list string) (w : string) :
  g <> [] -> packed fits (gs ++ [g]) -> packed fits (gs ++ [g ++ [w]]).
Proof.
  intros Hg. destruct gs as [|g0 gs]; [exact id|].
  cbn [app packed]. by apply packedAfter_grow_last.
Qed.

Lemma packed_push (gs : list (list string)) (g : list string) (w : string) :
  fits (spaced (join g) w) = false ->
  packed fits (gs ++ [g]) -> packed fits ((gs ++ [g]) ++ [[w]]).
Proof.
  intros Hw. destruct gs as [|g0 gs]; cbn [app packed packedAfter].
  - intros _. by split.
  - by apply packedAfter_push.
Qed.

(** The state of the wrap loop, as groups of words: the groups keep the
    words in order, lines of several words passed the test, and every
    closed line is full. *)
Lemma wrapLoop_packed (rest : list string) : forall (gs : list (list string)) (g : list string),
  g <> [] ->
  Forall (fun g => g <> []) gs ->
  packed fits (gs ++ [g]) ->
  Forall (fun g => (2 <= length g)%nat -> fits (join g) = true) (gs ++ [g]) ->
  exists (gs' : list (list string)) (g' : list string),
    wrapLoop fits rest (map join gs) (join g) = (map join gs', join g')
    /\ concat (gs' ++ [g']) = concat (gs ++ [g]) ++ rest
    /\ Forall (fun g => g <> []) (gs' ++ [g'])
    /\ packed fits (gs' ++ [g'])
    /\ Forall (fun g => (2 <= length g)%nat -> fits (join g) = true) (gs' ++ [g']).
Proof.
  induction rest as [|word rest IH]; intros gs g Hg Hgs Hpacked Hfit.
  - exists gs, g. rewrite app_nil_r. repeat split; try assumption.
    apply Forall_app. split; [assumption|by constructor].
  - cbn [wrapLoop]. rewrite <- join_snoc by assumption.
    destruct (fits (join (g ++ [word]))) eqn:Htest.
    + destruct (IH gs (g ++ [word])) as (gs' & g' & Heq & Hcat & Hne & Hp & Hf).
      * by destruct g.
      * assumption.
      * by apply packed_grow_last.
      * apply Forall_app in Hfit as [Hfit _]. apply Forall_app. split; [assumption|].
        constructor; [by intros _|constructor].
      * exists gs', g'. repeat split; try assumption.
        rewrite Hcat, !concat_app. cbn [concat]. rewrite !app_nil_r.
        by rewrite <- !app_assoc.
    + destruct (IH (gs ++ [g]) [word]) as (gs' & g' & Heq & Hcat & Hne & Hp & Hf).
      * discriminate.
      * apply Forall_app. split; [assumption|by constructor].
      * apply packed_push; [|assumption]. by rewrite <- join_snoc.
      * apply Forall_app. split; [assumption|].
        constructor; [simpl; lia|constructor].
      * exists gs', g'. rewrite map_app in Heq. repeat split; try assumption.
        rewrite Hcat, !concat_app. cbn [concat]. rewrite !app_nil_r.
        by rewrite <- !app_assoc.
Qed.

End PackedFacts.

(** X1.  The wrap of a block is greedy: its lines are the words of the
    name, in order, in non-empty groups; a line of two words or more fits
    the width at the wrap size; and the first word of every line but the
    first did not fit at the end of the line before it. *)
Theorem wrap_is_greedy (b : Block) (m : Metrics) (name : string) :
  exists groups : list (list string),
    concat groups = split name
    /\ Forall (fun g => g <> []) groups
    /\ wrappedLines b m name = map join groups
    /\ packed (wrapFits b m name) groups
    /\ Forall (fun g => (2 <= length g)%nat -> wrapFits b m name (join g) = true) groups.
Proof.
  rewrite wrappedLines_eq. fold (wrapFits b m name).
  pose proof (split_nonempty name) as Hne.
  destruct (split name) as [|w ws]; [congruence|].
  destruct (wrapLoop_packed (wrapFits b m name) ws [] [w])
    as (gs' & g' & Heq & Hcat & Hall & Hp & Hf).
  - discriminate.
  - constructor.
  - exact I.
  - constructor; [simpl; lia|constructor].
  - exists (gs' ++ [g']). unfold greedyWrap. cbn [hd tl].
    change (wrapLoop (wrapFits b m name) ws [] w)
      with (wrapLoop (wrapFits b m name) ws (map join []) (join [w])).
    rewrite Heq, map_app. repeat split; assumption.
Qed.

Lemma groups_at_most_words (groups : list (list string)) :
  Forall (fun g => g <> []) groups -> (length groups <= length (concat groups))%nat.
Proof.
  induction 1 as [|g groups Hg _ IH]; [reflexivity|].
  cbn [concat length]. rewrite length_app. destruct g; [congruence|simpl; lia].
Qed.

Lemma split_without_space (s : string) : hasSpace s = false -> split s = [s].
Proof.
  induction s as [|c s IH]; [reflexivity|]. simpl.
  destruct (isSpace c); [discriminate|]. simpl. intros Hs. by rewrite (IH Hs).
Qed.

(** X2.  A wrap has at least one line and never more lines than the name
    has words; a name without a space is one line, the name itself. *)
Theorem wrap_line_count (b : Block) (m : Metrics) (name : string) :
  (1 <= length (wrappedLines b m name) <= length (split name))%nat
  /\ (hasSpace name = false -> wrappedLines b m name = [name]).
Proof.
  split.
  - rewrite wrappedLines_eq. split; [apply greedyWrap_at_least_one|].
    destruct (greedyWrap_partition
                (fun testLine => Qle_bool (measured b m testLine (wrapSize b name)) (maxWidth b))
                (split name) (split_nonempty name)) as (groups & Hcat & Hall & ->).
    rewrite length_map, <- Hcat. by apply groups_at_most_words.
  - intros Hs. rewrite wrappedLines_eq, split_without_space by assumption. reflexivity.
Qed.

(** ** Font sizes *)

(** Where the shrink loop stops: on its ladder, not above the start, and
    less than one step below the floor. *)
Lemma shrinkWhile_range (fits : Z -> bool) (floor step start : Z) :
  (0 < step)%Z ->
  (floor - step < start)%Z ->
  (exists k : nat, shrinkWhile fits floor step start = (start - step * Z.of_nat k)%Z)
  /\ (floor - step < shrinkWhile fits floor step start <= start)%Z.
Proof.
  intros Hstep.
  apply (shrinkWhile_ind fits floor step Hstep
           (fun size r => (floor - step < size)%Z ->
                          (exists k : nat, r = (size - step * Z.of_nat k)%Z)
                          /\ (floor - step < r <= size)%Z)).
  - intros size _ Hsize. split; [exists 0%nat|]; lia.
  - intros size r _ Hlt IH _. destruct IH as [[k Hk] Hr]; [lia|].
    split; [exists (S k)|]; lia.
Qed.

(** X3.  A single-line layout is only given to a name within the threshold
    of its block; its text is the name, it fits the width at its size, and
    its size is on the ladder of the shrink loop: 200, 195, ..., 120 in
    the certificate block, 55, 53, ..., 29 in the card block, where the
    loop steps over its floor of 30. *)
Theorem single_line_size (b : Block) (m : Metrics) (name text : string) (size : Z) :
  fit b m name = Ok (SingleLine text size) ->
  text = name
  /\ (String.length name <= multilineThreshold b)%nat
  /\ (measured b m name size <= maxWidth b)%Q
  /\ (exists k : nat, size = (startSize b - stepSize b * Z.of_nat k)%Z)
  /\ match b with
     | NameBlock => (120 <= size <= 200)%Z
     | CardBlock => (29 <= size <= 55)%Z
     end.
Proof.
  intros Hfit.
  assert (String.length name <= multilineThreshold b)%nat as Hlen.
  { destruct (le_lt_dec (String.length name) (multilineThreshold b)) as [|Hlong];
      [assumption|].
    destruct (fit_forced b m name Hlong) as [lh Hforced]. congruence. }
  rewrite (fit_short b m name Hlen) in Hfit. cbv zeta in Hfit.
  set (fitsAt := fun s => Qle_bool (measured b m name s) (maxWidth b)) in *.
  destruct (shrinkWhile_range fitsAt (minFontSize b) (stepSize b) (startSize b)
              (stepSize_pos b)) as [[k Hk] Hrange]; [by destruct b|].
  remember (shrinkWhile fitsAt (minFontSize b) (stepSize b) (startSize b)) as r eqn:Hr.
  destruct (Qle_bool _ _) eqn:Hfits.
  - injection Hfit as <- <-. split; [reflexivity|]. split; [assumption|].
    split; [by apply fits_measured|]. split; [by exists k|].
    clear Hr Hfits Hlen. clearbody fitsAt.
    destruct b; unfold minFontSize, stepSize, startSize, CardName.startFontSize in *; lia.
  - destruct b; [discriminate|]. unfold CardName.multiLine in Hfit. discriminate.
Qed.

(** X4.  A multi-line layout has at least one line; the size of the block
    and its line height are chosen by the length of the name (above 25
    characters: 120 and 130 in the certificate block, 26 and 32 in the
    card block; otherwise 150 and 160, 30 and 36); every line is drawn at a
    size between the per-line floor (80, 16) and the block size, on the
    ladder that starts at the block size. *)
Theorem multi_line_sizes (b : Block) (m : Metrics) (name : string) (size lh : Z)
        (lines : list FitLine) :
  fit b m name = Ok (MultiLine size lh lines) ->
  (size, lh) = (if (25 <? String.length name)%nat
                then match b with NameBlock => (120, 130) | CardBlock => (26, 32) end
                else match b with NameBlock => (150, 160) | CardBlock => (30, 36) end)%Z
  /\ lines <> []
  /\ forall line : FitLine,
       In line lines ->
       (minLineSize b <= lineSize line <= size)%Z
       /\ exists k : nat, lineSize line = (size - stepSize b * Z.of_nat k)%Z.
Proof.
  intros Hfit. pose proof Hfit as Hshape. apply fit_multiLine in Hshape as [Hsize Hlines].
  split; [|split].
  - destruct b; simpl in Hfit.
    + unfold CertName.layout in Hfit. destruct (negb _).
      * destruct (CertName.nameFits _ _ _); discriminate.
      * injection Hfit as <- <- _.
        unfold CertName.multiLineFontSize, CertName.lineHeight. by destruct (_ <? _)%nat.
    + unfold CardName.layout in Hfit. destruct (negb _ && _); [discriminate|].
      injection Hfit as <- <- _.
      unfold CardName.multiLineFontSize, CardName.lineHeight. by destruct (_ <? _)%nat.
  - rewrite Hlines, wrappedLines_eq. intros Hnil. apply map_eq_nil in Hnil.
    pose proof (greedyWrap_at_least_one
                  (fun testLine => Qle_bool (measured b m testLine (wrapSize b name)) (maxWidth b))
                  (split name)) as Hone.
    rewrite Hnil in Hone. simpl in Hone. lia.
  - intros line Hin. rewrite Hlines in Hin. apply in_map_iff in Hin as (text & <- & _).
    cbn [lineSize]. subst size.
    set (fitsAt := fun s => Qle_bool (measured b m text s) (maxWidth b)).
    destruct (wrapSize_ladder b name) as [q Hq].
    pose proof (shrinkWhile_floor fitsAt (minLineSize b) (stepSize b) (stepSize_pos b)
                  q (wrapSize b name) Hq) as Hfloor.
    pose proof (stepSize_pos b) as Hstep.
    destruct (shrinkWhile_range fitsAt (minLineSize b) (stepSize b) (wrapSize b name)
                Hstep) as [Hk Hrange]; [nia|].
    split; [lia|exact Hk].
Qed.

(** ** What a drawing adds to the canvas *)

Lemma appends_ret {A} (a : A) : appends (mret a) (Ok a) [] [].
Proof. intros [ops logs]. unfold mret, draw_ret. simpl. by rewrite !app_nil_r. Qed.

Lemma appends_throw {A} (e : JsError) : appends (mthrow e : Draw A) (Threw e) [] [].
Proof. intros [ops logs]. unfold mthrow, draw_throw. simpl. by rewrite !app_nil_r. Qed.

Lemma appends_paint (op : DrawOp) : appends (paint op) (Ok tt) [op] [].
Proof. intros c. unfold paint. by rewrite app_nil_r. Qed.

Lemma appends_consoleLog (line : string) : appends (consoleLog line) (Ok tt) [] [line].
Proof. intros c. unfold consoleLog. by rewrite app_nil_r. Qed.

Lemma appends_bind {A B} (d : Draw A) (k : A -> Draw B) (a : A) (r : Result B)
      (ops ops' : list DrawOp) (logs logs' : list string) :
  appends d (Ok a) ops logs ->
  appends (k a) r ops' logs' ->
  appends (d ≫= k) r (ops ++ ops') (logs ++ logs').
Proof.
  intros Hd Hk c. unfold mbind, draw_bind. rewrite Hd, Hk. simpl.
  rewrite !app_assoc. by destruct r.
Qed.

Lemma appends_bind_threw {A B} (d : Draw A) (k : A -> Draw B) (e : JsError)
      (ops : list DrawOp) (logs : list string) :
  appends d (Threw e) ops logs -> appends (d ≫= k) (Threw e) ops logs.
Proof. intros Hd c. unfold mbind, draw_bind. by rewrite Hd. Qed.

Lemma appends_tryCatch_ok {A} (body : Draw A) (handler : JsError -> Draw A) (a : A)
      (ops : list DrawOp) (logs : list string) :
  appends body (Ok a) ops logs -> appends (tryCatch body handler) (Ok a) ops logs.
Proof. intros Hb c. unfold tryCatch. by rewrite Hb. Qed.

Lemma appends_tryCatch_threw {A} (body : Draw A) (handler : JsError -> Draw A)
      (e : JsError) (r : Result A) (ops ops' : list DrawOp) (logs logs' : list string) :
  appends body (Threw e) ops logs ->
  appends (handler e) r ops' logs' ->
  appends (tryCatch body handler) r (ops ++ ops') (logs ++ logs').
Proof.
  intros Hb Hh c. unfold tryCatch. rewrite Hb, Hh. simpl.
  rewrite !app_assoc. by destruct r.
Qed.

Lemma writes_ret {A} (a : A) : writes (mret a : Draw A).
Proof. exists (Ok a), [], []. apply appends_ret. Qed.

Lemma writes_throw {A} (e : JsError) : writes (mthrow e : Draw A).
Proof. exists (Threw e), [], []. apply appends_throw. Qed.

Lemma writes_paint (op : DrawOp) : writes (paint op).
Proof. exists (Ok tt), [op], []. apply appends_paint. Qed.

Lemma writes_consoleLog (line : string) : writes (consoleLog line).
Proof. exists (Ok tt), [], [line]. apply appends_consoleLog. Qed.

Lemma writes_bind {A B} (d : Draw A) (k : A -> Draw B) :
  writes d -> (forall a, writes (k a)) -> writes (d ≫= k).
Proof.
  intros ([a|e] & ops & logs & Hd) Hk.
  - destruct (Hk a) as (r & ops' & logs' & Hka).
    exists r, (ops ++ ops'), (logs ++ logs'). by apply appends_bind with a.
  - exists (Threw e), ops, logs. by apply appends_bind_threw.
Qed.

Lemma writes_tryCatch {A} (body : Draw A) (handler : JsError -> Draw A) :
  writes body -> (forall e, writes (handler e)) -> writes (tryCatch body handler).
Proof.
  intros ([a|e] & ops & logs & Hb) Hh.
  - exists (Ok a), ops, logs. by apply appends_tryCatch_ok.
  - destruct (Hh e) as (r & ops' & logs' & He).
    exists r, (ops ++ ops'), (logs ++ logs'). by apply appends_tryCatch_threw with e.
Qed.

Lemma writes_awaitImage (h : Host) (source : string) : writes (awaitImage h source).
Proof. unfold awaitImage. destruct (loadImage h source); [apply writes_ret|apply writes_throw]. Qed.

Lemma writes_liftResult {A} (r : Result A) : writes (liftResult r).
Proof. destruct r; [apply writes_ret|apply writes_throw]. Qed.

Create HintDb canvas.
#[local] Hint Resolve writes_ret writes_throw writes_paint writes_consoleLog
  writes_bind writes_tryCatch writes_awaitImage writes_liftResult : canvas.

(** A computation that returned on one canvas: what it does on another. *)
Lemma writes_returned {A} (d : Draw A) (a : A) (c c' : Canvas) :
  writes d ->
  d c = Done a c' ->
  exists (ops : list DrawOp) (logs : list string),
    appends d (Ok a) ops logs
    /\ painted c' = painted c ++ ops /\ console c' = console c ++ logs.
Proof.
  intros (r & ops & logs & Hd) Hrun. pose proof (Hd c) as Hc. rewrite Hrun in Hc.
  destruct r as [a'|e]; [|discriminate]. injection Hc as -> ->.
  exists ops, logs. by repeat split.
Qed.

Lemma bind_returned {A B} (d : Draw A) (k : A -> Draw B) (b : B) (c c' : Canvas) :
  (d ≫= k) c = Done b c' ->
  exists (a : A) (c1 : Canvas), d c = Done a c1 /\ k a c1 = Done b c'.
Proof.
  unfold mbind, draw_bind. destruct (d c) as [a c1|e c1]; [|discriminate].
  intros Hk. by exists a, c1.
Qed.

(** ** Where the name lines are drawn *)

Lemma baselines_app (ops ops' : list DrawOp) :
  baselines (ops ++ ops') = baselines ops ++ baselines ops'.
Proof. unfold baselines. apply flat_map_app. Qed.

Lemma length_evenlySpaced (n : nat) : forall first step : Q,
  length (evenlySpaced first step n) = n.
Proof. induction n as [|n IH]; intros first step; simpl; [reflexivity|]. by rewrite IH. Qed.

Lemma last_evenlySpaced (n : nat) : forall first step bottom : Q,
  last (evenlySpaced first step n) = Some bottom ->
  (bottom == first + (inject_Z (Z.of_nat n) - 1) * step)%Q.
Proof.
  induction n as [|n IH]; intros first step bottom; [discriminate|].
  destruct n as [|n'].
  - simpl. intros [= <-]. ring.
  - change (evenlySpaced first step (S (S n')))
      with (first :: evenlySpaced (first + step)%Q step (S n')).
    change (last (first :: evenlySpaced (first + step)%Q step (S n')))
      with (last (evenlySpaced (first + step)%Q step (S n'))).
    intros Hlast. rewrite (IH _ _ _ Hlast).
    rewrite (Nat2Z.inj_succ (S n')). unfold Z.succ. rewrite inject_Z_plus. ring.
Qed.

Lemma evenlySpaced_from (n : nat) : forall first step y : Q,
  (0 <= step)%Q -> In y (evenlySpaced first step n) ->
  (first <= y)%Q /\ (y <= first + (inject_Z (Z.of_nat n) - 1) * step)%Q.
Proof.
  induction n as [|n IH]; intros first step y Hstep; [intros []|].
  assert (0 <= inject_Z (Z.of_nat n) * step)%Q as Hn.
  { apply Qmult_le_0_compat; [|assumption].
    change 0%Q with (inject_Z 0). rewrite <- Zle_Qle. lia. }
  rewrite Nat2Z.inj_succ. unfold Z.succ. rewrite inject_Z_plus.
  change (inject_Z 1) with 1%Q.
  intros [<-|Hin].
  - split; [apply Qle_refl|]. nra.
  - destruct (IH _ _ _ Hstep Hin) as [Hlow Hhigh]. split; nra.
Qed.

Section NameLines.
Variable h : Host.

Lemma appends_drawText text x y size font align weight :
  appends (drawText h text x y size font align weight)
          (Ok (metrics h (mkFont weight size font) text))
          [FillText text x y (mkFont weight size font) align] [].
Proof.
  unfold drawText.
  apply (appends_bind _ _ tt _ [_] [] [] []); [apply appends_paint|apply appends_ret].
Qed.

Lemma appends_drawNameLines (lines : list FitLine) (lh : Z) : forall y : Q,
  exists ops : list DrawOp,
    appends (drawNameLines h lines lh y) (Ok tt) ops []
    /\ baselines ops = evenlySpaced y (inject_Z lh) (length lines).
Proof.
  induction lines as [|line lines IH]; intros y.
  - exists []. split; [apply appends_ret|reflexivity].
  - destruct (IH (y + inject_Z lh)%Q) as (ops & Hops & Hys).
    eexists (_ :: _ :: ops). split.
    + cbn [drawNameLines].
      eapply (appends_bind _ _ _ _ [_] _ [] []); [apply appends_drawText|].
      eapply (appends_bind _ _ tt _ [_] _ [] []); [apply appends_paint|exact Hops].
    + cbn [length evenlySpaced]. rewrite <- Hys. reflexivity.
Qed.

Lemma appends_drawCardLines (lines : list FitLine) (lh : Z) : forall y : Q,
  exists ops : list DrawOp,
    appends (drawCardLines lines lh y) (Ok tt) ops []
    /\ baselines ops = evenlySpaced y (inject_Z lh) (length lines).
Proof.
  induction lines as [|line lines IH]; intros y.
  - exists []. split; [apply appends_ret|reflexivity].
  - destruct (IH (y + inject_Z lh)%Q) as (ops & Hops & Hys).
    eexists (_ :: ops). split.
    + cbn [drawCardLines].
      eapply (appends_bind _ _ tt _ [_] _ [] []); [apply appends_paint|exact Hops].
    + cbn [length evenlySpaced]. rewrite <- Hys. reflexivity.
Qed.

End NameLines.



(** ** The arithmetic of doubles *)

Section DoubleFacts.
Local Open Scope Q_scope.

Lemma pow2_pos (e : Z) : 0 < pow2 e.
Proof. apply Qpower_0_lt. reflexivity. Qed.

Lemma pow2_plus (a b : Z) : pow2 (a + b) == pow2 a * pow2 b.
Proof. apply Qpower_plus. discriminate. Qed.

Lemma pow2_Z (n : Z) : (0 <= n)%Z -> pow2 n == inject_Z (2 ^ n).
Proof. intros Hn. unfold pow2. by rewrite Zpower_Qpower. Qed.

Lemma pow2_minus (a b : Z) : pow2 (a - b) == pow2 a / pow2 b.
Proof.
  unfold Z.sub. rewrite pow2_plus. unfold pow2 at 2. rewrite Qpower_opp. reflexivity.
Qed.

Lemma nearestEven_error (x : Q) : Qabs (inject_Z (nearestEven x) - x) <= 1 # 2.
Proof.
  unfold nearestEven. cbv zeta.
  pose proof (Qfloor_le x) as Hlow. pose proof (Qlt_floor x) as Hhigh.
  rewrite inject_Z_plus in Hhigh. change (inject_Z 1) with 1 in Hhigh.
  apply Qabs_Qle_condition.
  destruct (Qcompare (x - inject_Z (Qfloor x)) (1 # 2)) eqn:Hcmp.
  - apply Qeq_alt in Hcmp.
    destruct (Z.even (Qfloor x)); rewrite ?inject_Z_plus; change (inject_Z 1) with 1; lra.
  - apply Qlt_alt in Hcmp. lra.
  - apply Qgt_alt in Hcmp. rewrite inject_Z_plus. change (inject_Z 1) with 1. lra.
Qed.

Lemma log2_bounds (n : Z) :
  (0 < n)%Z -> (2 ^ Z.log2 n <= n < 2 ^ (Z.log2 n + 1))%Z.
Proof. intros Hn. apply Z.log2_spec in Hn. unfold Z.succ in Hn. exact Hn. Qed.

Lemma Qmake_pos (n : Z) (d : positive) : 0 < n # d -> (0 < n)%Z.
Proof. unfold Qlt. simpl. lia. Qed.

(** [binade a] is the integer part of the binary logarithm of [a]. *)
Lemma binade_le (a : Q) : 0 < a -> pow2 (binade a) <= a.
Proof.
  intros Ha. unfold binade. cbv zeta.
  destruct (Qle_bool _ a) eqn:Htest; [by apply Qle_bool_iff|].
  destruct a as [n d]. cbn [Qnum Qden].
  apply Qmake_pos in Ha.
  pose proof (log2_bounds n Ha) as [Hn _].
  pose proof (log2_bounds (Zpos d) eq_refl) as [_ Hd].
  pose proof (Z.log2_nonneg n) as HL. pose proof (Z.log2_nonneg (Zpos d)) as HM.
  replace (Z.log2 n - Z.log2 (Zpos d) - 1)%Z
    with (Z.log2 n - (Z.log2 (Zpos d) + 1))%Z by lia.
  rewrite pow2_minus, !pow2_Z by lia. rewrite Qmake_Qdiv.
  apply Qle_shift_div_l; [reflexivity|].
  unfold Qdiv. rewrite <- Qmult_assoc, (Qmult_comm (/ _)), Qmult_assoc.
  apply Qle_shift_div_r.
  - change 0 with (inject_Z 0). rewrite <- Zlt_Qlt. lia.
  - rewrite <- !inject_Z_mult, <- Zle_Qle. nia.
Qed.

Lemma binade_lt (a : Q) : 0 < a -> a < pow2 (binade a + 1).
Proof.
  intros Ha. unfold binade. cbv zeta.
  destruct (Qle_bool _ a) eqn:Htest.
  - destruct a as [n d]. cbn [Qnum Qden].
    apply Qmake_pos in Ha.
    pose proof (log2_bounds n Ha) as [_ Hn].
    pose proof (log2_bounds (Zpos d) eq_refl) as [Hd _].
    pose proof (Z.log2_nonneg n) as HL. pose proof (Z.log2_nonneg (Zpos d)) as HM.
    replace (Z.log2 n - Z.log2 (Zpos d) + 1)%Z
      with (Z.log2 n + 1 - Z.log2 (Zpos d))%Z by lia.
    rewrite pow2_minus, !pow2_Z by lia. rewrite Qmake_Qdiv.
    apply Qlt_shift_div_l.
    + change 0 with (inject_Z 0). rewrite <- Zlt_Qlt. lia.
    + unfold Qdiv. rewrite <- Qmult_assoc, (Qmult_comm (/ _)), Qmult_assoc.
      apply Qlt_shift_div_r; [reflexivity|].
      rewrite <- !inject_Z_mult, <- Zlt_Qlt. nia.
  - replace (Z.log2 (Qnum a) - Z.log2 (QDen a) - 1 + 1)%Z
      with (Z.log2 (Qnum a) - Z.log2 (QDen a))%Z by lia.
    apply Qnot_le_lt. intros Hle. apply Qle_bool_iff in Hle. congruence.
Qed.

(** The error of one rounding is at most half a unit in the last place. *)
Lemma double_half_ulp (q : Q) :
  ~ q == 0 ->
  Qabs (double q - q) <= pow2 (Z.max (binade (Qabs q) - 52) (-1074)) * (1 # 2).
Proof.
  intros Hq. unfold double.
  destruct (Qeq_bool q 0) eqn:Hzero; [apply Qeq_bool_eq in Hzero; contradiction|].
  cbv zeta. set (s := Z.max (binade (Qabs q) - 52) (-1074)).
  pose proof (pow2_pos s) as Hp.
  pose proof (nearestEven_error (q / pow2 s)) as Herr.
  assert (inject_Z (nearestEven (q / pow2 s)) * pow2 s - q
          == (inject_Z (nearestEven (q / pow2 s)) - q / pow2 s) * pow2 s) as ->.
  { field. lra. }
  rewrite Qabs_Qmult, (Qabs_pos (pow2 s)) by lra.
  rewrite (Qmult_comm (pow2 s)). apply Qmult_le_compat_r; lra.
Qed.

Lemma Qabs_pos_lt (q : Q) : ~ q == 0 -> 0 < Qabs q.
Proof.
  intros Hq. apply Qabs_case; intros Hs.
  - apply Qnot_le_lt. intros Hle. apply Hq. lra.
  - apply Qnot_le_lt. intros Hle. apply Hq. lra.
Qed.

(** One rounding: a relative error of at most [2^-53], or an absolute
    error of at most [2^-1075] near zero. *)
Lemma double_error (q : Q) :
  Qabs (double q - q) <= Qabs q * pow2 (-53) + pow2 (-1075).
Proof.
  pose proof (Qabs_nonneg q) as Hnonneg.
  pose proof (pow2_pos (-53)) as He. pose proof (pow2_pos (-1075)) as Hn.
  destruct (Qeq_bool q 0) eqn:Hzero.
  - unfold double. rewrite Hzero. apply Qeq_bool_eq in Hzero.
    assert (Qabs (0 - q) == 0) as ->. { rewrite Hzero. reflexivity. }
    nra.
  - apply Qeq_bool_neq in Hzero.
    apply Qle_trans with (1 := double_half_ulp q Hzero).
    pose proof (binade_le (Qabs q) (Qabs_pos_lt q Hzero)) as Hb.
    pose proof (pow2_pos (binade (Qabs q))) as Hpb.
    destruct (Z.max_spec (binade (Qabs q) - 52) (-1074)) as [[_ ->]|[_ ->]].
    + assert (pow2 (-1074) * (1 # 2) == pow2 (-1075)) as -> by reflexivity. nra.
    + replace (binade (Qabs q) - 52)%Z with (binade (Qabs q) + -52)%Z by lia.
      rewrite pow2_plus.
      assert (pow2 (binade (Qabs q)) * pow2 (-52) * (1 # 2)
              == pow2 (binade (Qabs q)) * pow2 (-53)) as ->.
      { rewrite <- Qmult_assoc. apply Qmult_comp; reflexivity. }
      nra.
Qed.

(** In the normal range there is no absolute term. *)
Lemma double_error_normal (q : Q) :
  pow2 (-1022) <= Qabs q ->
  Qabs (double q - q) <= Qabs q * pow2 (-53).
Proof.
  intros Hnormal. pose proof (pow2_pos (-1022)) as Hmin.
  assert (~ q == 0) as Hq.
  { intros Hzero. rewrite Hzero in Hnormal. change (Qabs 0) with 0 in Hnormal. lra. }
  apply Qle_trans with (1 := double_half_ulp q Hq).
  pose proof (binade_le (Qabs q) (Qabs_pos_lt q Hq)) as Hb.
  pose proof (binade_lt (Qabs q) (Qabs_pos_lt q Hq)) as Hlt.
  assert (-1022 < binade (Qabs q) + 1)%Z as He.
  { apply (Qpower_lt_compat_l_inv 2); [|reflexivity]. fold (pow2 (-1022)).
    fold (pow2 (binade (Qabs q) + 1)). lra. }
  rewrite Z.max_l by lia.
  replace (binade (Qabs q) - 52)%Z with (binade (Qabs q) + -52)%Z by lia.
  rewrite pow2_plus.
  assert (pow2 (binade (Qabs q)) * pow2 (-52) * (1 # 2)
          == pow2 (binade (Qabs q)) * pow2 (-53)) as ->.
  { rewrite <- Qmult_assoc. apply Qmult_comp; reflexivity. }
  pose proof (pow2_pos (-53)). nra.
Qed.

(** The rounding errors of the operations of lines 323-332. *)

Lemma Qabs_cases (x : Q) : 0 <= Qabs x /\ (Qabs x == x \/ Qabs x == - x).
Proof.
  split; [apply Qabs_nonneg|].
  destruct (Qlt_le_dec x 0) as [Hneg|Hpos].
  - right. apply Qabs_neg. lra.
  - left. by apply Qabs_pos.
Qed.

(** [Qabs x] as a number that is [x] or [- x]. *)
Ltac absolute x :=
  let Hnonneg := fresh "Hnonneg" in
  let Hsign := fresh "Hsign" in
  destruct (Qabs_cases x) as [Hnonneg [Hsign|Hsign]].

Lemma double_between (q : Q) :
  q - (Qabs q * (1 # 9007199254740992) + pow2 (-1075)) <= double q
  /\ double q <= q + (Qabs q * (1 # 9007199254740992) + pow2 (-1075)).
Proof.
  pose proof (double_error q) as Herr.
  change (pow2 (-53)) with (1 # 9007199254740992) in Herr.
  apply Qabs_Qle_condition in Herr. lra.
Qed.

Lemma normal_above (q : Q) : (1 # 1099511627776) <= q -> pow2 (-1022) <= Qabs q.
Proof.
  intros Hq. rewrite Qabs_pos by lra.
  apply Qle_trans with (1 # 1099511627776); [|exact Hq]. vm_compute. discriminate.
Qed.

Lemma scaled_height_error (H W : Q) :
  450 < W -> W <= pow2 32 -> 1 <= H ->
  Qabs (double (H * double (450 / W)) - H * (450 / W)) <= H * (450 / W) * pow2 (-51).
Proof.
  intros Hwide Hmax Hone.
  change (pow2 32) with 4294967296 in Hmax.
  change (pow2 (-51)) with (1 # 2251799813685248).
  assert ((1 # 549755813888) <= 450 / W) as HR.
  { apply Qle_shift_div_l; lra. }
  set (R := 450 / W) in *. clearbody R.
  pose proof (double_error_normal R) as Hr.
  rewrite (Qabs_pos R) in Hr by lra.
  change (pow2 (-53)) with (1 # 9007199254740992) in Hr.
  specialize (Hr ltac:(apply Qle_trans with (1 # 549755813888);
                        [vm_compute; discriminate|exact HR])).
  apply Qabs_Qle_condition in Hr.
  set (r := double R) in *. clearbody r.
  assert ((1 # 1099511627776) <= H * r) as Hq by nra.
  pose proof (double_error_normal (H * r) (normal_above _ Hq)) as Ht.
  rewrite (Qabs_pos (H * r)) in Ht by lra.
  change (pow2 (-53)) with (1 # 9007199254740992) in Ht.
  apply Qabs_Qle_condition in Ht.
  set (t := double (H * r)) in *. clearbody t.
  apply Qabs_Qle_condition. nra.
Qed.

Lemma centred_error (bc w : Q) :
  Qabs (double (bc - double (w / 2)) + w / 2 - bc)
  <= (Qabs bc + Qabs w) * pow2 (-52) + pow2 (-1073).
Proof.
  change (pow2 (-52)) with (1 # 4503599627370496).
  assert (pow2 (-1073) == 4 * pow2 (-1075)) as -> by reflexivity.
  pose proof (pow2_pos (-1075)) as Heta.
  unfold Qdiv. change (/ 2) with (1 # 2).
  destruct (double_between (w * (1 # 2))) as [Ha1 Ha2].
  destruct (double_between (bc - double (w * (1 # 2)))) as [Hx1 Hx2].
  apply Qabs_Qle_condition.
  absolute bc; absolute w; absolute (w * (1 # 2));
    absolute (bc - double (w * (1 # 2))); lra.
Qed.

Lemma lower_edge_error (ly t : Q) :
  Qabs (double (double (double (ly - 8) - t) + 15) + t - (ly + 7))
  <= (Qabs ly + Qabs t + 23) * pow2 (-51) + pow2 (-1073).
Proof.
  change (pow2 (-51)) with (1 # 2251799813685248).
  assert (pow2 (-1073) == 4 * pow2 (-1075)) as -> by reflexivity.
  pose proof (pow2_pos (-1075)) as Heta.
  assert (pow2 (-1075) <= 1) as Hsmall by (vm_compute; discriminate).
  destruct (double_between (ly - 8)) as [Ha1 Ha2].
  destruct (double_between (double (ly - 8) - t)) as [Hb1 Hb2].
  destruct (double_between (double (double (ly - 8) - t) + 15)) as [Hc1 Hc2].
  apply Qabs_Qle_condition.
  absolute ly; absolute t; absolute (ly - 8); absolute (double (ly - 8) - t);
    absolute (double (double (ly - 8) - t) + 15); lra.
Qed.

End DoubleFacts.

(** X7.  A signature image that loads is drawn once and nothing is
    logged.  It is never wider than 450 px: an image within that width
    keeps its size, a wider one is drawn 450 px wide and as high as the
    two double operations of lines 324-326 make it, which for an image
    between 1 and [2^32] px high and at most [2^32] px wide is within a
    relative error of [2^-51] of the proportional height.  Up to the
    rounding of the operations of lines 329-332 (on finite doubles), it is
    centred on the signature block and its lower edge is 7 px below the
    signature line. *)
Theorem signature_is_scaled (h : Host) (blockCenterX lineY_pos : Q) (sigImg : Image) :
  loadImage h "assets/signature.png" = Some sigImg ->
  exists x y w t : Q,
    appends (drawSignatureImage h blockCenterX lineY_pos) (Ok tt)
            [DrawImage (FromImage sigImg) x y w t] []
    /\ (w <= 450)%Q
    /\ (width sigImg <= 450 -> w = width sigImg /\ t = height sigImg)%Q
    /\ (450 < width sigImg ->
        w = 450 /\ t = double (height sigImg * double (450 / width sigImg)))%Q
    /\ (450 < width sigImg -> width sigImg <= pow2 32 ->
        1 <= height sigImg -> height sigImg <= pow2 32 ->
        Qabs (t - height sigImg * (450 / width sigImg))
        <= height sigImg * (450 / width sigImg) * pow2 (-51))%Q
    /\ (Qabs (x + w / 2 - blockCenterX)
        <= (Qabs blockCenterX + Qabs w) * pow2 (-52) + pow2 (-1073))%Q
    /\ (Qabs (y + t - (lineY_pos + 7))
        <= (Qabs lineY_pos + Qabs t + 23) * pow2 (-51) + pow2 (-1073))%Q.
Proof.
  intros Hload. unfold drawSignatureImage, awaitImage. rewrite Hload. cbv zeta.
  eexists _, _, _, _. split.
  { apply appends_tryCatch_ok.
    apply (appends_bind _ _ sigImg _ [] [_] [] []); [apply appends_ret|apply appends_paint]. }
  split; [|split; [|split; [|split; [|split; [apply centred_error|apply lower_edge_error]]]]].
  - destruct (Qle_bool (width sigImg) 450) eqn:Hw; cbn [negb]; [|apply Qle_refl].
    by apply Qle_bool_iff.
  - intros Hle. apply Qle_bool_iff in Hle. rewrite Hle. by split.
  - intros Hwide. destruct (Qle_bool (width sigImg) 450) eqn:Hw; cbn [negb]; [|by split].
    apply Qle_bool_iff in Hw. exfalso. by apply (Qlt_not_le _ _ Hwide).
  - intros Hwide Hmax Hone _.
    destruct (Qle_bool (width sigImg) 450) eqn:Hw; cbn [negb].
    + apply Qle_bool_iff in Hw. exfalso. by apply (Qlt_not_le _ _ Hwide).
    + by apply scaled_height_error.
Qed.

(** ** A rejected image load that is caught *)

Lemma bind_step {A B} (d : Draw A) (k : A -> Draw B) (a : A) (c c1 : Canvas) :
  d c = Done a c1 -> (d ≫= k) c = k a c1.
Proof. intros Hd. unfold mbind, draw_bind. by rewrite Hd. Qed.

Lemma awaitImage_withoutImage (h : Host) (source s : string) :
  s <> source -> awaitImage (withoutImage h source) s = awaitImage h s.
Proof.
  intros Hs. unfold awaitImage, withoutImage. cbn [loadImage].
  destruct (String.eqb_spec s source); [congruence|reflexivity].
Qed.

Lemma awaitImage_rejected (h : Host) (source : string) :
  awaitImage (withoutImage h source) source = mthrow LoadError.
Proof. unfold awaitImage, withoutImage. cbn [loadImage]. by rewrite String.eqb_refl. Qed.

Section OtherImages.
Variable h : Host.
Variable source : string.

Lemma drawSignatureBlock_other (lang : Lang) :
  "assets/signature.png"%string <> source ->
  drawSignatureBlock (withoutImage h source) lang = drawSignatureBlock h lang.
Proof.
  intros Hs. unfold drawSignatureBlock, drawSignatureImage.
  by rewrite (awaitImage_withoutImage h source _ Hs).
Qed.

Lemma drawPhoto_other (photo : string) :
  photo <> source -> drawPhoto (withoutImage h source) photo = drawPhoto h photo.
Proof. intros Hs. unfold drawPhoto. by rewrite (awaitImage_withoutImage h source _ Hs). Qed.

Lemma drawQr_other (user : Student) :
  qrImgSrc (makeQR h (qrUrl user)) <> Some source ->
  drawQr (withoutImage h source) user = drawQr h user.
Proof.
  intros Hs. unfold drawQr. cbn [makeQR withoutImage].
  destruct (qrImgSrc (makeQR h (qrUrl user))) as [[|c s]|]; try reflexivity.
  rewrite (awaitImage_withoutImage h source (String c s)); [reflexivity|congruence].
Qed.

End OtherImages.

Lemma paints_bind {A B} (d : Draw A) (k : A -> Draw B) :
  paints d -> (forall a, paints (k a)) -> paints (d ≫= k).
Proof.
  intros ([a|e] & ops & Hd) Hk.
  - destruct (Hk a) as (r & ops' & Hka).
    exists r, (ops ++ ops'). by apply (appends_bind d k a r ops ops' [] []).
  - exists (Threw e), ops. by apply appends_bind_threw.
Qed.

Lemma paints_paint (op : DrawOp) : paints (paint op).
Proof. exists (Ok tt), [op]. apply appends_paint. Qed.

Lemma paints_ret {A} (a : A) : paints (mret a : Draw A).
Proof. exists (Ok a), []. apply appends_ret. Qed.

Lemma paints_awaitImage (h : Host) (source : string) : paints (awaitImage h source).
Proof.
  unfold awaitImage. destruct (loadImage h source) as [img|].
  - apply paints_ret.
  - exists (Threw LoadError), []. apply appends_throw.
Qed.

Lemma paints_writes {A} (d : Draw A) : paints d -> writes d.
Proof. intros (r & ops & Hd). by exists r, ops, []. Qed.

Lemma paints_returned {A} (d : Draw A) (a : A) (c c' : Canvas) :
  paints d ->
  d c = Done a c' ->
  exists ops : list DrawOp,
    appends d (Ok a) ops [] /\ painted c' = painted c ++ ops /\ console c' = console c.
Proof.
  intros Hd Hrun.
  destruct (writes_returned d a c c' (paints_writes d Hd) Hrun)
    as (ops & logs & Happ & Hops & Hlogs).
  destruct Hd as (r & ops' & Hd). pose proof (Hd c) as Hc. rewrite Hrun in Hc.
  destruct r as [a'|e]; [|discriminate]. injection Hc as -> Hc.
  exists ops'. split; [exact Hd|]. rewrite Hc. simpl. by rewrite app_nil_r.
Qed.

Section Writers.
Variable h : Host.

Lemma writes_drawText text x y size font align weight :
  writes (drawText h text x y size font align weight).
Proof. unfold drawText. auto with canvas. Qed.

Lemma writes_drawCardBody : writes drawCardBody.
Proof. unfold drawCardBody. auto 10 with canvas. Qed.

Lemma writes_drawPhoto (photo : string) : writes (drawPhoto h photo).
Proof. unfold drawPhoto. auto 10 with canvas. Qed.

Lemma paints_drawCardLines (lines : list FitLine) (lh : Z) (y : Q) :
  paints (drawCardLines lines lh y).
Proof.
  destruct (appends_drawCardLines lines lh y) as (ops & Hops & _). by exists (Ok tt), ops.
Qed.

Lemma paints_drawCardName (user : Student) : paints (drawCardName h user).
Proof.
  unfold drawCardName. destruct (CardName.layout _ _).
  - apply paints_paint.
  - apply paints_drawCardLines.
Qed.

Lemma paints_drawQr (user : Student) : paints (drawQr h user).
Proof.
  unfold drawQr. apply paints_bind; [apply paints_paint|]. intros _.
  destruct (qrImgSrc _) as [[|c s]|]; try (destruct (qrHasCanvas _));
    try apply paints_paint; try apply paints_ret.
  apply paints_bind; [apply paints_awaitImage|]. intros img. apply paints_paint.
Qed.

(** What follows the photo. *)
Lemma paints_after_photo (user : Student) : paints (drawCardName h user ;; drawQr h user).
Proof. apply paints_bind; [apply paints_drawCardName|intros _; apply paints_drawQr]. Qed.

(** What follows the signature block. *)
Lemma writes_after_signature (user : Student) (photo : string) :
  writes (drawCardBody ;; drawPhoto h photo ;; drawCardName h user ;; drawQr h user).
Proof.
  apply writes_bind; [apply writes_drawCardBody|intros _].
  apply writes_bind; [apply writes_drawPhoto|intros _].
  apply paints_writes, paints_after_photo.
Qed.

Lemma appends_drawPhoto_loaded (photo : string) (userPhoto : Image) :
  loadImage h photo = Some userPhoto ->
  appends (drawPhoto h photo) (Ok tt)
          [FillRect (photoX - 10) (photoY - 10) (photoW + 20) (photoH + 20);
           DrawImage (FromImage userPhoto) photoX photoY photoW photoH] [].
Proof.
  intros Hload. unfold drawPhoto, awaitImage. rewrite Hload.
  apply (appends_bind _ _ tt _ [_] [_] [] []); [apply appends_paint|].
  apply appends_tryCatch_ok.
  apply (appends_bind _ _ userPhoto _ [] [_] [] []); [apply appends_ret|apply appends_paint].
Qed.

Lemma appends_drawPhoto_rejected (photo : string) :
  loadImage h photo = None ->
  appends (drawPhoto h photo) (Ok tt)
          [FillRect (photoX - 10) (photoY - 10) (photoW + 20) (photoH + 20)]
          ["Failed to load user photo:"%string].
Proof.
  intros Hload. unfold drawPhoto, awaitImage. rewrite Hload.
  apply (appends_bind _ _ tt _ [_] [] [] [_]); [apply appends_paint|].
  apply (appends_tryCatch_threw _ _ LoadError _ [] [] [] [_]); [|apply appends_consoleLog].
  apply appends_bind_threw, appends_throw.
Qed.

Lemma appends_drawSignatureImage_loaded (x y : Q) (sigImg : Image) :
  loadImage h "assets/signature.png" = Some sigImg ->
  exists op : DrawOp, appends (drawSignatureImage h x y) (Ok tt) [op] [].
Proof.
  intros Hload. unfold drawSignatureImage, awaitImage. rewrite Hload. cbv zeta.
  eexists. apply appends_tryCatch_ok.
  apply (appends_bind _ _ sigImg _ [] [_] [] []); [apply appends_ret|apply appends_paint].
Qed.

Lemma appends_drawSignatureImage_rejected (x y : Q) :
  loadImage h "assets/signature.png" = None ->
  appends (drawSignatureImage h x y) (Ok tt) [] ["Signature image failed to load"%string].
Proof.
  intros Hload. unfold drawSignatureImage, awaitImage. rewrite Hload.
  apply (appends_tryCatch_threw _ _ LoadError _ [] [] [] [_]); [|apply appends_consoleLog].
  apply appends_bind_threw, appends_throw.
Qed.

End Writers.

(** The stages of [compose] that returned, one after the other. *)
Ltac returned Hrun c H :=
  apply bind_returned in Hrun as ([] & c & H & Hrun).

Ltac replay H := erewrite bind_step by exact H; cbv beta.

(** X8.  The photo is not essential to a certificate.  If the composition
    returns with a photo that loads, it also returns when the load of
    that photo is rejected; it then paints the same things in the same
    order, except for the photo itself, whose slot stays white, and logs
    one more line. *)
Theorem rejected_photo_is_local (h : Host) (user : Student) (photo : string) (lang : Lang)
        (userPhoto : Image) (c : Canvas) :
  photo <> "assets/signature.png"%string ->
  qrImgSrc (makeQR h (qrUrl user)) <> Some photo ->
  loadImage h photo = Some userPhoto ->
  renderCertificate h user photo lang = Done tt c ->
  exists before after : list DrawOp,
    painted c = before ++ DrawImage (FromImage userPhoto) photoX photoY photoW photoH :: after
    /\ renderCertificate (withoutImage h photo) user photo lang
       = Done tt (mkCanvas (before ++ after)
                           (console c ++ ["Failed to load user photo:"%string])).
Proof.
  intros Hsig Hqr Hload Hrun. unfold renderCertificate, compose in *.
  rewrite drawSignatureBlock_other, drawQr_other by congruence.
  returned Hrun c1 H1. returned Hrun c2 H2. returned Hrun c3 H3. returned Hrun c4 H4.
  returned Hrun c5 H5. returned Hrun c6 H6. returned Hrun c7 H7. returned Hrun c8 H8.
  returned Hrun c9 H9.
  destruct (paints_returned _ _ _ _ (paints_after_photo h user) Hrun)
    as (ops & Hafter & Hops & Hlogs).
  rewrite (appends_drawPhoto_loaded h photo userPhoto Hload c8) in H9.
  injection H9 as <-. cbn [painted console] in Hops, Hlogs.
  exists (painted c8 ++ [FillRect (photoX - 10) (photoY - 10) (photoW + 20) (photoH + 20)]),
         ops.
  split; [rewrite Hops; by rewrite <- !app_assoc|].
  replay H1. replay H2. replay H3. replay H4. replay H5. replay H6. replay H7. replay H8.
  unfold mbind at 1, draw_bind at 1.
  rewrite (appends_drawPhoto_rejected (withoutImage h photo) photo).
  - change (drawCardName (withoutImage h photo) user) with (drawCardName h user).
    rewrite (Hafter _). cbn [painted console]. rewrite Hlogs. by rewrite !app_nil_r.
  - unfold withoutImage. cbn [loadImage]. by rewrite String.eqb_refl.
Qed.

(** X9.  Nor is the signature image.  If the composition returns with a
    signature image that loads, it also returns when that load is
    rejected; it then paints the same things in the same order, except
    for the signature image, and logs one more line, at the place of the
    image. *)
Theorem rejected_signature_is_local (h : Host) (user : Student) (photo : string)
        (lang : Lang) (sigImg : Image) (c : Canvas) :
  photo <> "assets/signature.png"%string ->
  qrImgSrc (makeQR h (qrUrl user)) <> Some "assets/signature.png"%string ->
  loadImage h "assets/signature.png" = Some sigImg ->
  renderCertificate h user photo lang = Done tt c ->
  exists (before after : list DrawOp) (image : DrawOp) (logsBefore logsAfter : list string),
    painted c = before ++ image :: after
    /\ (exists x y w t, image = DrawImage (FromImage sigImg) x y w t)
    /\ console c = logsBefore ++ logsAfter
    /\ renderCertificate (withoutImage h "assets/signature.png") user photo lang
       = Done tt (mkCanvas (before ++ after)
                           (logsBefore ++ "Signature image failed to load"%string
                                       :: logsAfter)).
Proof.
  intros Hphoto Hqr Hload Hrun. unfold renderCertificate, compose in *.
  rewrite drawPhoto_other, drawQr_other by congruence.
  returned Hrun c1 H1. returned Hrun c2 H2. returned Hrun c3 H3. returned Hrun c4 H4.
  returned Hrun c5 H5. returned Hrun c6 H6. returned Hrun c7 H7.
  destruct (writes_returned _ _ _ _ (writes_after_signature h user photo) Hrun)
    as (ops & logs & Hafter & Hops & Hlogs).
  unfold drawSignatureBlock in H7. cbv zeta in H7.
  apply bind_returned in H7 as ([] & c6' & Himage & Hlegend).
  set (roleWidth := metrics h (mkFont "bold" 45 (uiFont lang)) (role (t lang))) in *.
  set (blockCenterX := (footerRightX - roleWidth / 2)%Q) in *.
  set (lineY_pos := (footerY - 20)%Q) in *.
  assert (writes (paint (StrokeLine (blockCenterX - roleWidth / 2) lineY_pos
                                     (blockCenterX + roleWidth / 2) lineY_pos) ;;
                  paint (FillText "Rohini Kumar Barla" blockCenterX (lineY_pos + 50)
                           (mkFont "bold" 50 "Times New Roman") AlignCenter) ;;
                  drawText h (role (t lang)) blockCenterX (lineY_pos + 50 + 50) 45
                           (uiFont lang) AlignCenter "bold" ;;
                  mret tt)) as Hwrites by auto 10 using writes_drawText with canvas.
  destruct (writes_returned _ _ _ _ Hwrites Hlegend)
    as (opsL & logsL & Hlegend' & HopsL & HlogsL).
  pose proof Hload as Himg.
  unfold drawSignatureImage, awaitImage in Himage. rewrite Hload in Himage.
  cbv zeta in Himage. unfold tryCatch, mbind, draw_bind, mret, draw_ret, paint in Himage.
  injection Himage as <-. cbn [painted console] in HopsL, HlogsL.
  eexists (painted c6), (opsL ++ ops), _, (console c6), (logsL ++ logs).
  split; [rewrite Hops, HopsL; rewrite <- !app_assoc; reflexivity|].
  split; [by eexists _, _, _, _|].
  split; [rewrite Hlogs, HlogsL; by rewrite <- !app_assoc|].
  replay H1. replay H2. replay H3. replay H4. replay H5. replay H6.
  unfold mbind at 1, draw_bind at 1.
  unfold drawSignatureBlock. cbv zeta.
  change (metrics (withoutImage h "assets/signature.png")) with (metrics h).
  fold roleWidth. fold blockCenterX. fold lineY_pos.
  unfold mbind at 1, draw_bind at 1.
  rewrite (appends_drawSignatureImage_rejected (withoutImage h "assets/signature.png")).
  - change (drawText (withoutImage h "assets/signature.png")) with (drawText h).
    rewrite (Hlegend' _). cbn [painted console].
    change (drawCardName (withoutImage h "assets/signature.png") user)
      with (drawCardName h user).
    rewrite (Hafter _). cbn [painted console].
    by rewrite !app_nil_r, <- !app_assoc.
  - unfold withoutImage. cbn [loadImage]. reflexivity.
Qed.

(** ** The rounded rectangle *)

(** X10.  With radii between 0 and both sides of the rectangle, every
    point of the outline, control points included, is inside the rectangle;
    the last curve ends where the outline started, so that closing the
    path adds no segment. *)
Theorem roundRect_stays_in_box (x y width height : Q) (radius : RoundRect.RadiusArg) :
  Forall (fun c => 0 <= c /\ c <= width /\ c <= height)%Q
         [RoundRect.tl (RoundRect.corners radius); RoundRect.tr (RoundRect.corners radius);
          RoundRect.br (RoundRect.corners radius); RoundRect.bl (RoundRect.corners radius)] ->
  Forall (RoundRect.inBox x y width height)
         (flat_map RoundRect.pointsOf (RoundRect.roundRect x y width height radius))
  /\ RoundRect.penAfter None None
       (removelast (RoundRect.roundRect x y width height radius))
     = Some (x + RoundRect.tl (RoundRect.corners radius), y)%Q
  /\ RoundRect.penAfter None None (RoundRect.roundRect x y width height radius)
     = Some (x + RoundRect.tl (RoundRect.corners radius), y)%Q.
Proof.
  intros Hr. set (r := RoundRect.corners radius) in *.
  apply List.Forall_cons_iff in Hr as [Htl Hr].
  apply List.Forall_cons_iff in Hr as [Htr Hr].
  apply List.Forall_cons_iff in Hr as [Hbr Hr].
  apply List.Forall_cons_iff in Hr as [Hbl _].
  split; [|split; reflexivity].
  unfold RoundRect.roundRect. fold r. cbn [flat_map RoundRect.pointsOf app].
  repeat (apply List.Forall_cons; [unfold RoundRect.inBox; cbn [fst snd]; lra|]).
  apply List.Forall_nil.
Qed.

(** ** Photo files *)

Lemma append_nil_r (s : string) : s +:+ EmptyString = s.
Proof. induction s as [|c s IH]; [reflexivity|]. rewrite append_cons. by rewrite IH. Qed.

Lemma eqb_append_head (b s u : string) :
  String.eqb (b +:+ s) (b +:+ u) = String.eqb s u.
Proof.
  induction b as [|c b IH]; [reflexivity|].
  rewrite !append_cons. simpl. by rewrite Ascii.eqb_refl.
Qed.

Lemma eqb_append_self (b s : string) :
  String.eqb (b +:+ s) b = String.eqb s EmptyString.
Proof. rewrite <- (append_nil_r b) at 2. apply eqb_append_head. Qed.

Lemma eqb_self_append (b s : string) :
  String.eqb b (b +:+ s) = String.eqb EmptyString s.
Proof. rewrite <- (append_nil_r b) at 1. apply eqb_append_head. Qed.

Lemma length_append (s u : string) :
  String.length (s +:+ u) = (String.length s + String.length u)%nat.
Proof. induction s as [|c s IH]; [reflexivity|]. rewrite append_cons. simpl. by rewrite IH. Qed.

Lemma eqb_false_length (s u : string) :
  String.length s <> String.length u -> String.eqb s u = false.
Proof. intros Hlen. apply String.eqb_neq. congruence. Qed.

Lemma length_lowerString (s : string) :
  String.length (PhotoFiles.lowerString s) = String.length s.
Proof. induction s as [|c s IH]; [reflexivity|]. simpl. by rewrite IH. Qed.

Lemma isPhotoExtension_length (s : string) :
  PhotoFiles.isPhotoExtension s = true ->
  String.length s = 4%nat \/ String.length s = 5%nat.
Proof.
  unfold PhotoFiles.isPhotoExtension. rewrite <- (length_lowerString s).
  intros H. apply orb_true_iff in H as [H|H]; [apply orb_true_iff in H as [H|H]|];
    apply String.eqb_eq in H; rewrite H; auto.
Qed.

Lemma isPhotoExtension_longer (c : ascii) (e : string) :
  PhotoFiles.isPhotoExtension e = true -> PhotoFiles.isPhotoExtension (String c e) = false.
Proof.
  unfold PhotoFiles.isPhotoExtension. cbn [PhotoFiles.lowerString].
  intros H. apply orb_true_iff in H as [H|H]; [apply orb_true_iff in H as [H|H]|];
    apply String.eqb_eq in H; rewrite H; cbn;
    destruct (Ascii.eqb (PhotoFiles.lowerChar c) "."); reflexivity.
Qed.

(** The match of the pattern in [base ++ extension] is the extension. *)
Lemma beforeExtension_append (base e : string) :
  PhotoFiles.isPhotoExtension e = true ->
  PhotoFiles.beforeExtension (base +:+ e) = Some base.
Proof.
  intros He. induction base as [|c base IH].
  - change (EmptyString +:+ e) with e.
    destruct e; cbn [PhotoFiles.beforeExtension]; by rewrite He.
  - rewrite append_cons. cbn [PhotoFiles.beforeExtension]. rewrite IH. cbn [option_map].
    assert (PhotoFiles.isPhotoExtension (String c (base +:+ e)) = false) as ->; [|reflexivity].
    destruct base as [|c' base]; [by apply isPhotoExtension_longer|].
    destruct (PhotoFiles.isPhotoExtension (String c (String c' base +:+ e))) eqn:Hx;
      [|reflexivity].
    apply isPhotoExtension_length in Hx. apply isPhotoExtension_length in He.
    rewrite append_cons in Hx. cbn [String.length] in Hx. rewrite length_append in Hx. lia.
Qed.

Lemma existsb_seen (x : string) (seen : list string) :
  existsb (String.eqb x) seen = true <-> In x seen.
Proof.
  rewrite existsb_exists. split.
  - intros (y & Hy & Heq). apply String.eqb_eq in Heq. by subst.
  - intros Hx. exists x. split; [assumption|apply String.eqb_refl].
Qed.

Lemma uniqueFrom_In (array : list string) : forall (seen : list string) (x : string),
  In x (PhotoFiles.uniqueFrom seen array) <-> In x array /\ ~ In x seen.
Proof.
  induction array as [|y array IH]; intros seen x; cbn [PhotoFiles.uniqueFrom].
  - simpl. tauto.
  - destruct (existsb (String.eqb y) seen) eqn:Hseen.
    + apply existsb_seen in Hseen. rewrite IH. simpl. split; [tauto|].
      intros [[<-|Hin] Hnot]; tauto.
    + assert (~ In y seen) as Hy.
      { intros Hin. apply existsb_seen in Hin. congruence. }
      simpl. rewrite IH. simpl. split.
      * intros [<-|[Hin Hnot]]; tauto.
      * intros [[<-|Hin] Hnot]; [tauto|].
        destruct (String.eqb_spec y x); [tauto|]. right. tauto.
Qed.

Lemma uniqueFrom_NoDup (array : list string) : forall seen : list string,
  List.NoDup (PhotoFiles.uniqueFrom seen array).
Proof.
  induction array as [|y array IH]; intros seen; cbn [PhotoFiles.uniqueFrom].
  - constructor.
  - destruct (existsb (String.eqb y) seen); [apply IH|].
    constructor; [|apply IH]. rewrite uniqueFrom_In. simpl. tauto.
Qed.

(** X11.  The file names tried for a photo: the name as given comes
    first; no name is tried twice; they are the names of the array built
    from the given name, and at most seven. *)
Theorem photo_candidates (filename : string) :
  head (PhotoFiles.uniqueExtensions filename) = Some filename
  /\ List.NoDup (PhotoFiles.uniqueExtensions filename)
  /\ (forall name, In name (PhotoFiles.uniqueExtensions filename)
                   <-> In name (PhotoFiles.extensions filename))
  /\ (length (PhotoFiles.uniqueExtensions filename) <= 7)%nat.
Proof.
  split; [reflexivity|]. split; [apply uniqueFrom_NoDup|].
  assert (forall name, In name (PhotoFiles.uniqueExtensions filename)
                       <-> In name (PhotoFiles.extensions filename)) as Hsame.
  { intros name. unfold PhotoFiles.uniqueExtensions. rewrite uniqueFrom_In. simpl. tauto. }
  split; [exact Hsame|].
  set (base := match PhotoFiles.beforeExtension filename with
               | Some base => base
               | None => filename
               end).
  apply (NoDup_incl_length (l' := [filename; base +:+ ".jpeg"; base +:+ ".jpg";
                                   base +:+ ".JPEG"; base +:+ ".JPG";
                                   base +:+ ".png"; base +:+ ".PNG"])).
  { apply uniqueFrom_NoDup. }
  intros name Hin. apply Hsame in Hin. revert Hin.
  unfold PhotoFiles.extensions, PhotoFiles.replaceExtension, base.
  destruct (PhotoFiles.beforeExtension filename) as [b|]; rewrite ?append_nil_r;
    simpl; intuition.
Qed.

(** X12.  The order of the tries.  A name without a recognised extension
    is tried as given, then with [.jpeg], [.jpg], [.png] and [.PNG]
    added, never with [.JPEG] or [.JPG].  The default name of a record
    without a photo column, its id followed by [.jpeg], is tried with the
    six extensions in the order [.jpeg], [.jpg], [.JPEG], [.JPG], [.png],
    [.PNG]. *)
Theorem photo_candidates_in_order (name : string) :
  (PhotoFiles.beforeExtension name = None ->
   PhotoFiles.uniqueExtensions name
   = [name; name +:+ ".jpeg"; name +:+ ".jpg"; name +:+ ".png"; name +:+ ".PNG"])
  /\ PhotoFiles.uniqueExtensions (name +:+ ".jpeg")
     = [name +:+ ".jpeg"; name +:+ ".jpg"; name +:+ ".JPEG"; name +:+ ".JPG";
        name +:+ ".png"; name +:+ ".PNG"].
Proof.
  split.
  - intros Hnone.
    unfold PhotoFiles.uniqueExtensions, PhotoFiles.extensions, PhotoFiles.replaceExtension.
    rewrite Hnone. cbn [PhotoFiles.uniqueFrom existsb orb].
    rewrite ?String.eqb_refl, ?eqb_append_self, ?eqb_self_append, ?eqb_append_head.
    reflexivity.
  - unfold PhotoFiles.uniqueExtensions, PhotoFiles.extensions, PhotoFiles.replaceExtension.
    rewrite (beforeExtension_append name ".jpeg") by reflexivity.
    rewrite append_nil_r. cbn [PhotoFiles.uniqueFrom existsb orb].
    rewrite ?String.eqb_refl, ?eqb_append_head. reflexivity.
Qed.

(** ** Probing for a photo *)

Lemma probe_not_found (fetch : string -> PhotoFiles.Fetched) (base filename : string)
      (names : list string) :
  PhotoFiles.probe fetch base names filename = PhotoFiles.NotFound filename
  <-> Forall (fun name => PhotoFiles.answers fetch (base +:+ name) = false) names.
Proof.
  induction names as [|name names IH]; cbn [PhotoFiles.probe].
  - split; [constructor|reflexivity].
  - rewrite List.Forall_cons_iff, <- IH. unfold PhotoFiles.answers.
    destruct (fetch (base +:+ name)) as [|[|] [| |url]]; split;
      (discriminate || tauto || intros [? ?]; discriminate || (intros ?; split; tauto)).
Qed.

Lemma probe_first_answer (fetch : string -> PhotoFiles.Fetched) (base filename : string)
      (before : list string) (name : string) (after : list string) :
  Forall (fun n => PhotoFiles.answers fetch (base +:+ n) = false) before ->
  PhotoFiles.answers fetch (base +:+ name) = true ->
  PhotoFiles.probe fetch base (before ++ name :: after) filename
  = match fetch (base +:+ name) with
    | PhotoFiles.Response true (PhotoFiles.DataUrl url) => PhotoFiles.Loaded url
    | _ => PhotoFiles.ReaderRejected
    end.
Proof.
  intros Hbefore Hname. induction Hbefore as [|n before Hn _ IH]; cbn [app PhotoFiles.probe].
  - unfold PhotoFiles.answers in Hname.
    destruct (fetch (base +:+ name)) as [|[|] [| |url]]; (discriminate || reflexivity).
  - unfold PhotoFiles.answers in Hn.
    destruct (fetch (base +:+ n)) as [|[|] [| |url]]; (discriminate || exact IH).
Qed.

(** X13.  A photo is reported as not found, under the name that was asked
    for, exactly when none of the candidate files answers: for each of
    them the request fails, the response is not [ok], or its body cannot
    be read. *)
Theorem photo_not_found (fetch : string -> PhotoFiles.Fetched) (photosPath filename : string) :
  PhotoFiles.loadPhotoAsBase64 fetch photosPath filename = PhotoFiles.NotFound filename
  <-> forall name,
        In name (PhotoFiles.extensions filename) ->
        PhotoFiles.answers fetch (PhotoFiles.basePath photosPath +:+ name) = false.
Proof.
  unfold PhotoFiles.loadPhotoAsBase64. rewrite probe_not_found, List.Forall_forall.
  split; intros Hall name Hin; apply Hall.
  - unfold PhotoFiles.uniqueExtensions. rewrite uniqueFrom_In. simpl. tauto.
  - unfold PhotoFiles.uniqueExtensions in Hin. rewrite uniqueFrom_In in Hin. tauto.
Qed.

(** X14.  The first candidate that answers decides: its data URL is
    returned, or the failure of its reader ends the search without any
    other candidate being tried.  The file named in the record is the
    first candidate, so it is the one that is used whenever it answers. *)
Theorem photo_first_answer_wins (fetch : string -> PhotoFiles.Fetched)
        (photosPath filename : string) :
  (forall before name after,
     PhotoFiles.uniqueExtensions filename = before ++ name :: after ->
     Forall (fun n => PhotoFiles.answers fetch (PhotoFiles.basePath photosPath +:+ n) = false)
            before ->
     PhotoFiles.answers fetch (PhotoFiles.basePath photosPath +:+ name) = true ->
     PhotoFiles.loadPhotoAsBase64 fetch photosPath filename
     = match fetch (PhotoFiles.basePath photosPath +:+ name) with
       | PhotoFiles.Response true (PhotoFiles.DataUrl url) => PhotoFiles.Loaded url
       | _ => PhotoFiles.ReaderRejected
       end)
  /\ (forall url,
        fetch (PhotoFiles.basePath photosPath +:+ filename)
        = PhotoFiles.Response true (PhotoFiles.DataUrl url) ->
        PhotoFiles.loadPhotoAsBase64 fetch photosPath filename = PhotoFiles.Loaded url).
Proof.
  split.
  - intros before name after Hnames Hbefore Hname.
    unfold PhotoFiles.loadPhotoAsBase64. rewrite Hnames. by apply probe_first_answer.
  - intros url Hfetch. unfold PhotoFiles.loadPhotoAsBase64.
    change (PhotoFiles.uniqueExtensions filename)
      with (filename :: PhotoFiles.uniqueFrom [filename]
                          (List.tl (PhotoFiles.extensions filename))).
    cbn [PhotoFiles.probe]. by rewrite Hfetch.
Qed.

(** ** White space *)

Lemma trimEnd_idempotent (s : string) : trimEnd (trimEnd s) = trimEnd s.
Proof.
  induction s as [|c s IH]; [reflexivity|]. cbn [trimEnd].
  destruct (trimEnd s) as [|k kept] eqn:Hs.
  - destruct (isWhite c) eqn:Hc; [reflexivity|]. cbn [trimEnd]. by rewrite Hc.
  - cbn [trimEnd]. cbn [trimEnd] in IH. by rewrite IH.
Qed.

Lemma trimStart_startsBlack (s : string) : startsBlack (trimStart s).
Proof.
  induction s as [|c s IH]; [exact I|]. cbn [trimStart].
  destruct (isWhite c) eqn:Hc; [exact IH|exact Hc].
Qed.

Lemma trimStart_black (s : string) : startsBlack s -> trimStart s = s.
Proof. destruct s as [|c s]; [reflexivity|]. simpl. by intros ->. Qed.

Lemma trimEnd_startsBlack (s : string) : startsBlack s -> startsBlack (trimEnd s).
Proof.
  destruct s as [|c s]; [exact id|]. cbn [trimEnd startsBlack]. intros Hc.
  destruct (trimEnd s); [by rewrite Hc|exact Hc].
Qed.

Lemma trim_startsBlack (s : string) : startsBlack (trim s).
Proof. apply trimEnd_startsBlack, trimStart_startsBlack. Qed.

Lemma trim_idempotent (s : string) : trim (trim s) = trim s.
Proof.
  unfold trim at 1. rewrite (trimStart_black (trim s)) by apply trim_startsBlack.
  unfold trim. apply trimEnd_idempotent.
Qed.

Lemma trimEnd_append_black (s : string) (c : ascii) :
  isWhite c = false -> trimEnd (s +:+ String c EmptyString) = s +:+ String c EmptyString.
Proof.
  intros Hc. induction s as [|k s IH].
  - change ((if isWhite c then EmptyString else String c EmptyString) = String c EmptyString).
    by rewrite Hc.
  - rewrite append_cons. cbn [trimEnd]. rewrite IH.
    destruct s; reflexivity.
Qed.

Lemma endsWithSlash_append (s : string) :
  PhotoFiles.endsWithSlash (s +:+ "/") = true.
Proof.
  induction s as [|c s IH]; [reflexivity|]. rewrite append_cons.
  cbn [PhotoFiles.endsWithSlash]. destruct (s +:+ "/") eqn:Hs; [|exact IH].
  destruct s; discriminate.
Qed.

Lemma endsWithSlash_trimEnd (s : string) :
  PhotoFiles.endsWithSlash s = true -> trimEnd s = s.
Proof.
  induction s as [|c s IH]; [discriminate|]. cbn [PhotoFiles.endsWithSlash trimEnd].
  destruct s as [|k s].
  - intros Hc. apply Ascii.eqb_eq in Hc. by subst c.
  - intros Hs. rewrite (IH Hs). reflexivity.
Qed.

(** X15.  The photo directory: the path that is used is the trimmed input,
    with a slash added when it does not end with one; it always ends with
    a slash, and normalising it again changes nothing. *)
Theorem photo_directory_normalised (photosPath : string) :
  PhotoFiles.endsWithSlash (PhotoFiles.basePath photosPath) = true
  /\ PhotoFiles.basePath (PhotoFiles.basePath photosPath) = PhotoFiles.basePath photosPath
  /\ (PhotoFiles.basePath photosPath = trim photosPath
      \/ PhotoFiles.basePath photosPath = trim photosPath +:+ "/").
Proof.
  assert (PhotoFiles.endsWithSlash (PhotoFiles.basePath photosPath) = true) as Hends.
  { unfold PhotoFiles.basePath. cbv zeta.
    destruct (PhotoFiles.endsWithSlash (trim photosPath)) eqn:Hs; [exact Hs|].
    apply endsWithSlash_append. }
  split; [exact Hends|]. split.
  - assert (trim (PhotoFiles.basePath photosPath) = PhotoFiles.basePath photosPath) as Hfix.
    { unfold trim. rewrite trimStart_black.
      - by apply endsWithSlash_trimEnd.
      - unfold PhotoFiles.basePath. cbv zeta.
        destruct (PhotoFiles.endsWithSlash (trim photosPath)).
        + apply trim_startsBlack.
        + pose proof (trim_startsBlack photosPath) as Hb.
          destruct (trim photosPath); [reflexivity|exact Hb]. }
    unfold PhotoFiles.basePath at 1. cbv zeta. rewrite Hfix. by rewrite Hends.
  - unfold PhotoFiles.basePath. cbv zeta.
    destruct (PhotoFiles.endsWithSlash (trim photosPath)); [by left|by right].
Qed.

(** ** The downloaded file *)

Lemma hasWhite_append (s u : string) :
  Viewer.hasWhite (s +:+ u) = Viewer.hasWhite s || Viewer.hasWhite u.
Proof.
  induction s as [|c s IH]; [reflexivity|]. rewrite append_cons. simpl.
  rewrite IH. by rewrite orb_assoc.
Qed.

Lemma hasWhite_underscored (s : string) : forall inRun : bool,
  Viewer.hasWhite (Viewer.underscored inRun s) = false.
Proof.
  induction s as [|c s IH]; intros inRun; [reflexivity|]. cbn [Viewer.underscored].
  destruct (isWhite c) eqn:Hc.
  - destruct inRun; [apply IH|]. cbn [Viewer.hasWhite]. by rewrite IH.
  - cbn [Viewer.hasWhite]. by rewrite Hc, IH.
Qed.

Lemma underscored_black (s : string) : forall inRun : bool,
  Viewer.hasWhite s = false -> Viewer.underscored inRun s = s.
Proof.
  induction s as [|c s IH]; intros inRun; [reflexivity|]. cbn [Viewer.hasWhite Viewer.underscored].
  intros H. apply orb_false_iff in H as [Hc Hs]. rewrite Hc. by rewrite IH.
Qed.

Lemma length_underscored (s : string) : forall inRun : bool,
  (String.length (Viewer.underscored inRun s) <= String.length s)%nat.
Proof.
  induction s as [|c s IH]; intros inRun; [reflexivity|]. cbn [Viewer.underscored].
  pose proof (IH true). pose proof (IH false).
  destruct (isWhite c); [destruct inRun|]; cbn [String.length]; lia.
Qed.

(** X16.  The name of the downloaded file has no white space, whatever
    the name of the student; it is never longer than 16 characters plus
    that name (19 in Telugu); a name without white space appears in it
    unchanged. *)
Theorem download_name_is_one_word (student_name : string) (currentLang : Lang) :
  Viewer.hasWhite (Viewer.downloadName student_name currentLang) = false
  /\ (String.length (Viewer.downloadName student_name currentLang)
      <= String.length student_name
         + match currentLang with en => 16 | te => 19 end)%nat
  /\ (Viewer.hasWhite student_name = false ->
      Viewer.downloadName student_name currentLang
      = "Certificate_" +:+ student_name +:+ Viewer.langSuffix currentLang +:+ ".jpg").
Proof.
  unfold Viewer.downloadName. split; [|split].
  - rewrite !hasWhite_append, hasWhite_underscored. by destruct currentLang.
  - rewrite !length_append. pose proof (length_underscored student_name false).
    destruct currentLang; simpl; lia.
  - intros Hblack. by rewrite underscored_black.
Qed.

(** ** Reading a row *)

Lemma firstFilled_none (row : Row) (names : list string) :
  firstFilled row names = None
  <-> Forall (fun name => truthy (row !! name) = false) names.
Proof.
  induction names as [|name names IH]; cbn [firstFilled].
  - split; [constructor|reflexivity].
  - rewrite List.Forall_cons_iff, <- IH.
    destruct (row !! name) as [[|c s]|]; cbn [truthy]; split;
      (discriminate || tauto || (intros [? ?]; discriminate)).
Qed.

Lemma firstFilled_first (row : Row) (before : list string) (name : string)
      (after : list string) (raw : string) :
  Forall (fun n => truthy (row !! n) = false) before ->
  row !! name = Some raw ->
  raw <> EmptyString ->
  firstFilled row (before ++ name :: after) = Some (trim raw).
Proof.
  intros Hbefore Hname Hraw.
  induction Hbefore as [|n before Hn _ IH]; cbn [app firstFilled].
  - rewrite Hname. destruct raw; [congruence|reflexivity].
  - destruct (row !! n) as [[|c s]|]; (discriminate || exact IH).
Qed.

Lemma firstFilled_trimmed (row : Row) (names : list string) (v : string) :
  firstFilled row names = Some v -> trim v = v.
Proof.
  induction names as [|name names IH]; cbn [firstFilled]; [discriminate|].
  destruct (row !! name) as [[|c s]|]; try exact IH.
  intros [= <-]. apply trim_idempotent.
Qed.

(** X17.  A column is read through its aliases, in the order of
    [COLUMN_MAPS]: the first alias whose cell is present and not empty
    gives the value, trimmed, whatever the later aliases hold; there is no
    value exactly when every alias is absent or empty; and a value never
    has white space around it. *)
Theorem column_aliases_in_order (row : Row) (columnType : ColumnType) :
  (forall before name after raw,
     COLUMN_MAPS columnType = before ++ name :: after ->
     Forall (fun n => truthy (row !! n) = false) before ->
     row !! name = Some raw ->
     raw <> EmptyString ->
     getColumnValue row columnType = Some (trim raw))
  /\ (getColumnValue row columnType = None
      <-> Forall (fun n => truthy (row !! n) = false) (COLUMN_MAPS columnType))
  /\ (forall v, getColumnValue row columnType = Some v -> trim v = v).
Proof.
  unfold getColumnValue. split; [|split].
  - intros before name after raw -> Hbefore Hname Hraw. by apply firstFilled_first.
  - apply firstFilled_none.
  - apply firstFilled_trimmed.
Qed.

Lemma trim_append_black (s : string) (c : ascii) (u : string) :
  trim s = s -> s <> EmptyString ->
  trimEnd (String c u) = String c u ->
  trim (s +:+ String c u) = s +:+ String c u.
Proof.
  intros Hs Hne Hu. unfold trim.
  assert (startsBlack s) as Hblack by (rewrite <- Hs; apply trim_startsBlack).
  rewrite trimStart_black by (destruct s; [congruence|exact Hblack]).
  clear Hs Hblack Hne. induction s as [|k s IH]; [exact Hu|].
  rewrite append_cons. cbn [trimEnd]. rewrite IH.
  destruct s; reflexivity.
Qed.

(** X18.  A student read from a row has a non-empty id without white
    space around it, and that id is also its roll number; its names are
    trimmed; its photo file is never empty, and is the id followed by
    [.jpeg] when the row names no photo. *)
Theorem parsed_student_is_clean (row : Row) (student : Student) :
  parseStudent row = Some student ->
  student_id student <> EmptyString
  /\ trim (student_id student) = student_id student
  /\ rollno student = student_id student
  /\ trim (student_name student) = student_name student
  /\ trim (telugu_name student) = telugu_name student
  /\ photo_filename student <> EmptyString
  /\ trim (photo_filename student) = photo_filename student
  /\ (truthy (getColumnValue row col_photo) = false ->
      photo_filename student = student_id student +:+ ".jpeg").
Proof.
  unfold parseStudent. cbv zeta.
  destruct (getColumnValue row col_student_id) as [[|c id]|] eqn:Hid; try discriminate.
  cbn [truthy negb default].
  pose proof Hid as Hclean. apply firstFilled_trimmed in Hclean.
  intros [= <-]. cbn [student_id rollno student_name telugu_name photo_filename].
  split; [discriminate|]. split; [exact Hclean|]. split; [reflexivity|].
  split; [|split; [apply trim_idempotent|]].
  { destruct (getColumnValue row col_student_name) as [[|k name]|] eqn:Hname;
      cbn [truthy negb default]; try apply trim_idempotent.
    by apply firstFilled_trimmed in Hname. }
  destruct (getColumnValue row col_photo) as [[|k photo]|] eqn:Hphoto;
    cbn [truthy negb default].
  - split; [by destruct id|]. split; [|reflexivity].
    by apply trim_append_black.
  - split; [discriminate|]. split; [|discriminate].
    by apply firstFilled_trimmed in Hphoto.
  - split; [by destruct id|]. split; [|reflexivity].
    by apply trim_append_black.
Qed.

(** X19.  A cell of white space only hides the aliases after it: when the
    first id column that is filled holds nothing but white space, the row
    has no student and is invalid, even if a later id column holds an
    id. *)
Theorem blank_id_hides_later_columns (row : Row) (before : list string) (name : string)
        (after : list string) (raw : string) :
  COLUMN_MAPS col_student_id = before ++ name :: after ->
  Forall (fun n => truthy (row !! n) = false) before ->
  row !! name = Some raw ->
  raw <> EmptyString ->
  trim raw = EmptyString ->
  parseStudent row = None /\ invalidRow row = true.
Proof.
  intros Hnames Hbefore Hname Hraw Hblank.
  assert (parseStudent row = None) as Hnone.
  { unfold parseStudent, getColumnValue. cbv zeta. rewrite Hnames.
    rewrite (firstFilled_first row before name after raw Hbefore Hname Hraw).
    by rewrite Hblank. }
  split; [exact Hnone|]. unfold invalidRow. by rewrite Hnone.
Qed.

(** ** The range of a batch *)

Lemma firstn_capped {A} (n : nat) (l : list A) :
  firstn n l = firstn (Nat.min n (length l)) l.
Proof.
  destruct (Nat.le_ge_cases n (length l)) as [Hle|Hge].
  - by rewrite Nat.min_l.
  - rewrite Nat.min_r by assumption. rewrite firstn_all. by apply firstn_all2.
Qed.

Lemma batch_range (cfg : Settings) (csvData : list Row) :
  (0 <= startIndex cfg)%Z ->
  (0 < batchSize cfg)%Z ->
  batchData cfg csvData
  = firstn (Z.to_nat (batchSize cfg)) (skipn (Z.to_nat (startIndex cfg)) csvData)
  /\ (Z.of_nat (length csvData) <= startIndex cfg -> batchData cfg csvData = [])%Z.
Proof.
  intros Hstart Hsize.
  assert (batchData cfg csvData
          = firstn (Z.to_nat (batchSize cfg)) (skipn (Z.to_nat (startIndex cfg)) csvData))
    as Hsegment.
  { unfold batchData, endIndex, slice, sliceIndex. cbv zeta.
    set (len := length csvData). set (s := startIndex cfg) in *. set (b := batchSize cfg) in *.
    replace (s <? 0)%Z with false by lia.
    replace (Z.min (s + b) (Z.of_nat len) <? 0)%Z with false by lia.
    destruct (Z.le_gt_cases (Z.of_nat len) s) as [Hout|Hin].
    - rewrite !skipn_all2 by (fold len; lia). by rewrite !firstn_nil.
    - replace (Z.min s (Z.of_nat len)) with s by lia.
      rewrite (firstn_capped (Z.to_nat b)). rewrite length_skipn. fold len.
      f_equal. lia. }
  split; [exact Hsegment|].
  intros Hout. rewrite Hsegment, skipn_all2 by lia. apply firstn_nil.
Qed.

(** X20.  With a start index that is not negative and a batch size that
    is positive, the batch is the segment of the sheet that starts at the
    start index and has at most batch-size rows: it is empty exactly when
    the start index is at or beyond the end of the sheet.  Left empty or
    zero, the start index is 0 and the batch size 50. *)
Theorem batch_is_a_segment (cfg : Settings) (csvData : list Row) :
  (0 <= startIndex cfg)%Z ->
  (0 < batchSize cfg)%Z ->
  batchData cfg csvData
  = firstn (Z.to_nat (batchSize cfg)) (skipn (Z.to_nat (startIndex cfg)) csvData)
  /\ (batchData cfg csvData = [] <-> Z.of_nat (length csvData) <= startIndex cfg)%Z
  /\ (startIndexInput cfg = None \/ startIndexInput cfg = Some 0%Z -> startIndex cfg = 0%Z)
  /\ (batchSizeInput cfg = None \/ batchSizeInput cfg = Some 0%Z -> batchSize cfg = 50%Z).
Proof.
  intros Hstart Hsize.
  destruct (batch_range cfg csvData Hstart Hsize) as [Hsegment Hempty].
  split; [exact Hsegment|]. split; [|split].
  - split; [|exact Hempty]. rewrite Hsegment. intros Hnone.
    apply (f_equal (@length Row)) in Hnone.
    rewrite length_firstn, length_skipn in Hnone. cbn [length] in Hnone. lia.
  - unfold startIndex. by intros [-> | ->].
  - unfold batchSize. by intros [-> | ->].
Qed.

(** X21.  A batch never has more rows than the batch size, when that size
    is positive: also with a start index that is negative, which counts
    from the end of the sheet. *)
Theorem batch_within_size (cfg : Settings) (csvData : list Row) :
  (0 < batchSize cfg)%Z ->
  (Z.of_nat (length (batchData cfg csvData)) <= batchSize cfg)%Z.
Proof.
  intros Hsize. unfold batchData, endIndex, slice, sliceIndex. cbv zeta.
  rewrite length_firstn, length_skipn.
  set (len := length csvData). set (s := startIndex cfg). set (b := batchSize cfg) in *.
  destruct (s <? 0)%Z eqn:Hs; destruct (Z.min (s + b) (Z.of_nat len) <? 0)%Z eqn:He; lia.
Qed.

(** ** The locals of a run *)

Lemma skipCount_clicks clicked st : skipCount (clicks clicked st) = skipCount st.
Proof.
  unfold clicks, cancelGeneration. destruct clicked; [|reflexivity].
  by destruct (isGenerating (globals st)).
Qed.

Lemma currentStep_clicks clicked st : currentStep (clicks clicked st) = currentStep st.
Proof.
  unfold clicks, cancelGeneration. destruct clicked; [|reflexivity].
  by destruct (isGenerating (globals st)).
Qed.

Lemma generated_clicks clicked st :
  generatedRollNumbers (clicks clicked st) = generatedRollNumbers st.
Proof.
  unfold clicks, cancelGeneration. destruct clicked; [|reflexivity].
  by destruct (isGenerating (globals st)).
Qed.

Lemma skipped_clicks clicked st :
  skippedRollNumbers (clicks clicked st) = skippedRollNumbers st.
Proof.
  unfold clicks, cancelGeneration. destruct clicked; [|reflexivity].
  by destruct (isGenerating (globals st)).
Qed.

Lemma pdf_clicks clicked st : pdf (clicks clicked st) = pdf st.
Proof. apply clicks_pdf. Qed.

Lemma firstPage_clicks clicked st : firstPage (clicks clicked st) = firstPage st.
Proof. apply clicks_pdf. Qed.

Lemma successCount_clicks clicked st : successCount (clicks clicked st) = successCount st.
Proof. apply clicks_pdf. Qed.

(** Reads the locals through the updates of an iteration. *)
Ltac locals :=
  repeat (progress cbn [pdf firstPage successCount skipCount currentStep
                        generatedRollNumbers skippedRollNumbers
                        log stepDone skip succeeded finally setGlobals
                        addFirstLanguagePage addSecondLanguagePage]
          || rewrite pdf_clicks || rewrite firstPage_clicks
          || rewrite successCount_clicks || rewrite skipCount_clicks
          || rewrite currentStep_clicks || rewrite generated_clicks
          || rewrite skipped_clicks).

(** Closes the arithmetic about the locals after an iteration. *)
Ltac counted :=
  locals; rewrite ?length_app; cbn [andb negb length placeImages];
  rewrite ?andb_true_r, ?andb_false_r; repeat split; lia.

Lemma placeImages_app (a b : list PageImage) : forall (first : bool) (doc : Pdf),
  placeImages first doc (a ++ b)
  = placeImages (first && match a with [] => true | _ => false end)
                (placeImages first doc a) b.
Proof.
  induction a as [|img a IH]; intros first doc; cbn [app placeImages].
  - by rewrite andb_true_r.
  - rewrite IH. rewrite andb_false_r. by destruct a.
Qed.

Section RunFacts.
Variable cfg : Settings.

(** An iteration that goes on to the next row: what it did to the
    locals. *)
Lemma processRow_next sh i row st st' :
  processRow cfg sh i row st = (NextRow, st') ->
  let pages := recordPages cfg sh row in
  let made := if rowComposable cfg sh row then 1%nat else 0%nat in
  pdf st' = placeImages (firstPage st) (pdf st) pages
  /\ firstPage st' = firstPage st && match pages with [] => true | _ => false end
  /\ successCount st' = (successCount st + made)%nat
  /\ (skipCount st' + made = skipCount st + 1)%nat
  /\ length (generatedRollNumbers st') = (length (generatedRollNumbers st) + made)%nat
  /\ (length (skippedRollNumbers st') + made = length (skippedRollNumbers st) + 1)%nat
  /\ (currentStep st' + (if generateTelugu cfg && invalidRow row then 1 else 0)
      = currentStep st + (if generateTelugu cfg then 2 else 1))%nat
  /\ rowHandled cfg sh row = true
  /\ (made <= length pages <= if generateTelugu cfg then 2 * made else made)%nat.
Proof.
  unfold processRow, secondLanguage, recordPages, rowComposable, rowHandled,
    invalidRow, photoUnresolvable.
  intros Hrun. cbv zeta.
  destruct (cancelRequested (globals st)); [discriminate|].
  destruct (parseStudent row) as [student|].
  2:{ injection Hrun as <-. destruct (generateTelugu cfg); counted. }
  destruct (truthy (Some (student_name student))); cbn [negb andb] in *.
  2:{ injection Hrun as <-. destruct (generateTelugu cfg); counted. }
  destruct (loadPhotoAsBase64 sh (photosPath cfg) (photo_filename student)) as [photo|].
  2:{ destruct (skipMissing cfg); [|discriminate]. injection Hrun as <-.
      destruct (generateTelugu cfg); counted. }
  destruct (renderCertificate (hostEnglish sh) student photo en) as [[] canvas|e canvas];
    [|discriminate].
  destruct (generateTelugu cfg); cbn [andb] in *.
  - destruct (truthy (Some (telugu_name student))).
    + destruct (cancelRequested _); [discriminate|].
      destruct (renderCertificate (hostTelugu sh) student photo te) as [[] canvasTe|e canvasTe];
        [|discriminate].
      injection Hrun as <-. counted.
    + injection Hrun as <-. counted.
  - injection Hrun as <-. counted.
Qed.

(** Any iteration: bounds on the counters. *)
Lemma processRow_bounds sh i row st exit st' :
  processRow cfg sh i row st = (exit, st') ->
  (successCount st' + skipCount st' <= successCount st + skipCount st + 1)%nat
  /\ (currentStep st' <= currentStep st + (if generateTelugu cfg then 2 else 1))%nat
  /\ (length (generatedRollNumbers st) = successCount st ->
      length (generatedRollNumbers st') = successCount st')
  /\ (length (skippedRollNumbers st) = skipCount st ->
      length (skippedRollNumbers st') = skipCount st').
Proof.
  unfold processRow, secondLanguage. intros Hrun.
  repeat case_match; injection Hrun as <- <-; locals; rewrite ?length_app;
    cbn [length]; repeat split; lia.
Qed.

Lemma processRows_next host rows : forall i st st',
  processRows cfg host i rows st = (NextRow, st') ->
  let pages := batchPages cfg host i rows in
  let made := countRows (rowComposable cfg) host i rows in
  pdf st' = placeImages (firstPage st) (pdf st) pages
  /\ successCount st' = (successCount st + made)%nat
  /\ (skipCount st' + made = skipCount st + length rows)%nat
  /\ length (generatedRollNumbers st') = (length (generatedRollNumbers st) + made)%nat
  /\ (length (skippedRollNumbers st') + made
      = length (skippedRollNumbers st) + length rows)%nat
  /\ (currentStep st'
      + (if generateTelugu cfg then countRows (fun _ => invalidRow) host i rows else 0)
      = currentStep st + totalSteps cfg rows)%nat
  /\ (forall j row, rows !! j = Some row -> rowHandled cfg (host (i + j)%nat) row = true)
  /\ (made <= length pages <= if generateTelugu cfg then 2 * made else made)%nat.
Proof.
  induction rows as [|row rows IH]; intros i st st' Hrun; cbv zeta.
  - injection Hrun as <-. unfold totalSteps. cbn [batchPages countRows placeImages length].
    repeat split; try (destruct (generateTelugu cfg)); try lia;
      intros j row Hj; discriminate Hj.
  - cbn [processRows] in Hrun.
    destruct (processRow cfg (host i) i row st) as [step st1] eqn:Hstep.
    destruct step; [|discriminate..].
    apply processRow_next in Hstep. cbv zeta in Hstep.
    destruct Hstep as (Hpdf & Hfirst & Hok & Hskip & Hgen & Hskipped & Hstepped
                       & Hhandled & Hpages).
    apply IH in Hrun. cbv zeta in Hrun.
    destruct Hrun as (Hpdf' & Hok' & Hskip' & Hgen' & Hskipped' & Hstepped'
                      & Hhandled' & Hpages').
    unfold totalSteps in *. cbn [batchPages countRows length].
    rewrite placeImages_app, <- Hpdf, <- Hfirst, <- Hpdf', length_app.
    split; [reflexivity|].
    split; [lia|]. split; [lia|]. split; [lia|]. split; [lia|].
    split; [|split].
    + revert Hstepped Hstepped'. destruct (generateTelugu cfg); cbn [andb]; [|lia].
      destruct (invalidRow row); lia.
    + intros [|j] row' Hj.
      * injection Hj as <-. by rewrite Nat.add_0_r.
      * replace (i + S j)%nat with (S i + j)%nat by lia. by apply Hhandled'.
    + revert Hpages Hpages'. destruct (generateTelugu cfg); lia.
Qed.

Lemma processRows_bounds host rows : forall i st exit st',
  processRows cfg host i rows st = (exit, st') ->
  (successCount st' + skipCount st' <= successCount st + skipCount st + length rows)%nat
  /\ (currentStep st' <= currentStep st + totalSteps cfg rows)%nat
  /\ (length (generatedRollNumbers st) = successCount st ->
      length (generatedRollNumbers st') = successCount st')
  /\ (length (skippedRollNumbers st) = skipCount st ->
      length (skippedRollNumbers st') = skipCount st').
Proof.
  induction rows as [|row rows IH]; intros i st exit st' Hrun.
  - injection Hrun as <- <-. unfold totalSteps. cbn [length].
    repeat split; try (destruct (generateTelugu cfg)); (lia || tauto).
  - cbn [processRows] in Hrun.
    destruct (processRow cfg (host i) i row st) as [step st1] eqn:Hstep.
    apply processRow_bounds in Hstep as (Hsum & Hsteps & Hgen & Hskipped).
    assert (totalSteps cfg (row :: rows)
            = (totalSteps cfg rows + if generateTelugu cfg then 2 else 1)%nat) as Htotal.
    { unfold totalSteps. cbn [length]. destruct (generateTelugu cfg); lia. }
    destruct step.
    + apply IH in Hrun as (Hsum' & Hsteps' & Hgen' & Hskipped').
      cbn [length]. rewrite Htotal. repeat split; (lia || tauto).
    + injection Hrun as <- <-. cbn [length]. rewrite Htotal. repeat split; (lia || tauto).
    + injection Hrun as <- <-. cbn [length]. rewrite Htotal. repeat split; (lia || tauto).
Qed.

(** The closing blocks only write to the log and to the flags. *)
Lemma conclude_locals last st :
  successCount (final (conclude cfg last st)) = successCount st
  /\ skipCount (final (conclude cfg last st)) = skipCount st
  /\ currentStep (final (conclude cfg last st)) = currentStep st
  /\ generatedRollNumbers (final (conclude cfg last st)) = generatedRollNumbers st
  /\ skippedRollNumbers (final (conclude cfg last st)) = skippedRollNumbers st.
Proof. unfold conclude. by repeat case_match. Qed.

Lemma conclude_completed last st :
  outcome (conclude cfg last st) = Completed -> cancelRequested (globals st) = false.
Proof. unfold conclude. by repeat case_match. Qed.

Lemma loopEntry_locals host csvData :
  skipCount (loopEntry cfg host csvData) = 0%nat
  /\ currentStep (loopEntry cfg host csvData) = 0%nat
  /\ generatedRollNumbers (loopEntry cfg host csvData) = []
  /\ skippedRollNumbers (loopEntry cfg host csvData) = [].
Proof. unfold loopEntry. locals. by repeat split. Qed.

(** A run that got past the guard and loaded its sheet: how it ended. *)
Lemma generateBatchPDF_cases host g g' report csvData :
  generateBatchPDF cfg host g = (g', Some report) ->
  loadCSVData host = Ok csvData ->
  (batchData cfg csvData = []
   /\ report = caught (Error "No students in the specified range")
                      (loopEntry cfg host csvData))
  \/ (batchData cfg csvData <> []
      /\ exists exit st',
           processRows cfg (stepHost host) 0 (batchData cfg csvData)
                       (loopEntry cfg host csvData) = (exit, st')
           /\ report = match exit with
                       | Throw e => caught e st'
                       | _ => conclude cfg (endIndex cfg csvData) st'
                       end).
Proof.
  intros Hrun Hcsv.
  destruct (isGenerating g) eqn:Hgen.
  { unfold generateBatchPDF in Hrun. rewrite Hgen in Hrun. discriminate. }
  destruct (batchData cfg csvData) as [|row rows] eqn:Hbatch.
  - left. split; [reflexivity|].
    unfold generateBatchPDF in Hrun. rewrite Hgen, Hcsv, Hbatch in Hrun.
    cbn [length Nat.eqb] in Hrun. injection Hrun as _ <-.
    unfold loopEntry. by rewrite Hbatch.
  - right. split; [discriminate|].
    rewrite (generateBatchPDF_loop cfg host g csvData Hgen Hcsv) in Hrun
      by (rewrite Hbatch; discriminate).
    cbv zeta in Hrun. rewrite Hbatch in Hrun.
    destruct (processRows cfg (stepHost host) 0 (row :: rows) (loopEntry cfg host csvData))
      as [exit st'] eqn:Hloop.
    exists exit, st'. split; [reflexivity|].
    injection Hrun as _ <-. by destruct exit.
Qed.

End RunFacts.

(** X22.  The counters of a run, however it ends.  There are as many
    roll numbers in the list of generated certificates as the success
    counter says, and as many entries in the list of skipped records as
    the skip counter says; no more records are counted than the batch
    has; and the progress never goes beyond the total of line 254. *)
Theorem run_counters_are_consistent (cfg : Settings) (host : BatchHost) (g g' : Globals)
        (report : Report) (csvData : list Row) :
  generateBatchPDF cfg host g = (g', Some report) ->
  loadCSVData host = Ok csvData ->
  length (generatedRollNumbers (final report)) = successCount (final report)
  /\ length (skippedRollNumbers (final report)) = skipCount (final report)
  /\ (successCount (final report) + skipCount (final report)
      <= length (batchData cfg csvData))%nat
  /\ (currentStep (final report) <= totalSteps cfg (batchData cfg csvData))%nat.
Proof.
  intros Hrun Hcsv.
  destruct (loopEntry_fresh cfg host csvData) as (_ & _ & Hok0 & _).
  destruct (loopEntry_locals cfg host csvData) as (Hskip0 & Hstep0 & Hgen0 & Hskipped0).
  destruct (generateBatchPDF_cases cfg host g g' report csvData Hrun Hcsv)
    as [[Hbatch ->]|(Hbatch & exit & st' & Hloop & ->)].
  - unfold caught. cbn [final]. locals.
    rewrite Hok0, Hskip0, Hstep0, Hgen0, Hskipped0. repeat split; simpl; lia.
  - apply processRows_bounds in Hloop as (Hsum & Hsteps & Hgen & Hskipped).
    rewrite Hok0, Hskip0, Hstep0, Hgen0, Hskipped0 in *.
    specialize (Hgen eq_refl). specialize (Hskipped eq_refl).
    assert (length (generatedRollNumbers st') = successCount st'
            /\ length (skippedRollNumbers st') = skipCount st'
            /\ (successCount st' + skipCount st' <= length (batchData cfg csvData))%nat
            /\ (currentStep st' <= totalSteps cfg (batchData cfg csvData))%nat) as Hst'
      by (repeat split; (assumption || lia)).
    destruct exit.
    + destruct (conclude_locals cfg (endIndex cfg csvData) st') as (-> & -> & -> & -> & ->).
      exact Hst'.
    + destruct (conclude_locals cfg (endIndex cfg csvData) st') as (-> & -> & -> & -> & ->).
      exact Hst'.
    + unfold caught. cbn [final]. locals. exact Hst'.
Qed.

(** X23.  A run that ends as completed went through every row of the
    batch: every record was either composed or skipped, the composed ones
    being those with a valid row and a photo; no record stopped the run;
    and the progress ends at the total, less one step for every invalid
    row when the second language is asked for. *)
Theorem completed_run_accounts_for_every_row (cfg : Settings) (host : BatchHost)
        (g g' : Globals) (report : Report) (csvData : list Row) :
  generateBatchPDF cfg host g = (g', Some report) ->
  loadCSVData host = Ok csvData ->
  outcome report = Completed ->
  let batch := batchData cfg csvData in
  successCount (final report) = countRows (rowComposable cfg) (stepHost host) 0 batch
  /\ (successCount (final report) + skipCount (final report) = length batch)%nat
  /\ (forall j row, batch !! j = Some row -> rowHandled cfg (stepHost host j) row = true)
  /\ (currentStep (final report)
      + (if generateTelugu cfg
         then countRows (fun _ => invalidRow) (stepHost host) 0 batch else 0)
      = totalSteps cfg batch)%nat.
Proof.
  intros Hrun Hcsv Hdone. cbv zeta.
  destruct (loopEntry_fresh cfg host csvData) as (_ & _ & Hok0 & _).
  destruct (loopEntry_locals cfg host csvData) as (Hskip0 & Hstep0 & Hgen0 & Hskipped0).
  destruct (generateBatchPDF_cases cfg host g g' report csvData Hrun Hcsv)
    as [[Hbatch ->]|(Hbatch & exit & st' & Hloop & ->)]; [discriminate|].
  destruct exit; [| |discriminate].
  - destruct (conclude_locals cfg (endIndex cfg csvData) st') as (-> & -> & -> & _ & _).
    apply processRows_next in Hloop. cbv zeta in Hloop.
    destruct Hloop as (_ & Hok & Hskip & _ & _ & Hsteps & Hhandled & _).
    rewrite Hok0 in Hok. rewrite Hskip0 in Hskip. rewrite Hstep0 in Hsteps.
    repeat split; try lia. exact Hhandled.
  - apply conclude_completed in Hdone. apply processRows_break in Hloop. congruence.
Qed.

(** ** The document of a run *)

(** A run that saved a document ran off the end of its batch, with the
    cancel flag down and at least one record composed. *)
Lemma document_saved (cfg : Settings) (host : BatchHost) (g g' : Globals)
      (report : Report) (csvData : list Row) (file : SavedFile) :
  generateBatchPDF cfg host g = (g', Some report) ->
  loadCSVData host = Ok csvData ->
  producedDocument report = Some file ->
  exists st' : RunState,
    processRows cfg (stepHost host) 0 (batchData cfg csvData) (loopEntry cfg host csvData)
    = (NextRow, st')
    /\ report = conclude cfg (endIndex cfg csvData) st'
    /\ cancelRequested (globals st') = false
    /\ (0 < successCount st')%nat
    /\ file = mkSaved (startIndex cfg) (endIndex cfg csvData - 1) (pdf st').
Proof.
  intros Hrun Hcsv Hfile.
  destruct (generateBatchPDF_cases cfg host g g' report csvData Hrun Hcsv)
    as [[Hbatch ->]|(Hbatch & exit & st' & Hloop & ->)]; [discriminate|].
  destruct exit; [| |discriminate].
  - exists st'. rewrite conclude_document in Hfile.
    destruct (cancelRequested (globals st')); [discriminate|].
    destruct (0 <? successCount st')%nat eqn:Hcount; [|discriminate].
    apply Nat.ltb_lt in Hcount. injection Hfile as <-. by repeat split.
  - apply processRows_break in Hloop. rewrite conclude_document, Hloop in Hfile.
    discriminate.
Qed.

(** X24.  The document a run saves, whatever the settings: its pages are
    the compositions of the records of the batch, in record order, the
    English page of a record followed by its Telugu page when there is
    one, one image on every page; and the file is named after the first
    and the last row of the range. *)
Theorem saved_document_pages (cfg : Settings) (host : BatchHost) (g g' : Globals)
        (report : Report) (csvData : list Row) (file : SavedFile) :
  generateBatchPDF cfg host g = (g', Some report) ->
  loadCSVData host = Ok csvData ->
  producedDocument report = Some file ->
  pdfPages (document file)
  = map (fun page => [page])
        (batchPages cfg (stepHost host) 0 (batchData cfg csvData))
  /\ firstRow file = startIndex cfg
  /\ lastRow file = (endIndex cfg csvData - 1)%Z.
Proof.
  intros Hrun Hcsv Hfile.
  destruct (document_saved cfg host g g' report csvData file Hrun Hcsv Hfile)
    as (st' & Hloop & _ & _ & Hcount & ->).
  split; [|by split]. cbn [document].
  destruct (loopEntry_fresh cfg host csvData) as (Hpdf0 & Hfirst0 & Hok0 & _).
  apply processRows_next in Hloop. cbv zeta in Hloop.
  destruct Hloop as (-> & Hok & _ & _ & _ & _ & _ & Hpages).
  rewrite Hpdf0, Hfirst0. apply pdfPages_placeImages_first.
  intros Hnone. rewrite Hnone in Hpages. cbn [length] in Hpages. lia.
Qed.

(** X25.  A document is all or nothing.  When a run saves a document it
    ended as completed, no record of the batch stopped it (a record
    with a missing photo that is not skipped, or with a composition that
    fails, leaves no document at all), and the document has no empty
    page: one page at least and two at most for every certificate counted,
    exactly one in a single-language run. *)
Theorem saved_document_is_whole (cfg : Settings) (host : BatchHost) (g g' : Globals)
        (report : Report) (csvData : list Row) (file : SavedFile) :
  generateBatchPDF cfg host g = (g', Some report) ->
  loadCSVData host = Ok csvData ->
  producedDocument report = Some file ->
  outcome report = Completed
  /\ (forall j row, batchData cfg csvData !! j = Some row ->
                    rowHandled cfg (stepHost host j) row = true)
  /\ Forall (fun page => length page = 1%nat) (pdfPages (document file))
  /\ (1 <= successCount (final report) <= length (pdfPages (document file)))%nat
  /\ (length (pdfPages (document file))
      <= if generateTelugu cfg then 2 * successCount (final report)
         else successCount (final report))%nat.
Proof.
  intros Hrun Hcsv Hfile.
  destruct (document_saved cfg host g g' report csvData file Hrun Hcsv Hfile)
    as (st' & Hloop & -> & Hflag & Hcount & ->).
  destruct (conclude_locals cfg (endIndex cfg csvData) st') as (-> & _).
  cbn [document].
  destruct (loopEntry_fresh cfg host csvData) as (Hpdf0 & Hfirst0 & Hok0 & _).
  apply processRows_next in Hloop. cbv zeta in Hloop.
  destruct Hloop as (Hpdf & Hok & _ & _ & _ & _ & Hhandled & Hpages).
  rewrite Hok0 in Hok. cbn [Nat.add] in Hok. rewrite <- Hok in Hpages.
  assert (pdfPages (pdf st')
          = map (fun page => [page])
                (batchPages cfg (stepHost host) 0 (batchData cfg csvData))) as ->.
  { rewrite Hpdf, Hpdf0, Hfirst0. apply pdfPages_placeImages_first.
    intros Hnone. rewrite Hnone in Hpages. cbn [length] in Hpages. lia. }
  split.
  { unfold conclude. rewrite Hflag. by repeat case_match. }
  split; [exact Hhandled|]. split.
  { apply List.Forall_forall. intros page Hin. apply in_map_iff in Hin as (img & <- & _).
    reflexivity. }
  rewrite length_map. split; [lia|]. destruct (generateTelugu cfg); lia.
Qed.

(** Without a click, an iteration over a record that does not stop the
    run goes on to the next row. *)
Lemma processRow_handled (cfg : Settings) (sh : StepHost) (i : nat) (row : Row)
      (st : RunState) :
  rowHandled cfg sh row = true ->
  cancelRequested (globals st) = false ->
  clickedEarly sh = false -> clickedLate sh = false ->
  exists st', processRow cfg sh i row st = (NextRow, st')
              /\ cancelRequested (globals st') = false.
Proof.
  unfold rowHandled, processRow, secondLanguage. intros Hhandled Hflag -> ->.
  rewrite Hflag. cbn [clicks].
  destruct (parseStudent row) as [student|];
    [|eexists; split; [reflexivity|exact Hflag]].
  destruct (negb (truthy (Some (student_name student))));
    [eexists; split; [reflexivity|exact Hflag]|].
  destruct (loadPhotoAsBase64 sh (photosPath cfg) (photo_filename student)) as [photo|].
  - destruct (renderCertificate (hostEnglish sh) student photo en) as [[] canvas|e canvas];
      [|discriminate].
    destruct (generateTelugu cfg && truthy (Some (telugu_name student))).
    + cbn [globals stepDone addFirstLanguagePage log]. rewrite Hflag.
      destruct (renderCertificate (hostTelugu sh) student photo te) as [[] canvasTe|e canvasTe];
        [eexists; split; [reflexivity|exact Hflag]|discriminate].
    + destruct (generateTelugu cfg); eexists; (split; [reflexivity|exact Hflag]).
  - rewrite Hhandled. destruct (generateTelugu cfg); eexists; (split; [reflexivity|exact Hflag]).
Qed.

Lemma processRows_handled (cfg : Settings) (host : nat -> StepHost) (rows : list Row) :
  forall (i : nat) (st : RunState),
    (forall j row, rows !! j = Some row -> rowHandled cfg (host (i + j)%nat) row = true) ->
    cancelRequested (globals st) = false ->
    (forall j, (j < length rows)%nat ->
               clickedEarly (host (i + j)%nat) = false
               /\ clickedLate (host (i + j)%nat) = false) ->
    exists st', processRows cfg host i rows st = (NextRow, st')
                /\ cancelRequested (globals st') = false.
Proof.
  induction rows as [|row rows IH]; intros i st Hhandled Hflag Hquiet.
  - by exists st.
  - destruct (Hquiet 0%nat) as [Hearly Hlate]; [simpl; lia|].
    rewrite Nat.add_0_r in Hearly, Hlate.
    destruct (processRow_handled cfg (host i) i row st) as (st1 & Hstep & Hflag1);
      try assumption.
    { specialize (Hhandled 0%nat row eq_refl). by rewrite Nat.add_0_r in Hhandled. }
    cbn [processRows]. rewrite Hstep. apply IH; [|assumption|].
    + intros j row' Hj. replace (S i + j)%nat with (i + S j)%nat by lia.
      by apply Hhandled.
    + intros j Hj. replace (S i + j)%nat with (i + S j)%nat by lia.
      apply Hquiet. simpl. lia.
Qed.

(** X26.  When nobody clicks Cancel, no record of the batch stops the run
    and at least one record has a valid row and a photo, the run ends as
    completed, saves a document and clears the [isGenerating] flag. *)
Theorem quiet_run_saves_a_document (cfg : Settings) (host : BatchHost) (g : Globals)
        (csvData : list Row) :
  isGenerating g = false ->
  loadCSVData host = Ok csvData ->
  noClicks host (length (batchData cfg csvData)) ->
  (forall j row, batchData cfg csvData !! j = Some row ->
                 rowHandled cfg (stepHost host j) row = true) ->
  (0 < countRows (rowComposable cfg) (stepHost host) 0 (batchData cfg csvData))%nat ->
  exists (g' : Globals) (report : Report) (file : SavedFile),
    generateBatchPDF cfg host g = (g', Some report)
    /\ outcome report = Completed
    /\ producedDocument report = Some file
    /\ isGenerating g' = false.
Proof.
  intros Hgen Hcsv [Hload Hquiet] Hhandled Hsome.
  assert (batchData cfg csvData <> []) as Hrows.
  { intros Hnone. rewrite Hnone in Hsome. cbn [countRows] in Hsome. lia. }
  rewrite (generateBatchPDF_loop cfg host g csvData Hgen Hcsv Hrows). cbv zeta.
  destruct (loopEntry_fresh cfg host csvData) as (_ & _ & Hok0 & Hflag0).
  destruct (processRows_handled cfg (stepHost host) (batchData cfg csvData) 0
              (loopEntry cfg host csvData)) as (st' & Hloop & Hflag); auto.
  rewrite Hloop. pose proof Hloop as Hnext.
  apply processRows_next in Hnext. cbv zeta in Hnext.
  destruct Hnext as (_ & Hok & _).
  eexists _, _, _. split; [reflexivity|].
  split; [|split].
  - unfold conclude. rewrite Hflag. by repeat case_match.
  - rewrite conclude_document, Hflag.
    replace (0 <? successCount st')%nat with true; [reflexivity|].
    symmetry. apply Nat.ltb_lt. lia.
  - apply conclude_idle.
Qed.

(** X27.  A range with no row in it: when the start index is at or beyond
    the end of the sheet, whatever the batch size, the run fails with the
    message of line 240, saves nothing, counts nothing and clears the
    [isGenerating] flag. *)
Theorem empty_range_fails (cfg : Settings) (host : BatchHost) (g : Globals)
        (csvData : list Row) :
  isGenerating g = false ->
  loadCSVData host = Ok csvData ->
  (Z.of_nat (length csvData) <= startIndex cfg)%Z ->
  exists (g' : Globals) (report : Report),
    generateBatchPDF cfg host g = (g', Some report)
    /\ outcome report = Failed (Error "No students in the specified range")
    /\ producedDocument report = None
    /\ successCount (final report) = 0%nat
    /\ isGenerating g' = false.
Proof.
  intros Hgen Hcsv Hstart.
  assert (batchData cfg csvData = []) as Hbatch.
  { unfold batchData, endIndex, slice, sliceIndex. cbv zeta.
    set (len := length csvData) in *. set (s := startIndex cfg) in *.
    set (b := batchSize cfg).
    replace (s <? 0)%Z with false by lia.
    replace (Z.to_nat
               ((if (Z.min (s + b) (Z.of_nat len) <? 0)%Z
                 then Z.max (Z.of_nat len + Z.min (s + b) (Z.of_nat len)) 0
                 else Z.min (Z.min (s + b) (Z.of_nat len)) (Z.of_nat len))
                - Z.min s (Z.of_nat len))) with 0%nat; [reflexivity|].
    destruct (Z.min (s + b) (Z.of_nat len) <? 0)%Z eqn:He; [apply Z.ltb_lt in He|]; lia. }
  unfold generateBatchPDF. rewrite Hgen, Hcsv, Hbatch. cbn [length Nat.eqb].
  eexists _, _. split; [reflexivity|].
  unfold caught. cbn [outcome producedDocument final]. locals.
  by repeat split.
Qed.

(** ** The properties above, on sample data *)

Import MoreExamples.

Lemma wrap_line_count_witness :
  (1 <= length (wrappedLines CardBlock plainMetrics "SUHITHA")
   <= length (split "SUHITHA"))%nat
  /\ wrappedLines CardBlock plainMetrics "SUHITHA" = ["SUHITHA"%string].
Proof.
  destruct (wrap_line_count CardBlock plainMetrics "SUHITHA") as [Hcount Hone].
  split; [exact Hcount|]. apply Hone. reflexivity.
Defined.

Lemma single_line_size_witness :
  fifteenLetters = fifteenLetters
  /\ (String.length fifteenLetters <= multilineThreshold CardBlock)%nat
  /\ (measured CardBlock (uniformMetrics 1) fifteenLetters 29 <= maxWidth CardBlock)%Q
  /\ (exists k : nat, 29%Z = (startSize CardBlock - stepSize CardBlock * Z.of_nat k)%Z)
  /\ (29 <= 29 <= 55)%Z.
Proof.
  apply (single_line_size CardBlock (uniformMetrics 1) fifteenLetters fifteenLetters 29).
  vm_compute. reflexivity.
Defined.

Lemma multi_line_sizes_witness :
  exists lines : list FitLine,
    fit NameBlock plainMetrics fourWords = Ok (MultiLine 120 130 lines)
    /\ lines <> []
    /\ forall line : FitLine,
         In line lines ->
         (minLineSize NameBlock <= lineSize line <= 120)%Z
         /\ exists k : nat, lineSize line = (120 - stepSize NameBlock * Z.of_nat k)%Z.
Proof.
  destruct (fit NameBlock plainMetrics fourWords) as [[text size|size lh lines]|e] eqn:Hfit;
    try (vm_compute in Hfit; discriminate Hfit).
  destruct (multi_line_sizes NameBlock plainMetrics fourWords size lh lines Hfit)
    as (Hsizes & Hlines & Hall).
  vm_compute in Hsizes. injection Hsizes as -> ->.
  exists lines. split; [reflexivity|]. split; [exact Hlines|exact Hall].
Defined.


Lemma signature_is_scaled_witness :
  exists x y t : Q,
    appends (drawSignatureImage (hostWithImages 700 300) 3000 2080) (Ok tt)
            [DrawImage (FromImage (mkImage "assets/signature.png" 700 300)) x y 450 t] []
    /\ (t == 6785557474274743 # 35184372088832)%Q
    /\ ~ (t == 300 * 450 / 700)%Q
    /\ (Qabs (t - 300 * (450 / 700)) <= 300 * (450 / 700) * pow2 (-51))%Q.
Proof.
  destruct (signature_is_scaled (hostWithImages 700 300) 3000 2080
              (mkImage "assets/signature.png" 700 300) eq_refl)
    as (x & y & w & t & Hops & _ & _ & Hscaled & Hclose & _).
  destruct Hscaled as [-> Ht]; [reflexivity|].
  exists x, y, t. split; [exact Hops|]. split; [|split].
  - rewrite Ht. by vm_compute.
  - rewrite Ht. by vm_compute.
  - apply Hclose; by vm_compute.
Defined.

Lemma rejected_photo_is_local_witness :
  exists (c : Canvas) (before after : list DrawOp),
    renderCertificate (goodHost plainMetrics) suhitha photoUrl en = Done tt c
    /\ painted c
       = before ++ DrawImage (FromImage (mkImage photoUrl 600 200))
                             photoX photoY photoW photoH :: after
    /\ renderCertificate (withoutImage (goodHost plainMetrics) photoUrl) suhitha photoUrl en
       = Done tt (mkCanvas (before ++ after)
                           (console c ++ ["Failed to load user photo:"%string])).
Proof.
  destruct (renderCertificate (goodHost plainMetrics) suhitha photoUrl en)
    as [[] c|e c] eqn:Hrun; [|vm_compute in Hrun; discriminate Hrun].
  destruct (rejected_photo_is_local (goodHost plainMetrics) suhitha photoUrl en
              (mkImage photoUrl 600 200) c) as (before & after & Hpainted & Hwithout).
  - discriminate.
  - discriminate.
  - reflexivity.
  - exact Hrun.
  - by exists c, before, after.
Defined.

Lemma rejected_signature_is_local_witness :
  exists (c : Canvas) (before after : list DrawOp) (image : DrawOp)
         (logsBefore logsAfter : list string),
    renderCertificate (goodHost plainMetrics) suhitha photoUrl en = Done tt c
    /\ painted c = before ++ image :: after
    /\ console c = logsBefore ++ logsAfter
    /\ renderCertificate (withoutImage (goodHost plainMetrics) "assets/signature.png")
                         suhitha photoUrl en
       = Done tt (mkCanvas (before ++ after)
                           (logsBefore ++ "Signature image failed to load"%string
                                       :: logsAfter)).
Proof.
  destruct (renderCertificate (goodHost plainMetrics) suhitha photoUrl en)
    as [[] c|e c] eqn:Hrun; [|vm_compute in Hrun; discriminate Hrun].
  destruct (rejected_signature_is_local (goodHost plainMetrics) suhitha photoUrl en
              (mkImage "assets/signature.png" 600 200) c)
    as (before & after & image & logsBefore & logsAfter & Hpainted & _ & Hlogs & Hwithout).
  - discriminate.
  - discriminate.
  - reflexivity.
  - exact Hrun.
  - by exists c, before, after, image, logsBefore, logsAfter.
Defined.

Lemma roundRect_stays_in_box_witness :
  Forall (RoundRect.inBox cardX cardY cardW cardH)
         (flat_map RoundRect.pointsOf
            (RoundRect.roundRect cardX cardY cardW cardH (RoundRect.RadiusNumber 30)))
  /\ RoundRect.penAfter None None
       (RoundRect.roundRect cardX cardY cardW cardH (RoundRect.RadiusNumber 30))
     = Some (cardX + 30, cardY)%Q.
Proof.
  destruct (roundRect_stays_in_box cardX cardY cardW cardH (RoundRect.RadiusNumber 30))
    as (Hbox & _ & Hpen).
  - repeat (apply List.Forall_cons; [by vm_compute|]). apply List.Forall_nil.
  - by split.
Defined.

Lemma photo_candidates_in_order_witness :
  PhotoFiles.uniqueExtensions "AIK1"
  = ["AIK1"; "AIK1.jpeg"; "AIK1.jpg"; "AIK1.png"; "AIK1.PNG"]%string.
Proof.
  destruct (photo_candidates_in_order "AIK1") as [Hplain _]. apply Hplain. reflexivity.
Defined.

Lemma photo_first_answer_wins_witness :
  PhotoFiles.loadPhotoAsBase64 (server ["assets/photos/AIK1.jpeg"%string])
                               "assets/photos" "AIK1.jpeg"
  = PhotoFiles.Loaded "data:assets/photos/AIK1.jpg".
Proof.
  destruct (photo_first_answer_wins (server ["assets/photos/AIK1.jpeg"%string])
              "assets/photos" "AIK1.jpeg") as [Hfirst _].
  rewrite (Hfirst ["AIK1.jpeg"%string] "AIK1.jpg"%string
                  ["AIK1.JPEG"; "AIK1.JPG"; "AIK1.png"; "AIK1.PNG"]%string).
  - reflexivity.
  - reflexivity.
  - apply List.Forall_cons; [reflexivity|apply List.Forall_nil].
  - reflexivity.
Defined.

Lemma download_name_is_one_word_witness :
  Viewer.downloadName "Suhitha" te = "Certificate_Suhitha_TE.jpg"%string.
Proof.
  destruct (download_name_is_one_word "Suhitha" te) as (_ & _ & Hplain).
  apply Hplain. reflexivity.
Defined.

Lemma column_aliases_in_order_witness :
  getColumnValue blankIdRow col_student_name = Some "Kavuri Suhitha"%string.
Proof.
  destruct (column_aliases_in_order blankIdRow col_student_name) as (Hfirst & _).
  apply (Hfirst ["CName"; "student_name"; "Student Name"]%string "Name"%string
                ["FullName"; "Full Name"]%string "Kavuri Suhitha"%string).
  - reflexivity.
  - repeat (apply List.Forall_cons; [by vm_compute|]). apply List.Forall_nil.
  - by vm_compute.
  - discriminate.
Defined.

Lemma parsed_student_is_clean_witness :
  student_id (mkStudent "AIK1" "AIK1" "Kavuri Suhitha" EmptyString "AIK1.jpeg") <> EmptyString
  /\ photo_filename (mkStudent "AIK1" "AIK1" "Kavuri Suhitha" EmptyString "AIK1.jpeg")
     = ("AIK1" +:+ ".jpeg")%string.
Proof.
  destruct (parsed_student_is_clean (row "AIK1" "Kavuri Suhitha")
              (mkStudent "AIK1" "AIK1" "Kavuri Suhitha" EmptyString "AIK1.jpeg"))
    as (Hid & _ & _ & _ & _ & _ & _ & Hphoto).
  - by vm_compute.
  - split; [exact Hid|]. apply Hphoto. by vm_compute.
Defined.

Lemma blank_id_hides_later_columns_witness :
  parseStudent blankIdRow = None /\ invalidRow blankIdRow = true.
Proof.
  apply (blank_id_hides_later_columns blankIdRow [] "CRollNumber"%string
           ["ID"; "id"; "student_id"; "StudentID"; "Student ID"; "rollno"; "RollNo"]%string
           "   "%string).
  - reflexivity.
  - apply List.Forall_nil.
  - by vm_compute.
  - discriminate.
  - reflexivity.
Defined.

Lemma batch_is_a_segment_witness :
  batchData (rangeSettings 1 2) threeRows
  = firstn (Z.to_nat (batchSize (rangeSettings 1 2)))
           (skipn (Z.to_nat (startIndex (rangeSettings 1 2))) threeRows).
Proof.
  destruct (batch_is_a_segment (rangeSettings 1 2) threeRows) as [Hsegment _].
  - by vm_compute.
  - by vm_compute.
  - exact Hsegment.
Defined.

Lemma batch_within_size_witness :
  (Z.of_nat (length (batchData (rangeSettings (-2) 1) threeRows))
   <= batchSize (rangeSettings (-2) 1))%Z.
Proof. apply batch_within_size. by vm_compute. Defined.

Lemma run_counters_are_consistent_witness :
  exists (g' : Globals) (report : Report),
    generateBatchPDF (settings true false) (batchHost threeRows "AIK2.jpeg" None) idle
    = (g', Some report)
    /\ length (generatedRollNumbers (final report)) = successCount (final report)
    /\ length (skippedRollNumbers (final report)) = skipCount (final report)
    /\ (successCount (final report) + skipCount (final report)
        <= length (batchData (settings true false) threeRows))%nat
    /\ (currentStep (final report)
        <= totalSteps (settings true false) (batchData (settings true false) threeRows))%nat.
Proof.
  destruct (generateBatchPDF (settings true false)
              (batchHost threeRows "AIK2.jpeg" None) idle)
    as [g' [report|]] eqn:Hrun; [|vm_compute in Hrun; discriminate Hrun].
  exists g', report. split; [reflexivity|].
  exact (run_counters_are_consistent (settings true false)
           (batchHost threeRows "AIK2.jpeg" None) idle g' report threeRows Hrun eq_refl).
Defined.

Lemma completed_run_accounts_for_every_row_witness :
  exists (g' : Globals) (report : Report),
    generateBatchPDF (settings true true) (batchHost mixedRows EmptyString None) idle
    = (g', Some report)
    /\ outcome report = Completed
    /\ (successCount (final report) + skipCount (final report)
        = length (batchData (settings true true) mixedRows))%nat
    /\ (currentStep (final report) + 1
        = totalSteps (settings true true) (batchData (settings true true) mixedRows))%nat.
Proof.
  destruct (generateBatchPDF (settings true true)
              (batchHost mixedRows EmptyString None) idle)
    as [g' [report|]] eqn:Hrun; [|vm_compute in Hrun; discriminate Hrun].
  assert (outcome report = Completed) as Hdone.
  { vm_compute in Hrun. injection Hrun as _ <-. reflexivity. }
  destruct (completed_run_accounts_for_every_row (settings true true)
              (batchHost mixedRows EmptyString None) idle g' report mixedRows
              Hrun eq_refl Hdone) as (_ & Hsum & _ & Hsteps).
  exists g', report. split; [reflexivity|]. split; [exact Hdone|]. split; [exact Hsum|].
  exact Hsteps.
Defined.

Lemma saved_document_pages_witness :
  exists (g' : Globals) (report : Report) (file : SavedFile),
    generateBatchPDF (settings true true) (batchHost mixedRows EmptyString None) idle
    = (g', Some report)
    /\ producedDocument report = Some file
    /\ pdfPages (document file)
       = map (fun page => [page])
             (batchPages (settings true true)
                         (stepHost (batchHost mixedRows EmptyString None)) 0
                         (batchData (settings true true) mixedRows))
    /\ length (pdfPages (document file)) = 3%nat.
Proof.
  destruct (generateBatchPDF (settings true true)
              (batchHost mixedRows EmptyString None) idle)
    as [g' [report|]] eqn:Hrun; [|vm_compute in Hrun; discriminate Hrun].
  destruct (producedDocument report) as [file|] eqn:Hfile.
  2:{ vm_compute in Hrun. injection Hrun as _ <-. vm_compute in Hfile. discriminate Hfile. }
  destruct (saved_document_pages (settings true true)
              (batchHost mixedRows EmptyString None) idle g' report mixedRows file
              Hrun eq_refl Hfile) as (Hpages & _ & _).
  exists g', report, file. split; [reflexivity|]. split; [exact Hfile|].
  split; [exact Hpages|]. rewrite Hpages. by vm_compute.
Defined.

Lemma saved_document_is_whole_witness :
  exists (g' : Globals) (report : Report) (file : SavedFile),
    generateBatchPDF (settings true true) (batchHost mixedRows EmptyString None) idle
    = (g', Some report)
    /\ producedDocument report = Some file
    /\ outcome report = Completed
    /\ Forall (fun page => length page = 1%nat) (pdfPages (document file))
    /\ (1 <= successCount (final report) <= length (pdfPages (document file)))%nat.
Proof.
  destruct (generateBatchPDF (settings true true)
              (batchHost mixedRows EmptyString None) idle)
    as [g' [report|]] eqn:Hrun; [|vm_compute in Hrun; discriminate Hrun].
  destruct (producedDocument report) as [file|] eqn:Hfile.
  2:{ vm_compute in Hrun. injection Hrun as _ <-. vm_compute in Hfile. discriminate Hfile. }
  destruct (saved_document_is_whole (settings true true)
              (batchHost mixedRows EmptyString None) idle g' report mixedRows file
              Hrun eq_refl Hfile) as (Hdone & _ & Hone & Hcount & _).
  exists g', report, file. split; [reflexivity|]. split; [exact Hfile|].
  split; [exact Hdone|]. split; [exact Hone|exact Hcount].
Defined.

Lemma quiet_run_saves_a_document_witness :
  exists (g' : Globals) (report : Report) (file : SavedFile),
    generateBatchPDF (settings true true) (batchHost mixedRows EmptyString None) idle
    = (g', Some report)
    /\ outcome report = Completed
    /\ producedDocument report = Some file
    /\ isGenerating g' = false.
Proof.
  apply (quiet_run_saves_a_document (settings true true)
           (batchHost mixedRows EmptyString None) idle mixedRows).
  - reflexivity.
  - reflexivity.
  - split; [reflexivity|]. intros i _. split; reflexivity.
  - assert (batchData (settings true true) mixedRows = mixedRows) as -> by by vm_compute.
    intros j r Hj. destruct j as [|[|[|j]]]; try discriminate Hj; injection Hj as <-;
      by vm_compute.
  - vm_compute. lia.
Defined.

Lemma empty_range_fails_witness :
  exists (g' : Globals) (report : Report),
    generateBatchPDF (rangeSettings 3 2) (batchHost threeRows EmptyString None) idle
    = (g', Some report)
    /\ outcome report = Failed (Error "No students in the specified range")
    /\ producedDocument report = None
    /\ successCount (final report) = 0%nat
    /\ isGenerating g' = false.
Proof.
  apply (empty_range_fails (rangeSettings 3 2) (batchHost threeRows EmptyString None)
           idle threeRows).
  - reflexivity.
  - reflexivity.
  - by vm_compute.
Defined.
